(** * ExcisionFinder: allele-specific excision sites

    A shallow embedding of the pair classifier, the haplotype resolver and
    the per-individual aggregation of
    [paper_scripts/ExcisionFinder_filt_by_score.py], and of the gene model
    and the run of
    [manuscript_analyses/wtc_analysis/src/hg19_analysis/single_cut_targ_wtc_hg19.py].

    Genomic positions are Python integers, modelled as [Z].  A pandas
    Series is a [list]; a Python [set] of positions is a [gset Z]; a
    DataFrame is a record holding its column labels and its rows. *)

From Stdlib Require Import ZArith String Ascii.
From stdpp Require Import base list gmap strings sorting.

Local Open Scope string_scope.
Local Open Scope list_scope.
Local Open Scope Z_scope.

(** ** Python values and exceptions *)

(** [next_exon] returns either the Python value [False] or an integer, and
    its caller compares that value with an integer.  Python's [bool] is a
    subclass of [int]: in a comparison [False] is [0] and [True] is [1]. *)
Inductive pyval : Type :=
  | PyBool (b : bool)
  | PyInt (z : Z).

Definition py_int (v : pyval) : Z :=
  match v with
  | PyBool b => if b then 1 else 0
  | PyInt z => z
  end.

(** [a >= v] for an integer [a]. *)
Definition py_ge (a : Z) (v : pyval) : bool := py_int v <=? a.

(** [low, high = sorted([a, b])]: the sort is stable, so equal elements
    keep their order. *)
Definition sorted2 (a b : Z) : Z * Z := if b <? a then (b, a) else (a, b).

(** [min] of a non-empty sequence. *)
Definition min_of (x : Z) (xs : list Z) : Z := foldl Z.min x xs.

(** Exceptions: a computation either returns a value or raises.  Only the
    exceptions the modelled functions can raise are listed; [SystemExit]
    is what [exit()] raises. *)
Inductive exn : Type := ValueError | KeyError | SystemExit.

Inductive py (A : Type) : Type :=
  | Return (a : A)
  | Raise (e : exn).
Arguments Return {A} a.
Arguments Raise {A} e.

#[global] Instance py_ret : MRet py := λ A a, Return a.
#[global] Instance py_bind : MBind py := λ A B f m,
  match m with
  | Return a => f a
  | Raise e => Raise e
  end.

(** [try: body  except ValueError: handler]. *)
Definition except_ValueError {A} (body handler : py A) : py A :=
  match body with
  | Raise ValueError => handler
  | r => r
  end.

(** [s.split(sep)] for a one-character separator: every occurrence
    splits, so the result has one more element than [s] has separators. *)
Fixpoint split (sep : ascii) (s : string) : list string :=
  match s with
  | EmptyString => [EmptyString]
  | String c rest =>
      if bool_decide (c = sep) then EmptyString :: split sep rest
      else match split sep rest with
           | [] => [String c EmptyString]
           | w :: ws => String c w :: ws
           end
  end.

(** [range(a, b)]. *)
Definition range (a b : Z) : list Z := seqZ a (b - a).

(** A pandas DataFrame: its column labels and its rows.  Selecting a label
    that is not a column raises [KeyError]; [.item()] on a Series that
    does not hold exactly one element raises [ValueError]. *)
Record DataFrame (R : Type) : Type := mkDataFrame {
  columns : list string;
  rows : list R
}.
Arguments mkDataFrame {R} columns rows.
Arguments columns {R} d.
Arguments rows {R} d.

Definition query {R} (P : R → Prop) `{∀ r, Decision (P r)} (df : DataFrame R)
    : DataFrame R :=
  mkDataFrame (columns df) (filter P (rows df)).

(** [df.empty]. *)
Definition is_empty {R} (df : DataFrame R) : bool :=
  match rows df with [] => true | _ => false end.

(** Whether every label of [labels] is a column. *)
Definition present (labels cols : list string) : bool :=
  forallb (λ c, bool_decide (c ∈ cols)) labels.

Definition item {A} (series : list A) : py A :=
  match series with
  | [x] => Return x
  | _ => Raise ValueError
  end.

(** [a.replace(old, new)] for a one-character [old]: every occurrence is
    replaced, from left to right. *)
Fixpoint str_replace (old : ascii) (new : string) (a : string) : string :=
  match a with
  | EmptyString => EmptyString
  | String c rest =>
      if bool_decide (c = old) then new +:+ str_replace old new rest
      else String c (str_replace old new rest)
  end.

(** [re.split(pattern, s)] for a pattern that is an alternation of single
    characters: every occurrence of one of them splits. *)
Fixpoint re_split (seps : list ascii) (s : string) : list string :=
  match s with
  | EmptyString => [EmptyString]
  | String c rest =>
      if bool_decide (c ∈ seps) then EmptyString :: re_split seps rest
      else match re_split seps rest with
           | [] => [String c EmptyString]
           | w :: ws => String c w :: ws
           end
  end.

(** [sorted(l)] on integers. *)
Definition sorted (l : list Z) : list Z := merge_sort Z.le l.

(** ** The pair classifier of [ExcisionFinder_filt_by_score.py] *)

Module ExcisionFinder.

(** [coding_exon_starts[coding_exon_starts > variant_position]], then
    [False] when that is [.empty], its [.min()] otherwise. *)
Definition next_exon (variant_position : Z) (coding_exon_starts : list Z) : pyval :=
  let greater_than_var :=
    filter (λ x, variant_position < x) coding_exon_starts in
  match greater_than_var with
  | [] => PyBool false
  | x :: xs => PyInt (min_of x xs)
  end.

Definition targ_pair (variant1 variant2 : Z) (coding_positions : gset Z)
    (coding_exon_starts : list Z) : bool :=
  let '(low_var, high_var) := sorted2 variant1 variant2 in
  if bool_decide (low_var ∈ coding_positions)
     || bool_decide (high_var ∈ coding_positions)
  then true
  else py_ge high_var (next_exon low_var coding_exon_starts).

(** [set(x).issubset(het_positions)] for a pair [x], and the loop with
    [break] over [targ_pairs]. *)
Definition pair_subset (x : Z * Z) (het_positions : gset Z) : bool :=
  bool_decide (({[ x.1; x.2 ]} : gset Z) ⊆ het_positions).

Fixpoint has_targ_pair (het_positions : gset Z) (targ_pairs : list (Z * Z)) : bool :=
  match targ_pairs with
  | [] => false
  | x :: rest =>
      if pair_subset x het_positions then true
      else has_targ_pair het_positions rest
  end.

(** The loop of [main] over [itertools.product(variants, variants)]: a
    combination that passes the three tests is appended to the two
    lists [variant1] and [variant2]. *)
Definition keep_combo (coding_positions : gset Z) (coding_exon_starts : list Z)
    (var1 var2 : Z) : bool :=
  bool_decide (var1 ≠ var2)
  && (Z.max var1 var2 <=? Z.min var1 var2 + 10000)
  && targ_pair var1 var2 coding_positions coding_exon_starts.

Definition combo_step (coding_positions : gset Z) (coding_exon_starts : list Z)
    (acc : list Z * list Z) (p : Z * Z) : list Z * list Z :=
  if keep_combo coding_positions coding_exon_starts p.1 p.2
  then (acc.1 ++ [p.1], acc.2 ++ [p.2])
  else acc.

Definition variant_combos (variants : list Z) (coding_positions : gset Z)
    (coding_exon_starts : list Z) : list Z * list Z :=
  foldl (combo_step coding_positions coding_exon_starts) ([], [])
        (cprod variants variants).

(** [targ_pairs_tuple = tuple(zip(variant1, variant2))] and
    [eligible_variants = set(variant1 + variant2)]. *)
Definition targ_pairs_tuple (variants : list Z) (coding_positions : gset Z)
    (coding_exon_starts : list Z) : list (Z * Z) :=
  let c := variant_combos variants coding_positions coding_exon_starts in
  zip c.1 c.2.

Definition eligible_variants (variants : list Z) (coding_positions : gset Z)
    (coding_exon_starts : list Z) : gset Z :=
  let c := variant_combos variants coding_positions coding_exon_starts in
  list_to_set (c.1 ++ c.2).

(** *** The haplotype resolver *)

Definition CAS_LIST : list string := ["all"; "SaCas9_KKH"].

(** A row of the variant targetability table [chrdf]: position,
    reference and alternate allele, and the boolean columns
    ([makes_<cas>], [breaks_<cas>], [var_near_<cas>]) read by label.  The
    [columns] of the table list the labels of the boolean columns. *)
Record targ_row : Type := mk_targ_row {
  pos : Z;
  ref : string;
  alt : string;
  flag : string → bool
}.

(** A row of the genotype table [roigens_hdf]: its index is the
    position, and it holds one genotype string (["A|G"]) per sample
    column. *)
Record gen_row : Type := mk_gen_row {
  index : Z;
  genotype_of : string → string
}.

(** A row of [targ_haps]: one (sample, heterozygous position), and the
    columns [hap1_<cas>], [hap2_<cas>] once [main] has assigned them. *)
Record haps_row : Type := mk_haps_row {
  sample_of : string;
  pos_of : Z;
  hap_flag : string → bool
}.

Definition relevant_columns (cas : string)
    : list string * list string * list string :=
  if bool_decide (cas = "all") then
    ((λ cas, "makes_" +:+ cas) <$> tail CAS_LIST,
     (λ cas, "breaks_" +:+ cas) <$> tail CAS_LIST,
     (λ cas, "var_near_" +:+ cas) <$> tail CAS_LIST)
  else
    (["makes_" +:+ cas], ["breaks_" +:+ cas], ["var_near_" +:+ cas]).

(** [(targ_data[cols]).any().any()]: selecting the labels [cols] raises
    [KeyError] unless each of them is a column. *)
Definition any_any (targ_data : DataFrame targ_row) (cols : list string) : py bool :=
  if present cols (columns targ_data)
  then Return (existsb (λ r, existsb (flag r) cols) (rows targ_data))
  else Raise KeyError.

Definition targetable_haplotypes (targ_data : DataFrame targ_row)
    (make_cols break_cols near_cols : list string) : py (bool * bool) :=
  let targ_alt_hap := false in
  let targ_ref_hap := false in
  any_any targ_data make_cols ≫= λ makes : bool,
  let targ_alt_hap := if makes then true else targ_alt_hap in
  any_any targ_data break_cols ≫= λ breaks : bool,
  let targ_ref_hap := if breaks then true else targ_ref_hap in
  any_any targ_data near_cols ≫= λ near : bool,
  let targ_alt_hap := if near then true else targ_alt_hap in
  let targ_ref_hap := if near then true else targ_ref_hap in
  Return (targ_alt_hap, targ_ref_hap).

Definition targ_haps_both_alt (rel_row_1 rel_row_2 : DataFrame targ_row)
    (make_cols break_cols near_cols : list string) : py (bool * bool) :=
  '(targ_alt1_hap, targ_alt2_hap) ←
    targetable_haplotypes rel_row_1 make_cols break_cols near_cols;
  if targ_alt1_hap && targ_alt2_hap then Return (targ_alt1_hap, targ_alt2_hap)
  else
    '(targ_alt1_hap2, targ_alt2_hap2) ←
      targetable_haplotypes rel_row_2 make_cols break_cols near_cols;
    let targ_alt1_hap_out := targ_alt1_hap || targ_alt1_hap2 in
    let targ_alt2_hap_out := targ_alt2_hap || targ_alt2_hap2 in
    Return (targ_alt1_hap_out, targ_alt2_hap_out).

(** [roigens_hdf.query('index == @position')[sample].item()]. *)
Definition genotype_at (position : Z) (sample : string)
    (roigens_hdf : DataFrame gen_row) : py string :=
  let at_pos := query (λ r, index r = position) roigens_hdf in
  if bool_decide (sample ∈ columns at_pos)
  then item ((λ r, genotype_of r sample) <$> rows at_pos)
  else Raise KeyError.

(** [hap1_allele, hap2_allele = genotype.split('|')]: unpacking anything
    but two values raises [ValueError]. *)
Definition split_genotype (genotype : string) : py (string * string) :=
  match split "|" genotype with
  | [hap1_allele; hap2_allele] => Return (hap1_allele, hap2_allele)
  | _ => Raise ValueError
  end.

(** The body of the [try] block. *)
Definition haplotype_targetability_body (position : Z) (sample : string)
    (chrdf : DataFrame targ_row) (roigens_hdf : DataFrame gen_row)
    (cas_type : string) : py (bool * bool) :=
  genotype ← genotype_at position sample roigens_hdf;
  '(hap1_allele, hap2_allele) ← split_genotype genotype;
  ref ← item (ref <$> rows (query (λ r, pos r = position) chrdf));
  let '(make_cols, break_cols, near_cols) := relevant_columns cas_type in
  if bool_decide (hap2_allele = ref) then
    let relevant_row := query (λ r, pos r = position ∧ alt r = hap1_allele) chrdf in
    '(targ_hap1, targ_hap2) ←
      targetable_haplotypes relevant_row make_cols break_cols near_cols;
    Return (targ_hap1, targ_hap2)
  else if bool_decide (hap1_allele = ref) then
    let relevant_row := query (λ r, pos r = position ∧ alt r = hap2_allele) chrdf in
    '(targ_hap2, targ_hap1) ←
      targetable_haplotypes relevant_row make_cols break_cols near_cols;
    Return (targ_hap1, targ_hap2)
  else if bool_decide (hap1_allele ≠ ref) && bool_decide (hap2_allele ≠ ref) then
    let rel_row_hap1 := query (λ r, pos r = position ∧ alt r = hap1_allele) chrdf in
    let rel_row_hap2 := query (λ r, pos r = position ∧ alt r = hap2_allele) chrdf in
    '(targ_hap1, targ_hap2) ←
      targ_haps_both_alt rel_row_hap1 rel_row_hap2 make_cols break_cols near_cols;
    Return (targ_hap1, targ_hap2)
  else Raise SystemExit.

(** The [while True] loop leaves at its first pass: the body returns,
    exits, or raises. *)
Definition haplotype_targetability (position : Z) (sample : string)
    (chrdf : DataFrame targ_row) (roigens_hdf : DataFrame gen_row)
    (cas_type : string) : py (bool * bool) :=
  except_ValueError
    (haplotype_targetability_body position sample chrdf roigens_hdf cas_type)
    (Return (false, false)).

(** *** Aggregation per individual *)

(** [set(targ_haps_df[targ_haps_df[col]].query('sample == @sample').pos)]. *)
Definition sample_hets (col sample : string) (targ_haps_df : DataFrame haps_row)
    : py (gset Z) :=
  if bool_decide (col ∈ columns targ_haps_df) then
    let masked := query (λ r, hap_flag r col = true) targ_haps_df in
    Return (list_to_set (pos_of <$> rows (query (λ r, sample_of r = sample) masked)))
  else Raise KeyError.

Definition has_targ_pos_pair_same_hap (sample cas_type : string)
    (targ_pairs : list (Z * Z)) (targ_haps_df : DataFrame haps_row) : py bool :=
  let hap1_col := "hap1_" +:+ cas_type in
  let hap2_col := "hap2_" +:+ cas_type in
  sample_hets_hap1 ← sample_hets hap1_col sample targ_haps_df;
  sample_hets_hap2 ← sample_hets hap2_col sample targ_haps_df;
  if has_targ_pair sample_hets_hap1 targ_pairs then Return true
  else if has_targ_pair sample_hets_hap2 targ_pairs then Return true
  else Return false.

(** The long-form table of [main]: one row per individual of
    [het_vars_per_ind] and heterozygous position of that individual, in
    the order of the dictionary. *)
Definition long_form (het_vars_per_ind : list (string * list Z)) : DataFrame haps_row :=
  mkDataFrame []
    (ind_vars ← het_vars_per_ind;
     (λ p, mk_haps_row ind_vars.1 p (λ _, false)) <$> ind_vars.2).

(** [df[col] = values]: the label becomes a column, each row takes its
    value. *)
Definition set_flag (col : string) (v : bool) (r : haps_row) : haps_row :=
  mk_haps_row (sample_of r) (pos_of r)
              (λ c, if bool_decide (c = col) then v else hap_flag r c).

Definition add_label (col : string) (cols : list string) : list string :=
  if bool_decide (col ∈ cols) then cols else cols ++ [col].

Definition assign_haps (cas : string) (targ_haps : DataFrame haps_row)
    (values : list (bool * bool)) : DataFrame haps_row :=
  mkDataFrame
    (add_label ("hap2_" +:+ cas) (add_label ("hap1_" +:+ cas) (columns targ_haps)))
    (zip_with (λ r v, set_flag ("hap2_" +:+ cas) v.2 (set_flag ("hap1_" +:+ cas) v.1 r))
              (rows targ_haps) values).

(** One pass of the loop [for cas in CAS_LIST[1:]] of [main]: the two
    haplotype columns of [targ_haps], then the column [targ_<cas>] of
    [final_targ], one value per individual of [enough_hets].  Unpacking
    [zip( *rows)] of no row at all raises [ValueError]. *)
Definition evaluate_cas (cas : string) (chrdf : DataFrame targ_row)
    (gens_hdf : DataFrame gen_row) (targ_pairs_tuple : list (Z * Z))
    (enough_hets : list string) (targ_haps : DataFrame haps_row)
    : py (DataFrame haps_row * list bool) :=
  values ← mapM (λ row, haplotype_targetability (pos_of row) (sample_of row)
                                                chrdf gens_hdf cas)
                (rows targ_haps);
  match values with
  | [] => Raise ValueError
  | _ :: _ =>
      let targ_haps := assign_haps cas targ_haps values in
      targ ← mapM (λ sample, has_targ_pos_pair_same_hap sample cas
                               targ_pairs_tuple targ_haps)
                  enough_hets;
      Return (targ_haps, targ)
  end.

(** [main] from the variant combinations on, for one Cas variety: the
    pairs, the rows of [targ_haps] at eligible positions, the exit when
    none is left, and the rows (sample, [targ_<cas>]) of [final_targ].
    It is given what [main] has computed by then: [variants], the sorted
    positions of the genotype table, and [het_vars_per_ind], the
    heterozygous positions of each individual of [enough_hets]. *)
Definition pair_mode (cas : string) (variants : list Z) (coding_positions : gset Z)
    (coding_exon_starts : list Z) (het_vars_per_ind : list (string * list Z))
    (chrdf : DataFrame targ_row) (gens_hdf : DataFrame gen_row)
    : py (list (string * bool)) :=
  let enough_hets := het_vars_per_ind.*1 in
  let pairs := targ_pairs_tuple variants coding_positions coding_exon_starts in
  let eligible := eligible_variants variants coding_positions coding_exon_starts in
  let targ_haps := query (λ r, pos_of r ∈ eligible) (long_form het_vars_per_ind) in
  if is_empty targ_haps then Raise SystemExit
  else
    r ← evaluate_cas cas chrdf gens_hdf pairs enough_hets targ_haps;
    Return (zip enough_hets r.2).

(** *** The other functions of the script *)

(** [het]: [hap1, hap2 = str(genotype).split('|')], then [hap1 != hap2]. *)
Definition het (genotype : string) : py bool :=
  '(hap1, hap2) ← split_genotype genotype;
  Return (bool_decide (hap1 ≠ hap2)).

(** [translate_gene_name]: [reduce] applies the two replacements in
    turn. *)
Definition repls : list (ascii * string) :=
  [("-"%char, "dash"); ("."%char, "period")].

Definition translate_gene_name (gene_name : string) : string :=
  foldl (λ a kv, str_replace kv.1 kv.2 a) gene_name repls.

(** A row of the gene annotations of [load_gene_annots], its two
    comma-separated columns read as the integers they list. *)
Record annot_row : Type := mk_annot_row {
  name : string;
  gene_name_of : string;
  cdsStart : Z;
  cdsEnd : Z;
  exonStarts : list Z;
  exonEnds : list Z;
  size_of : Z
}.

(** [get_canonical]: the name on the first row of the gene; [.iloc[0]] on
    no row raises [IndexError], which the function catches to [exit()]
    (after it has written the gene to a file, left out here). *)
Definition get_canonical (gene_name : string) (gene_annots : list annot_row)
    : py string :=
  match filter (λ r, gene_name_of r = gene_name) gene_annots with
  | r :: _ => Return (name r)
  | [] => Raise SystemExit
  end.

(** A row of [exon_status_df]. *)
Record exon_status : Type := mk_exon_status {
  exonStarts_of : Z;
  codingStatus : bool;
  exon : Z;
  start_hg19 : Z;
  stop_hg19 : Z
}.

(** [get_coding_exons], from the exon starts and ends and the coding
    sequence bounds of the transcript's row.  The order of [list(s)] for
    a set [s] is not specified; [elements] stands for it.  Assigning a
    column whose length is not the table's raises [ValueError].  The
    outputs [start_coord] and [stop_coord], which do not enter the others,
    and the log file are left out. *)
Definition get_coding_exons (exonStarts exonEnds : list Z) (cds_start cds_end : Z)
    : py (list exon_status * nat * gset Z * list Z) :=
  let exon_starts : gset Z := list_to_set exonStarts in
  let exon_stops : gset Z := list_to_set exonEnds in
  let coding_region : gset Z := list_to_set (range cds_start (cds_end + 1)) in
  let ce_starts_list := elements (exon_starts ∩ coding_region) in
  let ce_starts := ce_starts_list in
  let n_coding_exons := length ce_starts in
  if bool_decide (n_coding_exons = 0%nat) then Raise SystemExit
  else
    let starts := sorted (elements exon_starts) in
    let stops := sorted (elements exon_stops) in
    if bool_decide (length stops ≠ length starts) then Raise ValueError
    else
      let exon_status_df :=
        imap (λ i se, mk_exon_status se.1 (bool_decide (se.1 ∈ ce_starts_list))
                                     (Z.of_nat i + 1) se.1 se.2)
             (zip starts stops) in
      let coding_df := filter (λ row, codingStatus row = true) exon_status_df in
      let coding_range : gset Z :=
        list_to_set (row ← coding_df; range (start_hg19 row) (stop_hg19 row + 1)) in
      Return (exon_status_df, n_coding_exons, coding_range, ce_starts).

(** *** [main], from the loaded tables on *)

(** A row of [hetroigens]: the index and, for each sample column, whether
    the genotype is heterozygous. *)
Record het_row : Type := mk_het_row {
  het_index : Z;
  het_cells : gmap string bool
}.

Definition is_het (r : het_row) (ind : string) : bool :=
  default false (het_cells r !! ind).

(** [gens.applymap(het)]: [het] on every cell.  A cell on which it
    raises stops the run; the only exception of [het] is [ValueError], so
    the order in which the cells are visited does not show. *)
Definition applymap_het (gens : DataFrame gen_row) : py (DataFrame het_row) :=
  het_rows ← mapM (λ r, cells ← mapM (λ ind, het (genotype_of r ind)) (columns gens);
                        Return (mk_het_row (index r)
                                           (list_to_map (zip (columns gens) cells))))
                  (rows gens);
  Return (mkDataFrame (columns gens) het_rows).

(** [hetroigens.sum(axis=0)] at one column, and the individuals whose sum
    is two at least. *)
Definition column_sum (ind : string) (hetroigens : DataFrame het_row) : nat :=
  length (filter (λ r, is_het r ind = true) (rows hetroigens)).

Definition enough_hets_of (hetroigens : DataFrame het_row) : list string :=
  filter (λ ind, (2 ≤ column_sum ind hetroigens)%nat) (columns hetroigens).

(** [het_vars_per_ind]: for each individual of [enough_hets], the index
    of the rows on which the individual is heterozygous.  The sample
    labels of a genotype table are distinct, so that the dictionary has
    one entry per element of [enough_hets], in their order. *)
Definition het_vars_per_ind_of (hetroigens : DataFrame het_row)
    (enough_hets : list string) : list (string * list Z) :=
  (λ ind, (ind, het_index <$> filter (λ r, is_het r ind = true) (rows hetroigens)))
    <$> enough_hets.

(** The loop [for cas in CAS_LIST[1:]]: each pass adds two columns to
    [targ_haps] and one column to [final_targ]. *)
Fixpoint cas_loop (cas_list : list string) (chrdf : DataFrame targ_row)
    (gens_hdf : DataFrame gen_row) (targ_pairs_tuple : list (Z * Z))
    (enough_hets : list string) (targ_haps : DataFrame haps_row)
    : py (DataFrame haps_row * list (string * list bool)) :=
  match cas_list with
  | [] => Return (targ_haps, [])
  | cas :: rest =>
      r ← evaluate_cas cas chrdf gens_hdf targ_pairs_tuple enough_hets targ_haps;
      r' ← cas_loop rest chrdf gens_hdf targ_pairs_tuple enough_hets r.1;
      Return (r'.1, ("targ_" +:+ cas, r.2) :: r'.2)
  end.

(** [final_targ]: the samples, one column [targ_<cas>] per Cas variety,
    and the column [targ_all], true on a row when a Cas column is. *)
Record final_targ : Type := mk_final_targ {
  ft_sample : list string;
  ft_targ : list (string * list bool);
  ft_targ_all : list bool
}.

Definition any_axis1 (n : nat) (cols : list (string * list bool)) : list bool :=
  (λ i, existsb (λ col, default false (col.2 !! i)) cols) <$> seq 0 n.

(** [main] from the test on the targetability table on; [chrdf] and
    [gens_hdf] are the tables read for the region of the gene,
    [coding_positions] and [coding_exon_starts] what [get_coding_exons]
    returned.  What it writes at the end, [final_targ] and [targ_haps], is
    its result here; an [exit()] after a note in a file is [SystemExit]. *)
Definition main (coding_positions : gset Z) (coding_exon_starts : list Z)
    (chrdf : DataFrame targ_row) (gens_hdf : DataFrame gen_row)
    : py (final_targ * DataFrame haps_row) :=
  if is_empty chrdf then Raise SystemExit
  else
    hetroigens ← applymap_het gens_hdf;
    let enough_hets := enough_hets_of hetroigens in
    if bool_decide (length enough_hets < 1)%nat then Raise SystemExit
    else
      let variants := sorted (het_index <$> rows hetroigens) in
      let het_vars_per_ind := het_vars_per_ind_of hetroigens enough_hets in
      let targ_haps := long_form het_vars_per_ind in
      let pairs := targ_pairs_tuple variants coding_positions coding_exon_starts in
      let eligible := eligible_variants variants coding_positions coding_exon_starts in
      let targ_haps := query (λ r, pos_of r ∈ eligible) targ_haps in
      if is_empty targ_haps then Raise SystemExit
      else
        r ← cas_loop (tail CAS_LIST) chrdf gens_hdf pairs enough_hets targ_haps;
        Return (mk_final_targ enough_hets r.2 (any_axis1 (length enough_hets) r.2),
                r.1).

End ExcisionFinder.

(** ** The gene model of [single_cut_targ_wtc_hg19.py] *)

Module SingleCut.

(** Here [coding_exon_starts] and [coding_positions] are Python lists. *)
Definition next_exon (variant_position : Z) (coding_exon_starts : list Z) : pyval :=
  let greater_than_var :=
    filter (λ x, variant_position < x) coding_exon_starts in
  match greater_than_var with
  | [] => PyBool false
  | x :: xs => PyInt (min_of x xs)
  end.

Definition targ_pair (variant1 variant2 : Z) (coding_positions : list Z)
    (coding_exon_starts : list Z) : bool :=
  let '(low_var, high_var) := sorted2 variant1 variant2 in
  if bool_decide (low_var ∈ coding_positions)
     || bool_decide (high_var ∈ coding_positions)
  then true
  else py_ge high_var (next_exon low_var coding_exon_starts).

(** The loop of [Gene.__init__] over the zipped exon starts and ends:
    [counter] is incremented first, then the exon is appended with its
    start clipped ([counter == 1]), or else its end clipped
    ([counter == counterweight]), or else unchanged. *)
Fixpoint clip_exons (coding_start coding_end : Z) (counterweight counter : nat)
    (exons : list (Z * Z)) : list (Z * Z) :=
  match exons with
  | [] => []
  | x :: rest =>
      let counter := S counter in
      (if bool_decide (counter = 1%nat) then (Z.max coding_start x.1, x.2)
       else if bool_decide (counter = counterweight) then (x.1, Z.min coding_end x.2)
       else (x.1, x.2))
      :: clip_exons coding_start coding_end counterweight counter rest
  end.

Definition coding_exons (coding_start coding_end : Z) (exonStarts exonEnds : list Z)
    : list (Z * Z) :=
  let exons := zip exonStarts exonEnds in
  clip_exons coding_start coding_end (length exons) 0 exons.

(** [Gene.get_coding_positions_and_starts]. *)
Definition get_coding_positions_and_starts (coding_exons : list (Z * Z))
    : list Z * list Z :=
  foldl (λ acc exon,
           (acc.1 ++ range exon.1 (exon.2 + 1), acc.2 ++ [exon.1]))
        ([], []) coding_exons.

(** [het]: [hap1, hap2 = re.split('/|\|', genotype)], then
    [hap1 != hap2]; the pattern matches a slash or a bar. *)
Definition het (genotype : string) : py bool :=
  match re_split ["/"%char; "|"%char] genotype with
  | [hap1; hap2] => Return (bool_decide (hap1 ≠ hap2))
  | _ => Raise ValueError
  end.

Definition translate_gene_name (gene_name : string) : string :=
  foldl (λ a kv, str_replace kv.1 kv.2 a) gene_name
        [("-"%char, "dash"); ("."%char, "period")].

(** *** [main], from the gene and the loaded tables on *)

(** A row of [gens]: the column [pos] and, for each sample column, the
    genotype. *)
Record gens_row : Type := mk_gens_row {
  gens_pos : Z;
  gens_genotype : string → string
}.

(** How a run of [main] ends.  [query] raises
    [pandas.errors.UndefinedVariableError] on a name that is no column. *)
Inductive outcome (A : Type) : Type :=
  | Returns (a : A)
  | Raises (e : exn)
  | RaisesUndefinedVariableError.
Arguments Returns {A} a.
Arguments Raises {A} e.
Arguments RaisesUndefinedVariableError {A}.

(** A table of boolean columns, in the order of the columns.
    [df[name]] reads a column and [df[name] = col] replaces the column
    of that name or, when there is none, adds one at the end. *)
Definition get_column (name : string) (df : list (string * list bool)) : list bool :=
  default [] ((list_to_map df : gmap string (list bool)) !! name).

Definition set_column (name : string) (col : list bool)
    (df : list (string * list bool)) : list (string * list bool) :=
  if bool_decide (name ∈ df.*1)
  then (λ c, if bool_decide (c.1 = name) then (name, col) else c) <$> df
  else df ++ [(name, col)].

(** [gens[samples].applymap(het)]: [het] on every cell, column after
    column.  The only exception of [het] is [ValueError]. *)
Definition applymap_het (samples : list string) (gens : list gens_row)
    : py (list (string * list bool)) :=
  mapM (λ ind, col ← mapM (λ r, het (gens_genotype r ind)) gens; Return (ind, col))
       samples.

(** [het_gens.sum(axis=0)] at one column. *)
Definition column_sum (col : list bool) : nat := length (filter (λ b, b = true) col).

(** [series[mask]] for a boolean mask on the same rows. *)
Definition boolean_index {A} (series : list A) (mask : list bool) : list A :=
  (filter (λ xb, xb.2 = true) (zip series mask)).*1.

(** [targ_df.query(...).pos.tolist()]: the expression names two columns
    when [-s] is given and three otherwise, and holds on a row when one
    of them is true. *)
Definition query_columns (strict : bool) (cas : string) : list string :=
  if strict then ["makes_" +:+ cas; "breaks_" +:+ cas]
  else ["var_near_" +:+ cas; "makes_" +:+ cas; "breaks_" +:+ cas].

Definition targ_vars (strict : bool) (cas : string)
    (targ_df : DataFrame ExcisionFinder.targ_row) : option (list Z) :=
  let names := query_columns strict cas in
  if present names (columns targ_df)
  then Some (ExcisionFinder.pos
               <$> rows (query (λ r, existsb (ExcisionFinder.flag r) names = true)
                               targ_df))
  else None.

(** The loop [for cas in cas_list[1:]]: each pass sets the column
    [targ_<cas>] of [final_targ] and appends its name to
    [finaltargcols]. *)
Fixpoint cas_loop (strict : bool) (cas_list : list string)
    (targ_df : DataFrame ExcisionFinder.targ_row) (enough_hets : list string)
    (het_vars_per_ind : string → list Z)
    (final_targ : list (string * list bool)) (finaltargcols : list string)
    : outcome (list (string * list bool) * list string) :=
  match cas_list with
  | [] => Returns (final_targ, finaltargcols)
  | cas :: rest =>
      match targ_vars strict cas targ_df with
      | None => RaisesUndefinedVariableError
      | Some targ_vars_cas =>
          let ind_targ_cas :=
            (λ ind, bool_decide ((list_to_set targ_vars_cas : gset Z)
                                   ∩ list_to_set (het_vars_per_ind ind) ≠ ∅))
              <$> enough_hets in
          cas_loop strict rest targ_df enough_hets het_vars_per_ind
                   (set_column ("targ_" +:+ cas) ind_targ_cas final_targ)
                   (finaltargcols ++ ["targ_" +:+ cas])
      end
  end.

(** [final_targ]: the column [sample] and the boolean columns. *)
Record final_targ : Type := mk_final_targ {
  ft_sample : list string;
  ft_columns : list (string * list bool)
}.

(** [main] from the gene on: [coding_exons] is the list held by the
    [Gene] object, [samples] the sample names, [targ_df] and [gens] the
    tables read for the region of the gene, [cas_list_append] the Cas
    varieties asked for and [strict] the option [-s].  The sample names
    are the labels of columns of [gens] and so distinct, and the columns
    the expression of [query] names hold booleans.  [het_vars_per_ind] is
    filled for the individuals of [enough_hets] and read for them only,
    so that it is a function here.  What [main] writes at the end,
    [final_targ], is its result; an [exit()] after a note in a file is
    [SystemExit]. *)
Definition main (cas_list_append : list string) (strict : bool)
    (coding_exons : list (Z * Z)) (samples : list string)
    (targ_df : DataFrame ExcisionFinder.targ_row) (gens : list gens_row)
    : outcome final_targ :=
  let cas_list := "all" :: cas_list_append in
  let n_coding_exons := length coding_exons in
  let '(coding_positions, coding_starts) :=
    get_coding_positions_and_starts coding_exons in
  if bool_decide (n_coding_exons < 1)%nat then Raises SystemExit
  else if is_empty targ_df then Raises SystemExit
  else
    match applymap_het samples gens with
    | Raise e => Raises e
    | Return het_gens =>
        let enough_hets :=
          (filter (λ c, (1 ≤ column_sum c.2)%nat) het_gens).*1 in
        if bool_decide (length enough_hets < 1)%nat then Raises SystemExit
        else
          let het_vars_per_ind := λ ind,
            filter (λ p, p ∈ coding_positions)
                   (boolean_index (gens_pos <$> gens) (get_column ind het_gens)) in
          match cas_loop strict (tail cas_list) targ_df enough_hets het_vars_per_ind
                         [] [] with
          | Returns (final_targ, finaltargcols) =>
              let selected := (λ c, (c, get_column c final_targ)) <$> finaltargcols in
              Returns (mk_final_targ enough_hets
                         (set_column "targ_all"
                            (ExcisionFinder.any_axis1 (length enough_hets) selected)
                            final_targ))
          | Raises e => Raises e
          | RaisesUndefinedVariableError => RaisesUndefinedVariableError
          end
    end.

End SingleCut.

(** * Conditions named in the statements *)

(** The table holds the three columns of a Cas variety. *)
Definition cas_columns_present (cas : string)
    (chrdf : DataFrame ExcisionFinder.targ_row) : bool :=
  let '(make_cols, break_cols, near_cols) := ExcisionFinder.relevant_columns cas in
  present make_cols (columns chrdf) && present break_cols (columns chrdf)
  && present near_cols (columns chrdf).

(** The value a column set takes on a table: some row, some column. *)
Definition any_flag (targ_data : DataFrame ExcisionFinder.targ_row)
    (cols : list string) : bool :=
  existsb (λ r, existsb (ExcisionFinder.flag r) cols) (rows targ_data).

(** The table holds a row for this allele at this position. *)
Definition has_row (position : Z) (allele : string)
    (chrdf : DataFrame ExcisionFinder.targ_row) : bool :=
  existsb (λ r, bool_decide (ExcisionFinder.pos r = position
                             ∧ ExcisionFinder.alt r = allele))
          (rows chrdf).

(** Neither allele of the sample's genotype at the position has a row; a
    position without a readable genotype counts as unresolved too. *)
Definition unresolved (position : Z) (sample : string)
    (chrdf : DataFrame ExcisionFinder.targ_row)
    (roigens_hdf : DataFrame ExcisionFinder.gen_row) : bool :=
  match ExcisionFinder.genotype_at position sample roigens_hdf with
  | Return genotype =>
      match ExcisionFinder.split_genotype genotype with
      | Return (hap1_allele, hap2_allele) =>
          negb (has_row position hap1_allele chrdf)
          && negb (has_row position hap2_allele chrdf)
      | Raise _ => true
      end
  | Raise _ => true
  end.

(** A combination passes the three tests of the loop of [main]. *)
Definition kept (coding_positions : gset Z) (coding_exon_starts : list Z)
    (p : Z * Z) : Prop :=
  ExcisionFinder.keep_combo coding_positions coding_exon_starts p.1 p.2 = true.

#[global] Instance kept_dec coding_positions coding_exon_starts p :
  Decision (kept coding_positions coding_exon_starts p).
Proof. unfold kept. apply _. Defined.

(** The position is one of the heterozygous positions [main] recorded for
    the individual in [het_vars_per_ind]. *)
Definition het_in (het_vars_per_ind : list (string * list Z)) (sample : string)
    (p : Z) : Prop :=
  ∃ hets, (sample, hets) ∈ het_vars_per_ind ∧ p ∈ hets.

(** The resolver's answer for a row of [targ_haps]. *)
Definition resolve (cas : string) (chrdf : DataFrame ExcisionFinder.targ_row)
    (gens : DataFrame ExcisionFinder.gen_row) (r : ExcisionFinder.haps_row)
    : py (bool * bool) :=
  ExcisionFinder.haplotype_targetability
    (ExcisionFinder.pos_of r) (ExcisionFinder.sample_of r) chrdf gens cas.

(** The sample has a row at the position whose column [col] is true. *)
Definition on_hap (df : DataFrame ExcisionFinder.haps_row) (col sample : string)
    (p : Z) : Prop :=
  ∃ r, r ∈ rows df ∧ ExcisionFinder.hap_flag r col = true
       ∧ ExcisionFinder.sample_of r = sample ∧ ExcisionFinder.pos_of r = p.

(** The count of coding positions as the documentation gives it, the sum
    of [end - start + 1] over the exons, and the same sum with the
    contribution of an exon bounded below by zero. *)
Definition sum_exon_lengths (exons : list (Z * Z)) : Z :=
  foldr (λ x acc, (x.2 - x.1 + 1) + acc) 0 exons.

Definition sum_range_lengths (exons : list (Z * Z)) : Z :=
  foldr (λ x acc, Z.max 0 (x.2 - x.1 + 1) + acc) 0 exons.

(** The number of occurrences of a character in a string, and of the
    characters of a list. *)
Fixpoint count_char (c : ascii) (s : string) : nat :=
  match s with
  | EmptyString => 0
  | String c' rest => (if bool_decide (c' = c) then 1 else 0) + count_char c rest
  end.

Fixpoint count_chars (cs : list ascii) (s : string) : nat :=
  match s with
  | EmptyString => 0
  | String c' rest => (if bool_decide (c' ∈ cs) then 1 else 0) + count_chars cs rest
  end.

(** Every genotype of the table splits in two at a bar. *)
Definition genotypes_well_formed (gens : DataFrame ExcisionFinder.gen_row) : bool :=
  forallb (λ r, forallb (λ ind,
                   match ExcisionFinder.het (ExcisionFinder.genotype_of r ind) with
                   | Return _ => true
                   | Raise _ => false
                   end)
                (columns gens))
          (rows gens).

(** The sample is heterozygous on a row of the genotype table at the
    position. *)
Definition het_at (gens : DataFrame ExcisionFinder.gen_row) (sample : string)
    (p : Z) : Prop :=
  ∃ r, r ∈ rows gens ∧ ExcisionFinder.index r = p
       ∧ ExcisionFinder.het (ExcisionFinder.genotype_of r sample) = Return true.

(** Whether a genotype is read as heterozygous, and the number of rows
    of the genotype table on which a sample is. *)
Definition het_genotype (genotype : string) : bool :=
  match ExcisionFinder.het genotype with
  | Return true => true
  | _ => false
  end.

Definition het_count (gens : DataFrame ExcisionFinder.gen_row) (ind : string) : nat :=
  length (filter (λ r, het_genotype (ExcisionFinder.genotype_of r ind) = true)
                 (rows gens)).

(** The positions at which a sample is heterozygous, row after row, the
    samples heterozygous on two rows at least, and the sorted positions of
    the genotype table. *)
Definition het_positions (gens : DataFrame ExcisionFinder.gen_row) (ind : string)
    : list Z :=
  ExcisionFinder.index
    <$> filter (λ r, het_genotype (ExcisionFinder.genotype_of r ind) = true) (rows gens).

Definition enough_samples (gens : DataFrame ExcisionFinder.gen_row) : list string :=
  filter (λ ind, (2 ≤ het_count gens ind)%nat) (columns gens).

Definition table_variants (gens : DataFrame ExcisionFinder.gen_row) : list Z :=
  sorted (ExcisionFinder.index <$> rows gens).

(** The row of [hetroigens] made from a row of the genotype table. *)
Definition het_row_of (gens : DataFrame ExcisionFinder.gen_row)
    (r : ExcisionFinder.gen_row) (hr : ExcisionFinder.het_row) : Prop :=
  ExcisionFinder.het_index hr = ExcisionFinder.index r
  ∧ ∀ ind, ind ∈ columns gens →
           ExcisionFinder.het (ExcisionFinder.genotype_of r ind)
           = Return (ExcisionFinder.is_het hr ind).

(** ** The tables of the single-cut script *)

(** Whether [het] of the single-cut script reads a genotype as
    heterozygous, and whether a sample is heterozygous on some row. *)
Definition het_cell (genotype : string) : bool :=
  match SingleCut.het genotype with
  | Return true => true
  | _ => false
  end.

Definition has_het (gens : list SingleCut.gens_row) (ind : string) : bool :=
  existsb (λ r, het_cell (SingleCut.gens_genotype r ind)) gens.

(** Every genotype under a sample splits in two at a slash or a bar. *)
Definition cells_well_formed (samples : list string)
    (gens : list SingleCut.gens_row) : bool :=
  forallb (λ ind, forallb (λ r,
                     match SingleCut.het (SingleCut.gens_genotype r ind) with
                     | Return _ => true
                     | Raise _ => false
                     end)
                  gens)
          samples.

(** The table holds the columns the expression of [query] names, for
    every Cas variety of the list. *)
Definition queryable (strict : bool) (cas_list : list string)
    (targ_df : DataFrame ExcisionFinder.targ_row) : bool :=
  forallb (λ cas, present (SingleCut.query_columns strict cas) (columns targ_df))
          cas_list.

(** The position lies in an exon of the list, ends included. *)
Definition in_coding_exon (coding_exons : list (Z * Z)) (p : Z) : Prop :=
  ∃ exon, exon ∈ coding_exons ∧ exon.1 ≤ p ≤ exon.2.

(** The row of the targetability table counts for the Cas variety: the
    variant makes or breaks a site or, without [-s], is near one. *)
Definition targetable_row (strict : bool) (cas : string)
    (t : ExcisionFinder.targ_row) : Prop :=
  ExcisionFinder.flag t ("makes_" +:+ cas) = true
  ∨ ExcisionFinder.flag t ("breaks_" +:+ cas) = true
  ∨ (strict = false ∧ ExcisionFinder.flag t ("var_near_" +:+ cas) = true).

(** A site for a single cut: a row of the genotype table on which the
    sample is heterozygous, at a position in a coding exon, and a row of
    the targetability table at that position that counts for the Cas
    variety. *)
Definition single_cut_site (strict : bool) (cas : string)
    (coding_exons : list (Z * Z)) (targ_df : DataFrame ExcisionFinder.targ_row)
    (gens : list SingleCut.gens_row) (sample : string) : Prop :=
  ∃ r t, r ∈ gens
         ∧ SingleCut.het (SingleCut.gens_genotype r sample) = Return true
         ∧ in_coding_exon coding_exons (SingleCut.gens_pos r)
         ∧ t ∈ rows targ_df
         ∧ ExcisionFinder.pos t = SingleCut.gens_pos r
         ∧ targetable_row strict cas t.

(** The sample is on a row of [final_targ] on which the column is true. *)
Definition reported (out : SingleCut.final_targ) (column sample : string) : Prop :=
  (sample, true) ∈ zip (SingleCut.ft_sample out)
                       (SingleCut.get_column column (SingleCut.ft_columns out)).

(** * Small tables *)

(** The boolean columns of a row, given by the labels that are true. *)
Definition flags_of (labels : list string) : string → bool :=
  λ c, bool_decide (c ∈ labels).

Definition kkh_columns : list string :=
  ["makes_SaCas9_KKH"; "breaks_SaCas9_KKH"; "var_near_SaCas9_KKH"].

(** Two rows at position 30, for the alternate alleles G and T. *)
Definition chrdf_two_alts : DataFrame ExcisionFinder.targ_row :=
  mkDataFrame kkh_columns
    [ExcisionFinder.mk_targ_row 30 "A" "G" (flags_of ["makes_SaCas9_KKH"]);
     ExcisionFinder.mk_targ_row 30 "A" "T" (flags_of ["breaks_SaCas9_KKH"])].

(** One row at position 10, for the alternate allele G. *)
Definition chrdf_one_alt : DataFrame ExcisionFinder.targ_row :=
  mkDataFrame kkh_columns
    [ExcisionFinder.mk_targ_row 10 "A" "G"
       (flags_of ["makes_SaCas9_KKH"; "breaks_SaCas9_KKH"])].

(** A sample that carries C and T at 10, and G and T at 30. *)
Definition gens_example : DataFrame ExcisionFinder.gen_row :=
  mkDataFrame ["s1"]
    [ExcisionFinder.mk_gen_row 10 (λ _, "C|T");
     ExcisionFinder.mk_gen_row 30 (λ _, "G|T")].

(** One individual, heterozygous at 10, 20 and 30, with the alternate
    allele on haplotype 2 at 10 and 30 and on haplotype 1 at 20. *)
Definition chrdf_pairs : DataFrame ExcisionFinder.targ_row :=
  mkDataFrame kkh_columns
    [ExcisionFinder.mk_targ_row 10 "A" "G" (flags_of ["makes_SaCas9_KKH"]);
     ExcisionFinder.mk_targ_row 20 "A" "G" (flags_of ["breaks_SaCas9_KKH"]);
     ExcisionFinder.mk_targ_row 30 "A" "G" (flags_of [])].

Definition gens_pairs : DataFrame ExcisionFinder.gen_row :=
  mkDataFrame ["s1"]
    [ExcisionFinder.mk_gen_row 10 (λ _, "A|G");
     ExcisionFinder.mk_gen_row 20 (λ _, "G|A");
     ExcisionFinder.mk_gen_row 30 (λ _, "A|G")].

(** The genotypes of [gens_pairs] and of [gens_example] with the two
    haplotypes exchanged. *)
Definition gens_pairs_swapped : DataFrame ExcisionFinder.gen_row :=
  mkDataFrame ["s1"]
    [ExcisionFinder.mk_gen_row 10 (λ _, "G|A");
     ExcisionFinder.mk_gen_row 20 (λ _, "A|G");
     ExcisionFinder.mk_gen_row 30 (λ _, "G|A")].


(** A genotype table with an unphased genotype on its second row. *)
Definition gens_unphased : DataFrame ExcisionFinder.gen_row :=
  mkDataFrame ["s1"]
    [ExcisionFinder.mk_gen_row 10 (λ _, "A|G");
     ExcisionFinder.mk_gen_row 20 (λ _, "G/A")].

(** The tables of a single-cut run: one sample, heterozygous at 20 and
    homozygous at 40, an exon from 15 to 25, and a variant at 20 that is
    near a site of SaCas9_KKH without making or breaking one. *)
Definition gens_single : list SingleCut.gens_row :=
  [SingleCut.mk_gens_row 20 (λ _, "0|1"); SingleCut.mk_gens_row 40 (λ _, "1/1")].

Definition targ_df_single : DataFrame ExcisionFinder.targ_row :=
  mkDataFrame kkh_columns
    [ExcisionFinder.mk_targ_row 20 "A" "G" (flags_of ["var_near_SaCas9_KKH"])].

(** * Sanity checks on the examples of the documentation *)

Example next_exon_80 : ExcisionFinder.next_exon 80 [100; 500; 900] = PyInt 100.
Proof. reflexivity. Qed.

Example targ_pair_80_90 :
  ExcisionFinder.targ_pair 80 90 (list_to_set (seqZ 100 51)) [100; 500; 900] = false.
Proof. vm_compute. reflexivity. Qed.

Example targ_pair_80_500 :
  ExcisionFinder.targ_pair 80 500 (list_to_set (seqZ 100 51)) [100; 500; 900] = true.
Proof. vm_compute. reflexivity. Qed.

Example combos_small :
  ExcisionFinder.targ_pairs_tuple [80; 90; 120] (list_to_set (seqZ 100 51)) [100]
  = [(80, 120); (90, 120); (120, 80); (120, 90)].
Proof. vm_compute. reflexivity. Qed.

(** * The pair classifier *)

Section classifier.
Implicit Types (a b low high : Z) (starts : list Z).

Lemma sorted2_min_max a b : sorted2 a b = (Z.min a b, Z.max a b).
Proof.
  unfold sorted2. destruct (Z.ltb_spec b a); f_equal; lia.
Qed.

Lemma sorted2_comm a b : sorted2 a b = sorted2 b a.
Proof. rewrite !sorted2_min_max. f_equal; lia. Qed.

(** [min_of] is a lower bound that is reached. *)
Lemma min_of_le x xs : min_of x xs ≤ x.
Proof.
  unfold min_of. revert x. induction xs as [|y ys IH]; intros x; simpl; [lia|].
  specialize (IH (Z.min x y)). lia.
Qed.

Lemma min_of_lower_bound x xs y : y ∈ x :: xs → min_of x xs ≤ y.
Proof.
  unfold min_of. revert x. induction xs as [|z zs IH]; intros x Hy; simpl.
  - apply list_elem_of_singleton in Hy. lia.
  - apply elem_of_cons in Hy as [->|Hy].
    + pose proof (min_of_le (Z.min x z) zs) as Hle. unfold min_of in Hle. lia.
    + apply elem_of_cons in Hy as [->|Hy].
      * pose proof (min_of_le (Z.min x z) zs) as Hle. unfold min_of in Hle. lia.
      * apply IH. by apply elem_of_cons; right.
Qed.

Lemma min_of_elem x xs : min_of x xs ∈ x :: xs.
Proof.
  unfold min_of. revert x. induction xs as [|z zs IH]; intros x; simpl.
  - by apply list_elem_of_singleton.
  - specialize (IH (Z.min x z)).
    apply elem_of_cons in IH as [Heq|Hin].
    + rewrite Heq. destruct (Z.min_spec x z) as [[_ ->]|[_ ->]].
      * by apply elem_of_cons; left.
      * apply elem_of_cons; right. by apply elem_of_cons; left.
    + apply elem_of_cons; right. by apply elem_of_cons; right.
Qed.

(** What [next_exon] returns: [False] when no start lies past the
    variant, and otherwise the least start that does. *)
Lemma next_exon_none low starts :
  (∀ s, s ∈ starts → s ≤ low) →
  ExcisionFinder.next_exon low starts = PyBool false.
Proof.
  intros Hall. unfold ExcisionFinder.next_exon.
  destruct (filter _ starts) as [|x xs] eqn:Hf; [done|].
  assert (x ∈ filter (λ x, low < x) starts) as Hx by (rewrite Hf; left).
  apply list_elem_of_filter in Hx as [Hlt Hin]. apply Hall in Hin. lia.
Qed.

Lemma next_exon_some low starts s :
  s ∈ starts → low < s →
  ∃ m, ExcisionFinder.next_exon low starts = PyInt m
       ∧ m ∈ starts ∧ low < m
       ∧ ∀ s', s' ∈ starts → low < s' → m ≤ s'.
Proof.
  intros Hin Hlt. unfold ExcisionFinder.next_exon.
  destruct (filter _ starts) as [|x xs] eqn:Hf.
  - assert (s ∈ filter (λ x, low < x) starts) as Hs
      by (apply list_elem_of_filter; done).
    rewrite Hf in Hs. by apply elem_of_nil in Hs.
  - exists (min_of x xs). split; [done|].
    pose proof (min_of_elem x xs) as Hm. rewrite <- Hf in Hm.
    apply list_elem_of_filter in Hm as [Hm1 Hm2].
    repeat split; [done..|].
    intros s' Hs' Hlt'. apply min_of_lower_bound. rewrite <- Hf.
    by apply list_elem_of_filter.
Qed.

Lemma next_exon_same low starts :
  SingleCut.next_exon low starts = ExcisionFinder.next_exon low starts.
Proof. reflexivity. Qed.

(** The classifier, with the comparison against [next_exon]'s value
    written out: [False] compares as [0]. *)
Lemma targ_pair_unfold a b (coding_positions : gset Z) starts :
  ExcisionFinder.targ_pair a b coding_positions starts =
  bool_decide (Z.min a b ∈ coding_positions)
  || bool_decide (Z.max a b ∈ coding_positions)
  || (py_int (ExcisionFinder.next_exon (Z.min a b) starts) <=? Z.max a b).
Proof.
  unfold ExcisionFinder.targ_pair. rewrite sorted2_min_max.
  by destruct (_ || _).
Qed.

(** Past the last coding exon start, two non-coding positions are
    classified by the sign of the higher one alone. *)
Lemma targ_pair_no_next_exon a b (coding_positions : gset Z) starts :
  Z.min a b ∉ coding_positions → Z.max a b ∉ coding_positions →
  (∀ s, s ∈ starts → s ≤ Z.min a b) →
  ExcisionFinder.targ_pair a b coding_positions starts = (0 <=? Z.max a b).
Proof.
  intros Hlow Hhigh Hall. rewrite targ_pair_unfold, next_exon_none by done.
  rewrite !bool_decide_eq_false_2 by done. done.
Qed.

(** Before a coding exon start, two non-coding positions are targetable
    exactly when the higher one reaches the next such start. *)
Lemma targ_pair_next_exon a b (coding_positions : gset Z) starts s :
  Z.min a b ∉ coding_positions → Z.max a b ∉ coding_positions →
  s ∈ starts → Z.min a b < s →
  ∃ m, m ∈ starts ∧ Z.min a b < m
       ∧ (∀ s', s' ∈ starts → Z.min a b < s' → m ≤ s')
       ∧ (ExcisionFinder.targ_pair a b coding_positions starts = true ↔ m ≤ Z.max a b).
Proof.
  intros Hlow Hhigh Hin Hlt.
  destruct (next_exon_some _ _ _ Hin Hlt) as (m & Hnext & Hm & Hltm & Hleast).
  exists m. repeat split; [done..| |].
  - rewrite targ_pair_unfold, Hnext, !bool_decide_eq_false_2 by done.
    simpl. by intros ?%Z.leb_le.
  - intros Hle. rewrite targ_pair_unfold, Hnext, !bool_decide_eq_false_2 by done.
    simpl. by apply Z.leb_le.
Qed.

Lemma targ_pair_coding a b (coding_positions : gset Z) starts :
  Z.min a b ∈ coding_positions ∨ Z.max a b ∈ coding_positions →
  ExcisionFinder.targ_pair a b coding_positions starts = true.
Proof.
  intros H. rewrite targ_pair_unfold.
  destruct H as [H|H]; rewrite (bool_decide_eq_true_2 _ H); simpl; [done|].
  by rewrite orb_true_r.
Qed.

End classifier.

(** C1 (the code departs from the claim): both positions lie past the only
    coding exon [100, 150], neither is coding and no coding exon start is
    greater than the lower one, yet the pair is classified targetable:
    [next_exon] returns [False], and [2000 >= False] holds. *)
Theorem targ_pair_past_last_exon :
  let coding_positions : gset Z := list_to_set (range 100 151) in
  (1000 ∉ coding_positions) ∧ (2000 ∉ coding_positions)
  ∧ filter (λ s, 1000 < s) [100] = []
  ∧ ExcisionFinder.next_exon 1000 [100] = PyBool false
  ∧ ExcisionFinder.targ_pair 1000 2000 coding_positions [100] = true.
Proof.
  cbv zeta. split_and!.
  - apply (bool_decide_eq_false_1 _). vm_compute. reflexivity.
  - apply (bool_decide_eq_false_1 _). vm_compute. reflexivity.
  - reflexivity.
  - reflexivity.
  - vm_compute. reflexivity.
Qed.

(** C10: the classifier does not depend on the order of its two
    positions, in either script. *)
Theorem targ_pair_symmetric :
  (∀ (a b : Z) (coding_positions : gset Z) (coding_exon_starts : list Z),
     ExcisionFinder.targ_pair a b coding_positions coding_exon_starts
     = ExcisionFinder.targ_pair b a coding_positions coding_exon_starts)
  ∧ (∀ (a b : Z) (coding_positions coding_exon_starts : list Z),
       SingleCut.targ_pair a b coding_positions coding_exon_starts
       = SingleCut.targ_pair b a coding_positions coding_exon_starts).
Proof.
  split; intros a b cp starts.
  - unfold ExcisionFinder.targ_pair. by rewrite (sorted2_comm a b).
  - unfold SingleCut.targ_pair. by rewrite (sorted2_comm a b).
Qed.

(** * The variant combination generator *)

Section generator.
Variables (coding_positions : gset Z) (coding_exon_starts : list Z).

Local Abbreviation keep := (kept coding_positions coding_exon_starts).

(** The two lists grow together, so zipping them loses nothing. *)
Lemma combo_fold_zip (combos : list (Z * Z)) (acc : list Z * list Z) :
  length acc.1 = length acc.2 →
  let r := foldl (ExcisionFinder.combo_step coding_positions coding_exon_starts)
                 acc combos in
  length r.1 = length r.2
  ∧ zip r.1 r.2 = zip acc.1 acc.2 ++ filter keep combos.
Proof.
  revert acc. induction combos as [|p combos IH]; intros acc Hlen; simpl.
  - by rewrite app_nil_r.
  - set (acc' := ExcisionFinder.combo_step coding_positions coding_exon_starts acc p).
    rewrite filter_cons.
    destruct (decide (keep p)) as [Hk|Hk]; unfold kept in Hk.
    + assert (acc' = (acc.1 ++ [p.1], acc.2 ++ [p.2])) as ->
        by (unfold acc', ExcisionFinder.combo_step; by rewrite Hk).
      destruct (IH (acc.1 ++ [p.1], acc.2 ++ [p.2])) as [IH1 IH2].
      { simpl. rewrite !length_app. simpl. lia. }
      split; [done|]. rewrite IH2. simpl.
      rewrite zip_with_app by done. simpl.
      rewrite <- app_assoc. by destruct p.
    + assert (acc' = acc) as ->
        by (unfold acc', ExcisionFinder.combo_step;
            by destruct (ExcisionFinder.keep_combo _ _ _ _)).
      by apply IH.
Qed.

Lemma targ_pairs_tuple_filter (variants : list Z) :
  ExcisionFinder.targ_pairs_tuple variants coding_positions coding_exon_starts
  = filter keep (cprod variants variants).
Proof.
  unfold ExcisionFinder.targ_pairs_tuple, ExcisionFinder.variant_combos.
  by destruct (combo_fold_zip (cprod variants variants) ([], []) eq_refl) as [_ ->].
Qed.

Lemma elem_of_targ_pairs_tuple (variants : list Z) (a b : Z) :
  (a, b) ∈ ExcisionFinder.targ_pairs_tuple variants coding_positions coding_exon_starts
  ↔ a ∈ variants ∧ b ∈ variants ∧ a ≠ b ∧ Z.abs (a - b) ≤ 10000
    ∧ ExcisionFinder.targ_pair a b coding_positions coding_exon_starts = true.
Proof.
  rewrite targ_pairs_tuple_filter, list_elem_of_filter, list_elem_of_cprod.
  unfold kept, ExcisionFinder.keep_combo. simpl.
  rewrite !andb_true_iff, bool_decide_eq_true, Z.leb_le.
  split.
  - intros [[[Hne Hwin] Ht] [Ha Hb]]. repeat split; [done..|lia|done].
  - intros (Ha & Hb & Hne & Hwin & Ht). repeat split; [done|lia|done..].
Qed.

(** Every eligible variant is a member of a pair, and conversely. *)
Lemma elem_of_eligible_variants (variants : list Z) (p : Z) :
  p ∈ ExcisionFinder.eligible_variants variants coding_positions coding_exon_starts
  ↔ ∃ q, (p, q) ∈ ExcisionFinder.targ_pairs_tuple variants coding_positions
                                                   coding_exon_starts
         ∨ (q, p) ∈ ExcisionFinder.targ_pairs_tuple variants coding_positions
                                                     coding_exon_starts.
Proof.
  unfold ExcisionFinder.eligible_variants, ExcisionFinder.targ_pairs_tuple,
    ExcisionFinder.variant_combos.
  destruct (combo_fold_zip (cprod variants variants) ([], []) eq_refl) as [Hlen _].
  revert Hlen. generalize (foldl (ExcisionFinder.combo_step coding_positions
    coding_exon_starts) ([], []) (cprod variants variants)).
  intros [v1 v2]. simpl. intros Hlen.
  rewrite elem_of_list_to_set, elem_of_app. split.
  - intros [Hin|Hin].
    + apply list_elem_of_lookup in Hin as [i Hi].
      destruct (lookup_lt_is_Some_2 v2 i) as [q Hq].
      { rewrite <- Hlen. by eapply lookup_lt_Some. }
      exists q. left. apply list_elem_of_lookup. exists i.
      by rewrite lookup_zip_with, Hi, Hq.
    + apply list_elem_of_lookup in Hin as [i Hi].
      destruct (lookup_lt_is_Some_2 v1 i) as [q Hq].
      { rewrite Hlen. by eapply lookup_lt_Some. }
      exists q. right. apply list_elem_of_lookup. exists i.
      by rewrite lookup_zip_with, Hi, Hq.
  - intros [q [Hin|Hin]].
    + left. by eapply elem_of_zip_l.
    + right. by eapply elem_of_zip_r.
Qed.

End generator.

(** C8: every pair the generator yields has two distinct positions, at
    most 10,000 bp apart, that the classifier accepts; so no pair holds two
    positions 15,000 bp apart. *)
Theorem generated_pairs_in_window (variants : list Z) (coding_positions : gset Z)
    (coding_exon_starts : list Z) (a b : Z) :
  (a, b) ∈ ExcisionFinder.targ_pairs_tuple variants coding_positions coding_exon_starts →
  a ≠ b ∧ Z.abs (a - b) ≤ 10000
  ∧ ExcisionFinder.targ_pair a b coding_positions coding_exon_starts = true
  ∧ Z.abs (a - b) ≠ 15000.
Proof.
  intros (_ & _ & Hne & Hwin & Ht)%elem_of_targ_pairs_tuple.
  repeat split; [done..|lia].
Qed.

Lemma generated_pairs_in_window_witness :
  80 ≠ 120 ∧ Z.abs (80 - 120) ≤ 10000
  ∧ ExcisionFinder.targ_pair 80 120 (list_to_set (seqZ 100 51)) [100] = true
  ∧ Z.abs (80 - 120) ≠ 15000.
Proof.
  apply (generated_pairs_in_window [80; 90; 120] (list_to_set (seqZ 100 51)) [100]).
  rewrite combos_small. apply elem_of_cons. left. reflexivity.
Defined.

(** * The haplotype resolver *)

Section resolver.
Import ExcisionFinder.
Implicit Types (chrdf targ_data : DataFrame targ_row) (gens : DataFrame gen_row).
Implicit Types (cols make_cols break_cols near_cols : list string).

Lemma item_cases {A} (series : list A) :
  (∃ x, series = [x] ∧ item series = Return x) ∨ item series = Raise ValueError.
Proof. destruct series as [|x [|y l]]; simpl; eauto. Qed.

Lemma item_many {A} (series : list A) :
  (2 ≤ length series)%nat → item series = Raise ValueError.
Proof. destruct series as [|x [|y l]]; simpl; [lia..|done]. Qed.

Lemma genotype_at_cases position sample gens :
  sample ∈ columns gens →
  (∃ genotype, genotype_at position sample gens = Return genotype)
  ∨ genotype_at position sample gens = Raise ValueError.
Proof.
  intros Hcol. unfold genotype_at. simpl.
  rewrite bool_decide_eq_true_2 by done.
  destruct (item_cases ((λ r, genotype_of r sample) <$>
    filter (λ r, index r = position) (rows gens))) as [(g & _ & ->)| ->]; eauto.
Qed.

Lemma split_genotype_cases genotype :
  (∃ hap1 hap2, split_genotype genotype = Return (hap1, hap2))
  ∨ split_genotype genotype = Raise ValueError.
Proof.
  unfold split_genotype.
  destruct (split "|" genotype) as [|h1 [|h2 [|h3 l]]]; eauto.
Qed.

Lemma any_any_present targ_data cols :
  present cols (columns targ_data) = true →
  any_any targ_data cols = Return (any_flag targ_data cols).
Proof. intros H. unfold any_any. by rewrite H. Qed.

(** The single-row mapping, on any selection of rows: the alt-carrying
    haplotype is targetable by a make or a near column, the
    reference-carrying one by a break or a near column. *)
Lemma targetable_haplotypes_present targ_data make_cols break_cols near_cols :
  present make_cols (columns targ_data) = true →
  present break_cols (columns targ_data) = true →
  present near_cols (columns targ_data) = true →
  targetable_haplotypes targ_data make_cols break_cols near_cols
  = Return (any_flag targ_data make_cols || any_flag targ_data near_cols,
            any_flag targ_data break_cols || any_flag targ_data near_cols).
Proof.
  intros Hm Hb Hn. unfold targetable_haplotypes.
  rewrite !any_any_present by done. simpl.
  by destruct (any_flag targ_data make_cols), (any_flag targ_data break_cols),
    (any_flag targ_data near_cols).
Qed.

Lemma any_flag_no_row cols' cols : any_flag (mkDataFrame cols' []) cols = false.
Proof. reflexivity. Qed.

(** The combination of two selections is the componentwise disjunction
    of their mappings. *)
Lemma targ_haps_both_alt_or (rel_row_1 rel_row_2 : DataFrame targ_row)
    make_cols break_cols near_cols t1a t2a t1b t2b :
  targetable_haplotypes rel_row_1 make_cols break_cols near_cols = Return (t1a, t2a) →
  targetable_haplotypes rel_row_2 make_cols break_cols near_cols = Return (t1b, t2b) →
  targ_haps_both_alt rel_row_1 rel_row_2 make_cols break_cols near_cols
  = Return (t1a || t1b, t2a || t2b).
Proof.
  intros H1 H2. unfold targ_haps_both_alt. rewrite H1. simpl.
  destruct t1a, t2a; simpl; [done|by rewrite H2..].
Qed.

Lemma cas_columns_present_inv cas chrdf :
  cas_columns_present cas chrdf = true →
  ∃ make_cols break_cols near_cols,
    relevant_columns cas = (make_cols, break_cols, near_cols)
    ∧ present make_cols (columns chrdf) = true
    ∧ present break_cols (columns chrdf) = true
    ∧ present near_cols (columns chrdf) = true.
Proof.
  unfold cas_columns_present.
  destruct (relevant_columns cas) as [[mk bk] nr].
  intros [[Hm Hb]%andb_true_iff Hn]%andb_true_iff. by exists mk, bk, nr.
Qed.

Lemma query_no_row position allele chrdf :
  has_row position allele chrdf = false →
  rows (query (λ r, pos r = position ∧ alt r = allele) chrdf) = [].
Proof.
  unfold has_row, query. simpl. induction (rows chrdf) as [|r l IH]; [done|].
  simpl. intros [Hr Hl]%orb_false_iff. apply bool_decide_eq_false in Hr.
  rewrite filter_cons, decide_False by done. by apply IH.
Qed.

Lemma has_row_true position allele chrdf :
  has_row position allele chrdf = true
  ↔ ∃ r, r ∈ rows chrdf ∧ pos r = position ∧ alt r = allele.
Proof.
  unfold has_row. rewrite existsb_exists. split.
  - intros (r & Hin%list_elem_of_In & Hr%bool_decide_eq_true). by exists r.
  - intros (r & Hin & Hr). exists r. split; [by apply list_elem_of_In|].
    by apply bool_decide_eq_true.
Qed.

(** Two different alleles that each have a row make two rows at the
    position. *)
Lemma two_rows_at_position position hap1 hap2 chrdf :
  hap1 ≠ hap2 →
  has_row position hap1 chrdf = true → has_row position hap2 chrdf = true →
  (2 ≤ length (filter (λ r, pos r = position) (rows chrdf)))%nat.
Proof.
  intros Hne (r1 & Hin1 & Hp1 & Ha1)%has_row_true (r2 & Hin2 & Hp2 & Ha2)%has_row_true.
  assert (r1 ∈ filter (λ r, pos r = position) (rows chrdf)) as H1
    by (by apply list_elem_of_filter).
  assert (r2 ∈ filter (λ r, pos r = position) (rows chrdf)) as H2
    by (by apply list_elem_of_filter).
  destruct (filter _ (rows chrdf)) as [|x [|y l]]; simpl; [|exfalso|lia].
  - by apply elem_of_nil in H1.
  - apply list_elem_of_singleton in H1, H2. congruence.
Qed.

(** At a position with two rows or more the reference allele cannot be
    read, and the resolver falls back on its default. *)
Lemma many_rows_default position sample chrdf gens cas :
  sample ∈ columns gens →
  (2 ≤ length (filter (λ r, pos r = position) (rows chrdf)))%nat →
  item (ref <$> rows (query (λ r, pos r = position) chrdf)) = Raise ValueError
  ∧ haplotype_targetability position sample chrdf gens cas = Return (false, false).
Proof.
  intros Hcol Hrows.
  assert (item (ref <$> rows (query (λ r, pos r = position) chrdf))
          = Raise ValueError) as Hitem.
  { apply item_many. by rewrite length_fmap. }
  split; [done|].
  unfold haplotype_targetability, haplotype_targetability_body, mbind, py_bind.
  destruct (genotype_at_cases position sample gens Hcol) as [[g ->]| ->]; [|done].
  destruct (split_genotype_cases g) as [(h1 & h2 & ->)| ->]; [|done].
  by rewrite Hitem.
Qed.

(** So a heterozygous sample whose two alleles each have a row is never
    resolved by the combination of the two rows. *)
Lemma alt_alt_rows_default position sample chrdf gens cas hap1 hap2 :
  sample ∈ columns gens →
  hap1 ≠ hap2 →
  has_row position hap1 chrdf = true → has_row position hap2 chrdf = true →
  haplotype_targetability position sample chrdf gens cas = Return (false, false).
Proof.
  intros Hcol Hne H1 H2.
  by apply many_rows_default, (two_rows_at_position _ hap1 hap2).
Qed.

(** When the position has a single row and neither allele is its
    reference, the resolver returns the combination of the two
    selections. *)
Lemma alt_alt_branch position sample chrdf gens cas genotype hap1 hap2 r
    make_cols break_cols near_cols t1a t2a t1b t2b :
  genotype_at position sample gens = Return genotype →
  split_genotype genotype = Return (hap1, hap2) →
  item (ref <$> rows (query (λ r, pos r = position) chrdf)) = Return r →
  hap1 ≠ r → hap2 ≠ r →
  relevant_columns cas = (make_cols, break_cols, near_cols) →
  targetable_haplotypes (query (λ r, pos r = position ∧ alt r = hap1) chrdf)
    make_cols break_cols near_cols = Return (t1a, t2a) →
  targetable_haplotypes (query (λ r, pos r = position ∧ alt r = hap2) chrdf)
    make_cols break_cols near_cols = Return (t1b, t2b) →
  haplotype_targetability position sample chrdf gens cas
  = Return (t1a || t1b, t2a || t2b).
Proof.
  intros Hg Hs Hr Hn1 Hn2 Hrel Ha Hb.
  unfold haplotype_targetability, haplotype_targetability_body, mbind, py_bind.
  rewrite Hg, Hs, Hr, Hrel.
  rewrite !bool_decide_eq_false_2, !bool_decide_eq_true_2 by done.
  by rewrite (targ_haps_both_alt_or _ _ _ _ _ _ _ _ _ Ha Hb).
Qed.

End resolver.

Section resolver_claims.
Import ExcisionFinder.

(** C7: on a single targetability row and a column set whose labels are
    columns of the table, the mapping returns a pair (alt-carrying
    haplotype, reference-carrying haplotype) such that a true make column
    makes the first true, a true break column makes the second true, a
    true near column makes both true, and nothing else does: the first is
    makes-or-near, the second breaks-or-near.  With no near column in the
    set (the strict reading) the pair is (makes, breaks). *)
Theorem single_row_mapping (cols : list string) (row : targ_row)
    (make_cols break_cols near_cols : list string) :
  present make_cols cols = true →
  present break_cols cols = true →
  present near_cols cols = true →
  ∃ targ_alt_hap targ_ref_hap : bool,
    targetable_haplotypes (mkDataFrame cols [row]) make_cols break_cols near_cols
    = Return (targ_alt_hap, targ_ref_hap)
    ∧ (existsb (flag row) make_cols = true → targ_alt_hap = true)
    ∧ (existsb (flag row) break_cols = true → targ_ref_hap = true)
    ∧ (existsb (flag row) near_cols = true →
       targ_alt_hap = true ∧ targ_ref_hap = true)
    ∧ targ_alt_hap = existsb (flag row) make_cols || existsb (flag row) near_cols
    ∧ targ_ref_hap = existsb (flag row) break_cols || existsb (flag row) near_cols.
Proof.
  intros Hm Hb Hn.
  rewrite (targetable_haplotypes_present (mkDataFrame cols [row])) by done.
  unfold any_flag. simpl. rewrite !orb_false_r.
  eexists _, _. split; [reflexivity|].
  split_and!; try done.
  - by intros ->.
  - by intros ->.
  - intros ->. by rewrite !orb_true_r.
Qed.

Lemma single_row_mapping_witness :
  ∃ targ_alt_hap targ_ref_hap : bool,
    targetable_haplotypes
      (mkDataFrame kkh_columns
         [mk_targ_row 10 "A" "G" (flags_of ["makes_SaCas9_KKH"; "breaks_SaCas9_KKH"])])
      ["makes_SaCas9_KKH"] ["breaks_SaCas9_KKH"] ["var_near_SaCas9_KKH"]
    = Return (targ_alt_hap, targ_ref_hap)
    ∧ (existsb (flags_of ["makes_SaCas9_KKH"; "breaks_SaCas9_KKH"])
               ["makes_SaCas9_KKH"] = true → targ_alt_hap = true)
    ∧ (existsb (flags_of ["makes_SaCas9_KKH"; "breaks_SaCas9_KKH"])
               ["breaks_SaCas9_KKH"] = true → targ_ref_hap = true)
    ∧ (existsb (flags_of ["makes_SaCas9_KKH"; "breaks_SaCas9_KKH"])
               ["var_near_SaCas9_KKH"] = true →
       targ_alt_hap = true ∧ targ_ref_hap = true)
    ∧ targ_alt_hap
      = existsb (flags_of ["makes_SaCas9_KKH"; "breaks_SaCas9_KKH"]) ["makes_SaCas9_KKH"]
        || existsb (flags_of ["makes_SaCas9_KKH"; "breaks_SaCas9_KKH"])
                   ["var_near_SaCas9_KKH"]
    ∧ targ_ref_hap
      = existsb (flags_of ["makes_SaCas9_KKH"; "breaks_SaCas9_KKH"]) ["breaks_SaCas9_KKH"]
        || existsb (flags_of ["makes_SaCas9_KKH"; "breaks_SaCas9_KKH"])
                   ["var_near_SaCas9_KKH"].
Proof.
  apply (single_row_mapping kkh_columns
           (mk_targ_row 10 "A" "G" (flags_of ["makes_SaCas9_KKH"; "breaks_SaCas9_KKH"]))
           ["makes_SaCas9_KKH"] ["breaks_SaCas9_KKH"] ["var_near_SaCas9_KKH"]);
    reflexivity.
Defined.

(** C2 (the code departs from the claim): a sample carries G on
    haplotype 1 and T on haplotype 2 at a position whose reference is A,
    and the table has a row for each of the two alleles.  The row of G
    maps to (true, false), the row of T to (false, true), and their
    combination by [targ_haps_both_alt] is (true, true); but the resolver
    returns (false, false): reading the reference allele of a position
    that has two rows raises [ValueError], which the resolver turns into
    its default before the combination is reached. *)
Theorem alt_alt_two_rows_not_combined :
  let row_hap1 := query (λ r, pos r = 30 ∧ alt r = "G") chrdf_two_alts in
  let row_hap2 := query (λ r, pos r = 30 ∧ alt r = "T") chrdf_two_alts in
  genotype_at 30 "s1" gens_example = Return "G|T"
  ∧ split_genotype "G|T" = Return ("G", "T")
  ∧ targetable_haplotypes row_hap1 ["makes_SaCas9_KKH"] ["breaks_SaCas9_KKH"]
                          ["var_near_SaCas9_KKH"] = Return (true, false)
  ∧ targetable_haplotypes row_hap2 ["makes_SaCas9_KKH"] ["breaks_SaCas9_KKH"]
                          ["var_near_SaCas9_KKH"] = Return (false, true)
  ∧ targ_haps_both_alt row_hap1 row_hap2 ["makes_SaCas9_KKH"] ["breaks_SaCas9_KKH"]
                       ["var_near_SaCas9_KKH"] = Return (true, true)
  ∧ item (ref <$> rows (query (λ r, pos r = 30) chrdf_two_alts)) = Raise ValueError
  ∧ haplotype_targetability 30 "s1" chrdf_two_alts gens_example "SaCas9_KKH"
    = Return (false, false).
Proof. cbv zeta. split_and!; vm_compute; reflexivity. Qed.

(** C5: at a position that has two or more rows in the targetability
    table, reading the reference allele of the position raises
    [ValueError], and the resolver returns (False, False) for every sample
    that is a column of the genotype table and every Cas variety, whatever
    the rows and the genotype hold. *)
Theorem multiallelic_not_targetable (position : Z) (sample : string)
    (chrdf : DataFrame targ_row) (gens : DataFrame gen_row) (cas : string) :
  sample ∈ columns gens →
  (2 ≤ length (filter (λ r, pos r = position) (rows chrdf)))%nat →
  item (ref <$> rows (query (λ r, pos r = position) chrdf)) = Raise ValueError
  ∧ haplotype_targetability position sample chrdf gens cas = Return (false, false).
Proof.
  intros Hcol Hrows.
  assert (item (ref <$> rows (query (λ r, pos r = position) chrdf))
          = Raise ValueError) as Hitem.
  { apply item_many. by rewrite length_fmap. }
  split; [done|].
  unfold haplotype_targetability, haplotype_targetability_body, mbind, py_bind.
  destruct (genotype_at_cases position sample gens Hcol) as [[g ->]| ->]; [|done].
  destruct (split_genotype_cases g) as [(h1 & h2 & ->)| ->]; [|done].
  by rewrite Hitem.
Qed.

Lemma multiallelic_not_targetable_witness :
  item (ref <$> rows (query (λ r, pos r = 30) chrdf_two_alts)) = Raise ValueError
  ∧ haplotype_targetability 30 "s1" chrdf_two_alts gens_example "SaCas9_KKH"
    = Return (false, false).
Proof.
  apply (multiallelic_not_targetable 30 "s1" chrdf_two_alts gens_example "SaCas9_KKH").
  - apply elem_of_cons. left. reflexivity.
  - vm_compute. lia.
Defined.

(** C4: when neither allele of the sample's genotype has a row in the
    targetability table at the position, the resolver returns
    (False, False): it neither raises nor exits. *)
Theorem unresolved_not_targetable (position : Z) (sample : string)
    (chrdf : DataFrame targ_row) (gens : DataFrame gen_row) (cas : string) :
  sample ∈ columns gens →
  cas_columns_present cas chrdf = true →
  unresolved position sample chrdf gens = true →
  haplotype_targetability position sample chrdf gens cas = Return (false, false).
Proof.
  intros Hcol Hcas Hun.
  apply cas_columns_present_inv in Hcas as (mk & bk & nr & Hrel & Hm & Hb & Hn).
  unfold haplotype_targetability, haplotype_targetability_body, mbind, py_bind.
  unfold unresolved in Hun.
  destruct (genotype_at_cases position sample gens Hcol) as [[g Hg]| ->]; [|done].
  rewrite Hg in Hun |- *. cbv beta iota in Hun |- *.
  destruct (split_genotype_cases g) as [(h1 & h2 & Hs)| ->]; [|done].
  rewrite Hs in Hun |- *. cbv beta iota in Hun |- *.
  apply andb_true_iff in Hun as [H1%negb_true_iff H2%negb_true_iff].
  destruct (item_cases (ref <$> rows (query (λ r, pos r = position) chrdf)))
    as [(r & _ & ->)| ->]; [|done].
  rewrite Hrel.
  assert (∀ allele, has_row position allele chrdf = false →
    targetable_haplotypes (query (λ r, pos r = position ∧ alt r = allele) chrdf)
      mk bk nr = Return (false, false)) as Hempty.
  { intros allele Hno. rewrite targetable_haplotypes_present by done.
    unfold any_flag. by rewrite (query_no_row _ _ _ Hno). }
  case_bool_decide as Hr2.
  { by rewrite (Hempty _ H1). }
  case_bool_decide as Hr1.
  { by rewrite (Hempty _ H2). }
  rewrite !bool_decide_eq_true_2 by done.
  by rewrite (targ_haps_both_alt_or _ _ _ _ _ _ _ _ _ (Hempty _ H1) (Hempty _ H2)).
Qed.

Lemma unresolved_not_targetable_witness :
  haplotype_targetability 10 "s1" chrdf_one_alt gens_example "SaCas9_KKH"
  = Return (false, false).
Proof.
  apply (unresolved_not_targetable 10 "s1" chrdf_one_alt gens_example "SaCas9_KKH").
  - apply elem_of_cons. left. reflexivity.
  - reflexivity.
  - vm_compute. reflexivity.
Defined.

End resolver_claims.

(** * The gene model *)

Section gene.
Import SingleCut.
Implicit Types (exons middle : list (Z * Z)) (first last : Z * Z).

(** Past the first exon, the loop copies the exons up to the last one,
    whose end it clips. *)
Lemma clip_exons_tail coding_start coding_end counter middle last :
  (1 ≤ counter)%nat →
  clip_exons coding_start coding_end (counter + length middle + 1) counter
             (middle ++ [last])
  = middle ++ [(last.1, Z.min coding_end last.2)].
Proof.
  revert counter. induction middle as [|x middle IH]; intros counter Hc; simpl.
  - rewrite bool_decide_eq_false_2 by lia.
    rewrite bool_decide_eq_true_2 by lia. done.
  - rewrite bool_decide_eq_false_2 by lia.
    rewrite bool_decide_eq_false_2 by lia.
    replace (counter + S (length middle) + 1)%nat
      with (S counter + length middle + 1)%nat by lia.
    rewrite IH by lia. by destruct x.
Qed.

(** With two exons or more, the first start and the last end are
    clipped and the exons in between are unchanged. *)
Lemma clip_exons_two_or_more coding_start coding_end first middle last :
  clip_exons coding_start coding_end (length (first :: middle ++ [last])) 0
             (first :: middle ++ [last])
  = (Z.max coding_start first.1, first.2)
    :: middle ++ [(last.1, Z.min coding_end last.2)].
Proof.
  simpl. f_equal. rewrite length_app. simpl.
  replace (S (length middle + 1)) with (1 + length middle + 1)%nat by lia.
  by apply clip_exons_tail.
Qed.

(** With a single exon, only the first branch of the loop is taken. *)
Lemma clip_exons_single coding_start coding_end first :
  clip_exons coding_start coding_end 1 0 [first]
  = [(Z.max coding_start first.1, first.2)].
Proof. reflexivity. Qed.

Lemma get_coding_positions_and_starts_fold exons (acc : list Z * list Z) :
  foldl (λ acc exon, (acc.1 ++ range exon.1 (exon.2 + 1), acc.2 ++ [exon.1]))
        acc exons
  = (acc.1 ++ (exons ≫= λ exon, range exon.1 (exon.2 + 1)), acc.2 ++ exons.*1).
Proof.
  revert acc. induction exons as [|x exons IH]; intros [p s]; simpl.
  - by rewrite !app_nil_r.
  - rewrite IH. simpl. by rewrite <- !app_assoc.
Qed.

Lemma get_coding_positions_and_starts_eq exons :
  get_coding_positions_and_starts exons
  = (exons ≫= λ exon, range exon.1 (exon.2 + 1), exons.*1).
Proof. unfold get_coding_positions_and_starts. by rewrite get_coding_positions_and_starts_fold. Qed.

Lemma elem_of_range a b z : z ∈ range a b ↔ a ≤ z < b.
Proof. unfold range. rewrite elem_of_seqZ. lia. Qed.

Lemma length_range a b : Z.of_nat (length (range a b)) = Z.max 0 (b - a).
Proof. unfold range. rewrite length_seqZ. lia. Qed.

(** On exons whose end is not below [start - 1], the two sums agree. *)
Lemma sum_range_lengths_well_formed exons :
  Forall (λ x, x.1 ≤ x.2 + 1) exons →
  sum_range_lengths exons = sum_exon_lengths exons.
Proof.
  induction 1 as [|x exons Hx _ IH]; simpl; [done|]. rewrite IH. lia.
Qed.

End gene.

(** C3 (the code departs from the claim): a transcript of one exon
    [50, 300] whose coding sequence is [100, 200].  The exon is the first
    one, so its start is clipped to 100; the test for the last exon is the
    [elif] of that branch and is not reached, so its end stays 300 instead
    of 200. *)
Theorem single_exon_end_not_clipped :
  SingleCut.coding_exons 100 200 [50] [300] = [(100, 300)]
  ∧ SingleCut.coding_exons 100 200 [50] [300] ≠ [(Z.max 50 100, Z.min 300 200)].
Proof. split; [reflexivity|discriminate]. Qed.

(** C9, as the claim states it, fails: the first exon [100, 200] of a
    transcript whose coding sequence starts at 1000 is clipped to
    (1000, 200), contributes no position, and counts for -799 in the sum
    of [end - start + 1]. *)
Lemma coding_positions_count_counterexample :
  SingleCut.coding_exons 1000 1100 [100; 900] [200; 1100] = [(1000, 200); (900, 1100)]
  ∧ Z.of_nat (length (SingleCut.get_coding_positions_and_starts
                        [(1000, 200); (900, 1100)]).1) = 201
  ∧ sum_exon_lengths [(1000, 200); (900, 1100)] = -598
  ∧ Z.of_nat (length (SingleCut.get_coding_positions_and_starts
                        [(1000, 200); (900, 1100)]).1)
    ≠ sum_exon_lengths [(1000, 200); (900, 1100)].
Proof. split_and!; [vm_compute; reflexivity..|vm_compute; discriminate]. Qed.

(** C9 (amended): the coding positions are exactly the members of the
    inclusive ranges [start, end] of the exons, listed range after range;
    their count is the sum over the exons of [max 0 (end - start + 1)];
    the coding exon starts are the start of each exon, in order. *)
Theorem coding_positions_and_starts (exons : list (Z * Z)) :
  (∀ z, z ∈ (SingleCut.get_coding_positions_and_starts exons).1
        ↔ ∃ exon, exon ∈ exons ∧ exon.1 ≤ z ≤ exon.2)
  ∧ Z.of_nat (length (SingleCut.get_coding_positions_and_starts exons).1)
    = sum_range_lengths exons
  ∧ (SingleCut.get_coding_positions_and_starts exons).2 = exons.*1.
Proof.
  rewrite get_coding_positions_and_starts_eq. simpl. split_and!; [| |done].
  - intros z. rewrite list_elem_of_bind. split.
    + intros (x & Hz%elem_of_range & Hx). exists x. split; [done|lia].
    + intros (x & Hx & Hz). exists x. split; [|done]. apply elem_of_range. lia.
  - induction exons as [|x exons IH]; [done|].
    rewrite bind_cons, length_app, Nat2Z.inj_add, IH, length_range.
    simpl. f_equal. f_equal. lia.
Qed.

(** * Aggregation per individual *)

Section py_lists.
Context {A B : Type} (f : A → py B).

Lemma mapM_py_inv (l : list A) (k : list B) :
  mapM f l = Return k → Forall2 (λ x y, f x = Return y) l k.
Proof.
  revert k. induction l as [|x l IH]; intros k; simpl.
  - intros [= <-]. constructor.
  - unfold mbind, py_bind, mret, py_ret.
    destruct (f x) as [y|e] eqn:Hx; [|done].
    destruct (mapM f l) as [k'|e]; [|done].
    intros [= <-]. constructor; [done|]. by apply IH.
Qed.

Lemma mapM_py_cons (x : A) (l : list A) :
  mapM f (x :: l) = y ← f x; k ← mapM f l; mret (y :: k).
Proof. reflexivity. Qed.

Lemma mapM_py_returns (l : list A) :
  (∀ x, x ∈ l → ∃ y, f x = Return y) → ∃ k, mapM f l = Return k.
Proof.
  induction l as [|x l IH]; intros Hall.
  - by exists [].
  - destruct (Hall x) as [y Hy]; [left|].
    destruct IH as [k Hk]; [intros z Hz; apply Hall; by right|].
    exists (y :: k). rewrite mapM_py_cons, Hy, Hk. reflexivity.
Qed.

(** Rows zipped with the values computed from them. *)
Lemma elem_of_zip_with_computed {C} (g : A → B → C) (l : list A) (k : list B) (z : C) :
  Forall2 (λ x y, f x = Return y) l k →
  z ∈ zip_with g l k ↔ ∃ x y, x ∈ l ∧ f x = Return y ∧ z = g x y.
Proof.
  induction 1 as [|x y l k Hxy _ IH]; simpl.
  - split; [by intros ?%elem_of_nil|]. by intros (x & y & ?%elem_of_nil & _).
  - rewrite elem_of_cons, IH. split.
    + intros [->|(x' & y' & Hin & Hf & ->)].
      * exists x, y. split; [left|done].
      * exists x', y'. split; [by right|done].
    + intros (x' & y' & Hin & Hf & ->).
      apply elem_of_cons in Hin as [->|Hin].
      * left. rewrite Hxy in Hf. by injection Hf as ->.
      * right. by exists x', y'.
Qed.

Lemma elem_of_zip_computed (l : list A) (k : list B) (x : A) (y : B) :
  Forall2 (λ x y, f x = Return y) l k →
  (x, y) ∈ zip l k ↔ x ∈ l ∧ f x = Return y.
Proof.
  intros HF. rewrite (elem_of_zip_with_computed _ _ _ _ HF). split.
  - by intros (x' & y' & Hin & Hf & [= -> ->]).
  - intros [Hin Hf]. by exists x, y.
Qed.

End py_lists.

Section aggregation.
Import ExcisionFinder.

Lemma pair_subset_true (x : Z * Z) (het_positions : gset Z) :
  pair_subset x het_positions = true ↔ x.1 ∈ het_positions ∧ x.2 ∈ het_positions.
Proof.
  unfold pair_subset. rewrite bool_decide_eq_true. split.
  - intros Hsub. split; apply Hsub;
      [apply elem_of_union_l|apply elem_of_union_r]; by apply elem_of_singleton.
  - intros [H1 H2] y [->%elem_of_singleton| ->%elem_of_singleton]%elem_of_union;
      done.
Qed.

Lemma has_targ_pair_true (het_positions : gset Z) (targ_pairs : list (Z * Z)) :
  has_targ_pair het_positions targ_pairs = true
  ↔ ∃ a b, (a, b) ∈ targ_pairs ∧ a ∈ het_positions ∧ b ∈ het_positions.
Proof.
  induction targ_pairs as [|[a b] l IH]; simpl.
  - split; [done|]. by intros (a & b & ?%elem_of_nil & _).
  - destruct (pair_subset (a, b) het_positions) eqn:Hsub.
    + split; [|done]. intros _. exists a, b.
      apply pair_subset_true in Hsub as [Ha Hb]. split; [left|done].
    + rewrite IH. split.
      * intros (a' & b' & Hin & Ha & Hb). exists a', b'. split; [by right|done].
      * intros (a' & b' & Hin & Ha & Hb).
        apply elem_of_cons in Hin as [[= -> ->]|Hin]; [|by exists a', b'].
        assert (pair_subset (a, b) het_positions = true) as Htrue
          by (by apply pair_subset_true).
        congruence.
Qed.

(** The resolver returns whenever the sample and the columns of the Cas
    variety are in the tables: [exit()] is not reachable, since an
    allele either equals the reference or differs from it. *)
Lemma haplotype_targetability_returns position sample chrdf gens cas :
  sample ∈ columns gens →
  cas_columns_present cas chrdf = true →
  ∃ targ, haplotype_targetability position sample chrdf gens cas = Return targ.
Proof.
  intros Hcol Hcas.
  apply cas_columns_present_inv in Hcas as (mk & bk & nr & Hrel & Hm & Hb & Hn).
  unfold haplotype_targetability, haplotype_targetability_body, mbind, py_bind.
  destruct (genotype_at_cases position sample gens Hcol) as [[g ->]| ->];
    [|by eexists].
  destruct (split_genotype_cases g) as [(h1 & h2 & ->)| ->]; [|by eexists].
  destruct (item_cases (ref <$> rows (query (λ r, pos r = position) chrdf)))
    as [(r & _ & ->)| ->]; [|by eexists].
  rewrite Hrel.
  assert (∀ allele, ∃ t,
    targetable_haplotypes (query (λ r, pos r = position ∧ alt r = allele) chrdf)
      mk bk nr = Return t) as Hret.
  { intros allele. rewrite targetable_haplotypes_present by done. by eexists. }
  case_bool_decide as Hr2.
  { destruct (Hret h1) as [[t1 t2] ->]. by eexists. }
  case_bool_decide as Hr1.
  { destruct (Hret h2) as [[t1 t2] ->]. by eexists. }
  rewrite !bool_decide_eq_true_2 by done.
  destruct (Hret h1) as [[t1a t2a] H1], (Hret h2) as [[t1b t2b] H2].
  rewrite (targ_haps_both_alt_or _ _ _ _ _ _ _ _ _ H1 H2). by eexists.
Qed.

Lemma hap_columns_differ cas : "hap1_" +:+ cas ≠ "hap2_" +:+ cas.
Proof. cbn [String.append]. intros [=]. Qed.

Lemma elem_of_add_label col cols : col ∈ add_label col cols.
Proof.
  unfold add_label. case_bool_decide; [done|].
  apply elem_of_app. right. by left.
Qed.

Lemma elem_of_add_label_mono col col' cols : col ∈ cols → col ∈ add_label col' cols.
Proof.
  unfold add_label. case_bool_decide; [done|].
  intros. apply elem_of_app. by left.
Qed.

Lemma elem_of_long_form het_vars_per_ind (r : haps_row) :
  r ∈ rows (long_form het_vars_per_ind)
  ↔ ∃ ind hets p, (ind, hets) ∈ het_vars_per_ind ∧ p ∈ hets
                  ∧ r = mk_haps_row ind p (λ _, false).
Proof.
  unfold long_form. simpl. rewrite list_elem_of_bind. split.
  - intros ([ind hets] & (p & -> & Hp)%list_elem_of_fmap & Hin).
    by exists ind, hets, p.
  - intros (ind & hets & p & Hin & Hp & ->).
    exists (ind, hets). split; [|done].
    apply list_elem_of_fmap. by exists p.
Qed.

End aggregation.

Section pair_mode.
Import ExcisionFinder.
Variables (cas : string) (chrdf : DataFrame targ_row) (gens : DataFrame gen_row).
Variable targ_pairs : list (Z * Z).

Local Abbreviation resolve := (resolve cas chrdf gens).

Lemma sample_hets_spec col sample (df : DataFrame haps_row) :
  col ∈ columns df →
  ∃ hets : gset Z, sample_hets col sample df = Return hets
                   ∧ ∀ p, p ∈ hets ↔ on_hap df col sample p.
Proof.
  intros Hcol. unfold sample_hets. rewrite bool_decide_eq_true_2 by done.
  eexists. split; [reflexivity|]. intros p. unfold on_hap, query. simpl.
  rewrite elem_of_list_to_set, list_elem_of_fmap. split.
  - intros (r & -> & [Hs [Hf Hr]%list_elem_of_filter]%list_elem_of_filter).
    by exists r.
  - intros (r & Hr & Hf & Hs & Hp). exists r. split; [done|].
    apply list_elem_of_filter. split; [done|]. by apply list_elem_of_filter.
Qed.

Lemma has_targ_pos_pair_same_hap_spec sample (df : DataFrame haps_row) :
  "hap1_" +:+ cas ∈ columns df → "hap2_" +:+ cas ∈ columns df →
  ∃ targ : bool,
    has_targ_pos_pair_same_hap sample cas targ_pairs df = Return targ
    ∧ (targ = true ↔
       ∃ a b, (a, b) ∈ targ_pairs
              ∧ (on_hap df ("hap1_" +:+ cas) sample a
                 ∧ on_hap df ("hap1_" +:+ cas) sample b
                 ∨ on_hap df ("hap2_" +:+ cas) sample a
                   ∧ on_hap df ("hap2_" +:+ cas) sample b)).
Proof.
  intros H1 H2. unfold has_targ_pos_pair_same_hap.
  destruct (sample_hets_spec _ sample df H1) as (hets1 & -> & Hhets1).
  destruct (sample_hets_spec _ sample df H2) as (hets2 & -> & Hhets2).
  unfold mbind, py_bind.
  destruct (has_targ_pair hets1 targ_pairs) eqn:Hp1.
  { eexists. split; [reflexivity|]. split; [|done]. intros _.
    apply has_targ_pair_true in Hp1 as (a & b & Hin & Ha & Hb).
    exists a, b. split; [done|]. left. by rewrite <- !Hhets1. }
  destruct (has_targ_pair hets2 targ_pairs) eqn:Hp2.
  { eexists. split; [reflexivity|]. split; [|done]. intros _.
    apply has_targ_pair_true in Hp2 as (a & b & Hin & Ha & Hb).
    exists a, b. split; [done|]. right. by rewrite <- !Hhets2. }
  eexists. split; [reflexivity|]. split; [done|].
  intros (a & b & Hin & [[Ha Hb]|[Ha Hb]]).
  - rewrite <- Hp1. apply has_targ_pair_true. exists a, b. by rewrite !Hhets1.
  - rewrite <- Hp2. apply has_targ_pair_true. exists a, b. by rewrite !Hhets2.
Qed.

(** After the assignment of the two columns, a row is on haplotype 1
    (2) exactly when the resolver's first (second) answer for it is
    true. *)
Lemma on_hap_assigned (targ_haps : DataFrame haps_row) (values : list (bool * bool))
    sample p :
  Forall2 (λ r v, resolve r = Return v) (rows targ_haps) values →
  (on_hap (assign_haps cas targ_haps values) ("hap1_" +:+ cas) sample p
   ↔ ∃ r v, r ∈ rows targ_haps ∧ resolve r = Return v
            ∧ sample_of r = sample ∧ pos_of r = p ∧ v.1 = true)
  ∧ (on_hap (assign_haps cas targ_haps values) ("hap2_" +:+ cas) sample p
     ↔ ∃ r v, r ∈ rows targ_haps ∧ resolve r = Return v
              ∧ sample_of r = sample ∧ pos_of r = p ∧ v.2 = true).
Proof.
  intros HF. pose proof (hap_columns_differ cas) as Hne.
  unfold on_hap, assign_haps. simpl. split; split.
  - intros (r' & (r & v & Hr & Hv & ->)%(elem_of_zip_with_computed resolve)
               & Hf & Hs & Hp); [|done].
    exists r, v. unfold set_flag in Hf, Hs, Hp. simpl in Hf, Hs, Hp.
    by repeat case_bool_decide.
  - intros (r & v & Hr & Hv & Hs & Hp & Ht). eexists. split.
    { apply (elem_of_zip_with_computed resolve); [done|]. by exists r, v. }
    unfold set_flag. simpl. by repeat case_bool_decide.
  - intros (r' & (r & v & Hr & Hv & ->)%(elem_of_zip_with_computed resolve)
               & Hf & Hs & Hp); [|done].
    exists r, v. unfold set_flag in Hf, Hs, Hp. simpl in Hf, Hs, Hp.
    by repeat case_bool_decide.
  - intros (r & v & Hr & Hv & Hs & Hp & Ht). eexists. split.
    { apply (elem_of_zip_with_computed resolve); [done|]. by exists r, v. }
    unfold set_flag. simpl. by repeat case_bool_decide.
Qed.

(** One pass of the loop returns, on a table with a row at least, when
    every sample named in it is a column of the genotype table. *)
Lemma evaluate_cas_returns (enough_hets : list string) (targ_haps : DataFrame haps_row) :
  cas_columns_present cas chrdf = true →
  rows targ_haps ≠ [] →
  (∀ r, r ∈ rows targ_haps → sample_of r ∈ columns gens) →
  ∃ values targ,
    Forall2 (λ r v, resolve r = Return v) (rows targ_haps) values
    ∧ Forall2 (λ s b, has_targ_pos_pair_same_hap s cas targ_pairs
                        (assign_haps cas targ_haps values) = Return b)
              enough_hets targ
    ∧ evaluate_cas cas chrdf gens targ_pairs enough_hets targ_haps
      = Return (assign_haps cas targ_haps values, targ).
Proof.
  intros Hcas Hrows Hcols. unfold evaluate_cas.
  destruct (mapM_py_returns resolve (rows targ_haps)) as [values Hvalues].
  { intros r Hr. apply haplotype_targetability_returns; auto. }
  change (mapM _ (rows targ_haps)) with (mapM resolve (rows targ_haps)).
  rewrite Hvalues. unfold mbind at 1, py_bind at 1.
  pose proof (mapM_py_inv _ _ _ Hvalues) as HF.
  destruct values as [|v values].
  { apply Forall2_nil_inv_r in HF. done. }
  set (df := assign_haps cas targ_haps (v :: values)).
  destruct (mapM_py_returns
    (λ sample, has_targ_pos_pair_same_hap sample cas targ_pairs df) enough_hets)
    as [targ Htarg].
  { intros s _.
    destruct (has_targ_pos_pair_same_hap_spec s df) as (b & Hb & _);
      [|by apply elem_of_add_label|by exists b].
    apply elem_of_add_label_mono, elem_of_add_label. }
  exists (v :: values), targ. split; [done|].
  split; [by apply mapM_py_inv|].
  rewrite Htarg. reflexivity.
Qed.

End pair_mode.

Section pair_mode_claim.
Import ExcisionFinder.

Lemma present_true (labels cols : list string) :
  present labels cols = true ↔ ∀ c, c ∈ labels → c ∈ cols.
Proof.
  unfold present. rewrite forallb_forall. split.
  - intros H c Hc. apply list_elem_of_In, H in Hc. by apply bool_decide_eq_true in Hc.
  - intros H c Hc. apply bool_decide_eq_true, H. by apply list_elem_of_In.
Qed.

Lemma is_empty_rows {R} (df : DataFrame R) : is_empty df = true ↔ rows df = [].
Proof. unfold is_empty. by destruct (rows df). Qed.

(** The rows [main] keeps: the heterozygous positions of an individual
    that are a member of some pair. *)
Lemma elem_of_eligible_rows het_vars_per_ind (eligible : gset Z) (r : haps_row) :
  r ∈ rows (query (λ r, pos_of r ∈ eligible) (long_form het_vars_per_ind))
  ↔ pos_of r ∈ eligible
    ∧ het_in het_vars_per_ind (sample_of r) (pos_of r)
    ∧ r = mk_haps_row (sample_of r) (pos_of r) (λ _, false).
Proof.
  unfold query. cbn [rows]. rewrite list_elem_of_filter, elem_of_long_form.
  unfold het_in. split.
  - intros [He (ind & hets & p & Hin & Hp & ->)]. simpl in *. eauto.
  - intros (He & (hets & Hin & Hp) & Hr). split; [done|].
    by exists (sample_of r), hets, (pos_of r).
Qed.

(** C6: in pair mode, a sample is reported targetable for a Cas variety
    exactly when some generated pair has both its positions heterozygous
    in the sample and resolved to the same haplotype, both on haplotype 1
    or both on haplotype 2.  The samples of [het_vars_per_ind] are
    columns of the genotype table and the columns of the Cas variety are
    in the targetability table. *)
Theorem pair_mode_same_haplotype (cas : string) (variants : list Z)
    (coding_positions : gset Z) (coding_exon_starts : list Z)
    (het_vars_per_ind : list (string * list Z))
    (chrdf : DataFrame targ_row) (gens : DataFrame gen_row) (sample : string) :
  present het_vars_per_ind.*1 (columns gens) = true →
  cas_columns_present cas chrdf = true →
  (∃ final_targ,
     pair_mode cas variants coding_positions coding_exon_starts het_vars_per_ind
               chrdf gens = Return final_targ
     ∧ (sample, true) ∈ final_targ)
  ↔ ∃ a b,
      (a, b) ∈ targ_pairs_tuple variants coding_positions coding_exon_starts
      ∧ het_in het_vars_per_ind sample a ∧ het_in het_vars_per_ind sample b
      ∧ ∃ ta tb,
          haplotype_targetability a sample chrdf gens cas = Return ta
          ∧ haplotype_targetability b sample chrdf gens cas = Return tb
          ∧ (ta.1 = true ∧ tb.1 = true ∨ ta.2 = true ∧ tb.2 = true).
Proof.
  intros Hsamples Hcas. unfold pair_mode.
  set (pairs := targ_pairs_tuple variants coding_positions coding_exon_starts).
  set (eligible := eligible_variants variants coding_positions coding_exon_starts).
  set (targ_haps := query (λ r, pos_of r ∈ eligible) (long_form het_vars_per_ind)).
  assert (∀ r, r ∈ rows targ_haps → sample_of r ∈ columns gens) as Hcols.
  { intros r (_ & (hets & Hin & _) & _)%elem_of_eligible_rows.
    apply (proj1 (present_true _ _) Hsamples).
    apply list_elem_of_fmap. by exists (sample_of r, hets). }
  assert (∀ s p q, het_in het_vars_per_ind s p → ((p, q) ∈ pairs ∨ (q, p) ∈ pairs) →
            mk_haps_row s p (λ _, false) ∈ rows targ_haps) as Hrow.
  { intros s p q Hhet Hpq. apply elem_of_eligible_rows. simpl.
    split; [|done]. apply elem_of_eligible_variants. by exists q. }
  split.
  - intros (final_targ & Hrun & Hin).
    destruct (is_empty targ_haps) eqn:Hemp; [done|].
    destruct (evaluate_cas_returns cas chrdf gens pairs het_vars_per_ind.*1 targ_haps)
      as (values & targ & Hvalues & Htarg & Heval); [done| |done|].
    { intros Hnil%is_empty_rows. congruence. }
    rewrite Heval in Hrun. injection Hrun as <-. simpl in Hin.
    apply (elem_of_zip_computed _ _ _ _ _ Htarg) in Hin as [_ Hsample].
    destruct (has_targ_pos_pair_same_hap_spec cas pairs sample
                (assign_haps cas targ_haps values)) as (b' & Hb' & Hiff).
    { apply elem_of_add_label_mono, elem_of_add_label. }
    { apply elem_of_add_label. }
    rewrite Hb' in Hsample. injection Hsample as ->.
    destruct (proj1 Hiff eq_refl) as (a & b & Hab & Hsame).
    pose proof (on_hap_assigned cas chrdf gens targ_haps values sample a Hvalues)
      as [Ha1 Ha2].
    pose proof (on_hap_assigned cas chrdf gens targ_haps values sample b Hvalues)
      as [Hb1 Hb2].
    exists a, b. split; [done|].
    destruct Hsame as [[Ha Hb]|[Ha Hb]].
    + apply Ha1 in Ha as (ra & ta & Hra & Hta & <- & <- & Hta1).
      apply Hb1 in Hb as (rb & tb & Hrb & Htb & Hsb & <- & Htb1).
      apply elem_of_eligible_rows in Hra as (_ & Hhet_a & _).
      apply elem_of_eligible_rows in Hrb as (_ & Hhet_b & _).
      rewrite Hsb in Hhet_b. unfold resolve in Hta, Htb. rewrite Hsb in Htb.
      split_and!; [done..|]. exists ta, tb. auto.
    + apply Ha2 in Ha as (ra & ta & Hra & Hta & <- & <- & Hta1).
      apply Hb2 in Hb as (rb & tb & Hrb & Htb & Hsb & <- & Htb1).
      apply elem_of_eligible_rows in Hra as (_ & Hhet_a & _).
      apply elem_of_eligible_rows in Hrb as (_ & Hhet_b & _).
      rewrite Hsb in Hhet_b. unfold resolve in Hta, Htb. rewrite Hsb in Htb.
      split_and!; [done..|]. exists ta, tb. auto.
  - intros (a & b & Hab & Hhet_a & Hhet_b & ta & tb & Hta & Htb & Hsame).
    pose proof (Hrow sample a b Hhet_a (or_introl Hab)) as Hra.
    pose proof (Hrow sample b a Hhet_b (or_intror Hab)) as Hrb.
    destruct (is_empty targ_haps) eqn:Hemp.
    { apply is_empty_rows in Hemp. rewrite Hemp in Hra. by apply elem_of_nil in Hra. }
    destruct (evaluate_cas_returns cas chrdf gens pairs het_vars_per_ind.*1 targ_haps)
      as (values & targ & Hvalues & Htarg & Heval); [done| |done|].
    { intros Hnil%is_empty_rows. congruence. }
    rewrite Heval. eexists. split; [reflexivity|]. simpl.
    apply (elem_of_zip_computed _ _ _ _ _ Htarg). split.
    { destruct Hhet_a as (hets & Hin & _).
      apply list_elem_of_fmap. by exists (sample, hets). }
    destruct (has_targ_pos_pair_same_hap_spec cas pairs sample
                (assign_haps cas targ_haps values)) as (b' & Hb' & Hiff).
    { apply elem_of_add_label_mono, elem_of_add_label. }
    { apply elem_of_add_label. }
    rewrite Hb'. f_equal. apply Hiff. exists a, b. split; [done|].
    pose proof (on_hap_assigned cas chrdf gens targ_haps values sample a Hvalues)
      as [Ha1 Ha2].
    pose proof (on_hap_assigned cas chrdf gens targ_haps values sample b Hvalues)
      as [Hb1 Hb2].
    destruct Hsame as [[Hta1 Htb1]|[Hta2 Htb2]]; [left|right]; split.
    + apply Ha1. by exists (mk_haps_row sample a (λ _, false)), ta.
    + apply Hb1. by exists (mk_haps_row sample b (λ _, false)), tb.
    + apply Ha2. by exists (mk_haps_row sample a (λ _, false)), ta.
    + apply Hb2. by exists (mk_haps_row sample b (λ _, false)), tb.
Qed.

Example pair_mode_runs :
  pair_mode "SaCas9_KKH" [10; 20; 30] (list_to_set (range 15 25)) [15]
            [("s1", [10; 20; 30])] chrdf_pairs gens_pairs
  = Return [("s1", true)].
Proof. vm_compute. reflexivity. Qed.

Lemma pair_mode_same_haplotype_witness :
  (∃ final_targ,
     pair_mode "SaCas9_KKH" [10; 20; 30] (list_to_set (range 15 25)) [15]
               [("s1", [10; 20; 30])] chrdf_pairs gens_pairs = Return final_targ
     ∧ ("s1", true) ∈ final_targ)
  ↔ ∃ a b,
      (a, b) ∈ targ_pairs_tuple [10; 20; 30] (list_to_set (range 15 25)) [15]
      ∧ het_in [("s1", [10; 20; 30])] "s1" a ∧ het_in [("s1", [10; 20; 30])] "s1" b
      ∧ ∃ ta tb,
          haplotype_targetability a "s1" chrdf_pairs gens_pairs "SaCas9_KKH" = Return ta
          ∧ haplotype_targetability b "s1" chrdf_pairs gens_pairs "SaCas9_KKH" = Return tb
          ∧ (ta.1 = true ∧ tb.1 = true ∨ ta.2 = true ∧ tb.2 = true).
Proof.
  apply (pair_mode_same_haplotype "SaCas9_KKH" [10; 20; 30]
           (list_to_set (range 15 25)) [15] [("s1", [10; 20; 30])]
           chrdf_pairs gens_pairs "s1"); reflexivity.
Defined.

End pair_mode_claim.

(** * Genotype strings and gene names *)

Section strings.
Implicit Types (s a b w : string) (c sep : ascii) (seps : list ascii).

Lemma append_nil b : "" +:+ b = b.
Proof. reflexivity. Qed.

Lemma append_cons c a b : String c a +:+ b = String c (a +:+ b).
Proof. reflexivity. Qed.

Local Ltac simpl_str := simpl; rewrite ?append_cons, ?append_nil.

Lemma append_empty_r s : s +:+ "" = s.
Proof. induction s as [|c s IH]; simpl_str; [done|]. by rewrite IH. Qed.

Lemma append_assoc_string a b w : (a +:+ b) +:+ w = a +:+ (b +:+ w).
Proof. induction a as [|c a IH]; simpl_str; [done|]. by rewrite IH. Qed.

Lemma count_chars_append seps a b :
  count_chars seps (a +:+ b) = (count_chars seps a + count_chars seps b)%nat.
Proof. induction a as [|c a IH]; simpl_str; [done|]. rewrite IH. lia. Qed.

Lemma count_chars_singleton sep s : count_chars [sep] s = count_char sep s.
Proof.
  induction s as [|c s IH]; simpl_str; [done|]. rewrite IH. f_equal.
  destruct (decide (c = sep)) as [->|Hne].
  - by rewrite !bool_decide_eq_true_2 by (done || by apply list_elem_of_singleton).
  - by rewrite !bool_decide_eq_false_2 by (done || by intros ?%list_elem_of_singleton).
Qed.

Lemma split_re_split sep s : split sep s = re_split [sep] s.
Proof.
  induction s as [|c s IH]; simpl_str; [done|]. rewrite IH.
  destruct (decide (c = sep)) as [->|Hne].
  - by rewrite !bool_decide_eq_true_2 by (done || by apply list_elem_of_singleton).
  - by rewrite !bool_decide_eq_false_2 by (done || by intros ?%list_elem_of_singleton).
Qed.

(** Splitting cuts the string at its separators: there is one piece more
    than separators, no piece holds a separator, and the pieces put back
    around the separators they were cut at give the string. *)
Lemma re_split_length seps s :
  length (re_split seps s) = S (count_chars seps s).
Proof.
  induction s as [|c s IH]; simpl_str; [done|].
  case_bool_decide; simpl_str; [by rewrite IH|].
  destruct (re_split seps s); simpl in *; rewrite ?append_cons, ?append_nil; lia.
Qed.

Lemma re_split_one seps s w :
  re_split seps s = [w] → s = w ∧ count_chars seps s = 0%nat.
Proof.
  revert w. induction s as [|c s IH]; intros w; simpl_str.
  - by intros [= <-].
  - case_bool_decide as Hc.
    + intros [= <- Hnil]. pose proof (re_split_length seps s) as Hlen.
      rewrite Hnil in Hlen. done.
    + destruct (re_split seps s) as [|w' ws] eqn:Hs.
      { pose proof (re_split_length seps s) as Hlen. by rewrite Hs in Hlen. }
      intros [= <- ->]. destruct (IH w' eq_refl) as [-> Hcount].
      by rewrite Hcount.
Qed.

Lemma re_split_two seps s h1 h2 :
  re_split seps s = [h1; h2] →
  ∃ c, c ∈ seps ∧ s = h1 +:+ String c h2
       ∧ count_chars seps h1 = 0%nat ∧ count_chars seps h2 = 0%nat.
Proof.
  revert h1. induction s as [|c s IH]; intros h1; simpl_str; [done|].
  case_bool_decide as Hc.
  - intros [= <- Hs]. apply re_split_one in Hs as [-> Hcount].
    by exists c.
  - destruct (re_split seps s) as [|w ws] eqn:Hs; [done|].
    intros [= <- ->]. destruct (IH w eq_refl) as (c' & Hc' & -> & H1 & H2).
    exists c'. simpl_str. by rewrite bool_decide_eq_false_2, H1.
Qed.

Lemma re_split_no_sep seps s : count_chars seps s = 0%nat → re_split seps s = [s].
Proof.
  induction s as [|c s IH]; simpl_str; [done|].
  case_bool_decide; [done|]. intros Hs. by rewrite IH.
Qed.

Lemma re_split_at seps a c b :
  count_chars seps a = 0%nat → c ∈ seps →
  re_split seps (a +:+ String c b) = a :: re_split seps b.
Proof.
  intros Ha Hc. induction a as [|c' a IH]; simpl in *; rewrite ?append_cons, ?append_nil.
  - by rewrite bool_decide_eq_true_2.
  - case_bool_decide; [done|]. by rewrite IH.
Qed.

(** Replacing a character. *)
Lemma str_replace_append old new a b :
  str_replace old new (a +:+ b) = str_replace old new a +:+ str_replace old new b.
Proof.
  induction a as [|c a IH]; simpl_str; [done|].
  case_bool_decide; rewrite IH; [|done]. by rewrite append_assoc_string.
Qed.

Lemma str_replace_absent old new a :
  count_char old a = 0%nat → str_replace old new a = a.
Proof.
  induction a as [|c a IH]; simpl_str; [done|].
  case_bool_decide; [done|]. intros Ha. by rewrite IH.
Qed.

Lemma count_char_append c a b :
  count_char c (a +:+ b) = (count_char c a + count_char c b)%nat.
Proof. induction a as [|c' a IH]; simpl_str; [done|]. rewrite IH. lia. Qed.

Lemma count_char_str_replace c old new a :
  c ≠ old →
  count_char c (str_replace old new a)
  = (count_char c a + count_char old a * count_char c new)%nat.
Proof.
  intros Hne. induction a as [|c' a IH]; simpl_str; [done|].
  case_bool_decide as Hold; simpl_str.
  - subst c'. rewrite count_char_append, IH.
    rewrite bool_decide_eq_false_2 by done. lia.
  - rewrite IH. lia.
Qed.

Lemma count_char_str_replace_old old new a :
  count_char old new = 0%nat → count_char old (str_replace old new a) = 0%nat.
Proof.
  intros Hnew. induction a as [|c a IH]; simpl_str; [done|].
  case_bool_decide as Hold; simpl_str.
  - by rewrite count_char_append, Hnew, IH.
  - by rewrite bool_decide_eq_false_2, IH.
Qed.

Lemma length_append a b :
  String.length (a +:+ b) = (String.length a + String.length b)%nat.
Proof. induction a as [|c a IH]; simpl_str; [done|]. by rewrite IH. Qed.

Lemma length_str_replace old new a :
  (String.length (str_replace old new a) + count_char old a
   = String.length a + count_char old a * String.length new)%nat.
Proof.
  induction a as [|c a IH]; simpl_str; [done|].
  case_bool_decide; simpl_str; [rewrite length_append|]; lia.
Qed.

End strings.

(** X1: [het] of the pair script returns exactly on the genotypes that
    hold one bar, with whether the two sides differ; on any other string
    unpacking the split raises [ValueError]. *)
Theorem het_outcome (genotype : string) :
  match ExcisionFinder.het genotype with
  | Return b =>
      ∃ hap1 hap2, genotype = hap1 +:+ "|" +:+ hap2
                   ∧ count_char "|" hap1 = 0%nat ∧ count_char "|" hap2 = 0%nat
                   ∧ b = bool_decide (hap1 ≠ hap2)
  | Raise e => e = ValueError ∧ count_char "|" genotype ≠ 1%nat
  end.
Proof.
  unfold ExcisionFinder.het, ExcisionFinder.split_genotype, mbind, py_bind.
  rewrite split_re_split.
  pose proof (re_split_length ["|"%char] genotype) as Hlen.
  rewrite count_chars_singleton in Hlen.
  destruct (re_split ["|"%char] genotype) as [|h1 [|h2 [|h3 l]]] eqn:Hs;
    simpl in Hlen; try (split; [done|lia]).
  apply re_split_two in Hs as (c & ->%list_elem_of_singleton & -> & H1 & H2).
  rewrite !count_chars_singleton in *. by exists h1, h2.
Qed.

(** X2: [het] of the single-cut script splits at a slash or a bar: it
    returns exactly on the genotypes that hold one separator in all, and
    raises [ValueError] on the others. *)
Theorem het_single_cut_outcome (genotype : string) :
  match SingleCut.het genotype with
  | Return b =>
      ∃ hap1 hap2 c, (c = "/"%char ∨ c = "|"%char)
                     ∧ genotype = hap1 +:+ String c hap2
                     ∧ count_chars ["/"%char; "|"%char] hap1 = 0%nat
                     ∧ count_chars ["/"%char; "|"%char] hap2 = 0%nat
                     ∧ b = bool_decide (hap1 ≠ hap2)
  | Raise e => e = ValueError ∧ count_chars ["/"%char; "|"%char] genotype ≠ 1%nat
  end.
Proof.
  unfold SingleCut.het.
  pose proof (re_split_length ["/"%char; "|"%char] genotype) as Hlen.
  destruct (re_split _ genotype) as [|h1 [|h2 [|h3 l]]] eqn:Hs;
    simpl in Hlen; try (split; [done|lia]).
  apply re_split_two in Hs as (c & Hc & -> & H1 & H2).
  exists h1, h2, c. split_and!; try done.
  apply elem_of_cons in Hc as [->|Hc]; [by left|].
  apply list_elem_of_singleton in Hc. by right.
Qed.

(** X3: on a genotype without a slash the two scripts' [het] agree. *)
Theorem het_scripts_agree (genotype : string) :
  count_char "/" genotype = 0%nat →
  SingleCut.het genotype = ExcisionFinder.het genotype.
Proof.
  intros Hslash.
  unfold SingleCut.het, ExcisionFinder.het, ExcisionFinder.split_genotype,
    mbind, py_bind.
  rewrite split_re_split.
  assert (re_split ["/"%char; "|"%char] genotype = re_split ["|"%char] genotype) as ->.
  { induction genotype as [|c g IH]; simpl in *; [done|].
    destruct (decide (c = "/"%char)) as [->|Hne].
    { by rewrite bool_decide_eq_true_2 in Hslash. }
    rewrite bool_decide_eq_false_2 in Hslash by done. rewrite IH by done.
    destruct (decide (c = "|"%char)) as [->|Hne'].
    - rewrite !bool_decide_eq_true_2; [done|by left|by right; left].
    - rewrite !bool_decide_eq_false_2; [done|..].
      + by intros ?%list_elem_of_singleton.
      + intros [?|?%list_elem_of_singleton]%elem_of_cons; done. }
  by destruct (re_split _ genotype) as [|h1 [|h2 [|h3 l]]].
Qed.

Lemma het_scripts_agree_witness : SingleCut.het "A|G" = ExcisionFinder.het "A|G".
Proof. apply (het_scripts_agree "A|G"). reflexivity. Defined.

Section gene_names.
Import ExcisionFinder.

Lemma translate_gene_name_unfold s :
  translate_gene_name s = str_replace "." "period" (str_replace "-" "dash" s).
Proof. reflexivity. Qed.

(** X4: a translated gene name holds neither a dash nor a period, in
    either script. *)
Theorem translate_gene_name_clean (gene_name : string) :
  count_char "-" (translate_gene_name gene_name) = 0%nat
  ∧ count_char "." (translate_gene_name gene_name) = 0%nat
  ∧ SingleCut.translate_gene_name gene_name = translate_gene_name gene_name.
Proof.
  rewrite translate_gene_name_unfold. split_and!; [| |done].
  - rewrite count_char_str_replace by done.
    rewrite count_char_str_replace_old by done. simpl. lia.
  - by apply count_char_str_replace_old.
Qed.

(** X5: the names that the translation leaves as they are, are the names
    without dash and period; any other name gets longer, by 3 characters a
    dash and 5 a period. *)
Theorem translate_gene_name_fixed (gene_name : string) :
  String.length (translate_gene_name gene_name)
  = (String.length gene_name + 3 * count_char "-" gene_name
     + 5 * count_char "." gene_name)%nat
  ∧ (translate_gene_name gene_name = gene_name
     ↔ count_char "-" gene_name = 0%nat ∧ count_char "." gene_name = 0%nat).
Proof.
  assert (String.length (translate_gene_name gene_name)
          = (String.length gene_name + 3 * count_char "-" gene_name
             + 5 * count_char "." gene_name)%nat) as Hlen.
  { rewrite translate_gene_name_unfold.
    pose proof (length_str_replace "." "period" (str_replace "-" "dash" gene_name)) as H1.
    pose proof (length_str_replace "-" "dash" gene_name) as H2.
    rewrite count_char_str_replace in H1 by done. simpl in H1, H2. lia. }
  split; [done|]. split.
  - intros Heq. rewrite Heq in Hlen. lia.
  - intros [Hd Hp]. rewrite translate_gene_name_unfold.
    by rewrite (str_replace_absent "-"), (str_replace_absent ".").
Qed.

(** The translation works character by character. *)
Lemma translate_gene_name_append (a b : string) :
  translate_gene_name (a +:+ b) = translate_gene_name a +:+ translate_gene_name b.
Proof. rewrite !translate_gene_name_unfold. by rewrite !str_replace_append. Qed.

(** X6: the translation is not injective: a name that spells out "dash"
    or "period" collides with the name that has the character. *)
Theorem translate_gene_name_collides :
  ¬ Inj (=) (=) translate_gene_name
  ∧ ∀ a b, translate_gene_name (a +:+ "-" +:+ b)
           = translate_gene_name (a +:+ "dash" +:+ b).
Proof.
  assert (∀ a b, translate_gene_name (a +:+ "-" +:+ b)
                 = translate_gene_name (a +:+ "dash" +:+ b)) as Hcol.
  { intros a b. by rewrite !translate_gene_name_append. }
  split; [|done]. intros Hinj.
  specialize (Hinj _ _ (Hcol "" "")). discriminate.
Qed.

End gene_names.

(** * More on the pair classifier and the pairs of an individual *)

(** X7: [next_exon] returns the least coding exon start past the position,
    and [False] exactly when there is none. *)
Theorem next_exon_least (variant_position : Z) (coding_exon_starts : list Z) :
  match ExcisionFinder.next_exon variant_position coding_exon_starts with
  | PyInt m =>
      m ∈ coding_exon_starts ∧ variant_position < m
      ∧ ∀ s, s ∈ coding_exon_starts → variant_position < s → m ≤ s
  | PyBool b => b = false ∧ ∀ s, s ∈ coding_exon_starts → s ≤ variant_position
  end.
Proof.
  destruct (decide (Exists (λ s, variant_position < s) coding_exon_starts))
    as [Hex|Hno].
  - apply Exists_exists in Hex as (s & Hin & Hlt).
    by destruct (next_exon_some _ _ _ Hin Hlt) as (m & -> & Hm).
  - assert (∀ s, s ∈ coding_exon_starts → s ≤ variant_position) as Hall.
    { intros s Hs. destruct (decide (s ≤ variant_position)) as [|Hgt]; [done|].
      exfalso. apply Hno, Exists_exists. exists s. split; [done|lia]. }
    by rewrite next_exon_none.
Qed.

Lemma next_exon_same_elements (variant_position : Z) (starts starts' : list Z) :
  (∀ s, s ∈ starts ↔ s ∈ starts') →
  ExcisionFinder.next_exon variant_position starts
  = ExcisionFinder.next_exon variant_position starts'.
Proof.
  intros Hsame.
  destruct (decide (Exists (λ s, variant_position < s) starts)) as [Hex|Hno].
  - apply Exists_exists in Hex as (s & Hin & Hlt).
    destruct (next_exon_some _ _ _ Hin Hlt) as (m & -> & Hm & Hltm & Hleast).
    apply Hsame in Hin.
    destruct (next_exon_some _ _ _ Hin Hlt) as (m' & -> & Hm' & Hltm' & Hleast').
    f_equal. apply Z.le_antisymm.
    + apply Hleast; [by apply Hsame|done].
    + apply Hleast'; [by apply Hsame|done].
  - assert (∀ s, s ∈ starts → s ≤ variant_position) as Hall.
    { intros s Hs. destruct (decide (s ≤ variant_position)) as [|Hgt]; [done|].
      exfalso. apply Hno, Exists_exists. exists s. split; [done|lia]. }
    rewrite !next_exon_none; [done| |done].
    intros s Hs. by apply Hall, Hsame.
Qed.

(** X8: The classifier reads the coding exon starts as a set: their order
    and their repetitions do not matter, in either script. *)
Theorem targ_pair_starts_as_set (a b : Z) (coding_positions : gset Z)
    (coding_list : list Z) (starts starts' : list Z) :
  (∀ s, s ∈ starts ↔ s ∈ starts') →
  ExcisionFinder.targ_pair a b coding_positions starts
  = ExcisionFinder.targ_pair a b coding_positions starts'
  ∧ SingleCut.targ_pair a b coding_list starts
    = SingleCut.targ_pair a b coding_list starts'.
Proof.
  intros Hsame. unfold ExcisionFinder.targ_pair, SingleCut.targ_pair.
  destruct (sorted2 a b) as [low high].
  pose proof (next_exon_same_elements low starts starts' Hsame) as Heq.
  split; [by rewrite Heq|].
  by rewrite (next_exon_same low starts), (next_exon_same low starts'), Heq.
Qed.

Lemma targ_pair_starts_as_set_witness :
  ExcisionFinder.targ_pair 80 120 ∅ [100; 500] = ExcisionFinder.targ_pair 80 120 ∅ [500; 100; 100]
  ∧ SingleCut.targ_pair 80 120 [] [100; 500] = SingleCut.targ_pair 80 120 [] [500; 100; 100].
Proof.
  apply (targ_pair_starts_as_set 80 120 ∅ [] [100; 500] [500; 100; 100]).
  intros s. rewrite !elem_of_cons, !elem_of_nil. tauto.
Defined.

(** A pair with a coding position is targetable, whatever the other
    position and the coding exon starts, and whichever comes first. *)
Theorem targ_pair_coding_position (a b : Z) (coding_positions : gset Z)
    (coding_exon_starts : list Z) :
  a ∈ coding_positions →
  ExcisionFinder.targ_pair a b coding_positions coding_exon_starts = true
  ∧ ExcisionFinder.targ_pair b a coding_positions coding_exon_starts = true.
Proof.
  intros Ha. split; apply targ_pair_coding.
  - destruct (Z.le_ge_cases a b).
    + left. by rewrite Z.min_l.
    + right. by rewrite Z.max_l.
  - destruct (Z.le_ge_cases a b).
    + left. by rewrite Z.min_r.
    + right. by rewrite Z.max_r.
Qed.

Lemma targ_pair_coding_position_witness :
  ExcisionFinder.targ_pair 5 9 {[5]} [] = true
  ∧ ExcisionFinder.targ_pair 9 5 {[5]} [] = true.
Proof.
  apply (targ_pair_coding_position 5 9 {[5]} []). by apply elem_of_singleton.
Defined.

(** X9: [has_targ_pair] answers whether some pair has both its positions
    among the heterozygous positions; so it is false on no pair, and stays
    true when positions are added. *)
Theorem has_targ_pair_iff (het_positions : gset Z) (targ_pairs : list (Z * Z)) :
  (ExcisionFinder.has_targ_pair het_positions targ_pairs = true
   ↔ ∃ a b, (a, b) ∈ targ_pairs ∧ a ∈ het_positions ∧ b ∈ het_positions)
  ∧ ExcisionFinder.has_targ_pair het_positions [] = false
  ∧ ∀ more : gset Z,
      ExcisionFinder.has_targ_pair het_positions targ_pairs = true →
      ExcisionFinder.has_targ_pair (het_positions ∪ more) targ_pairs = true.
Proof.
  split_and!; [apply has_targ_pair_true|done|].
  intros more (a & b & Hin & Ha & Hb)%has_targ_pair_true.
  apply has_targ_pair_true. exists a, b.
  split; [done|]. split; by apply elem_of_union_l.
Qed.

(** X10: An individual with fewer than two heterozygous positions has no
    generated pair, whatever the variants and the gene. *)
Theorem one_het_no_pair (het_positions : gset Z) (variants : list Z)
    (coding_positions : gset Z) (coding_exon_starts : list Z) :
  (size het_positions ≤ 1)%nat →
  ExcisionFinder.has_targ_pair het_positions
    (ExcisionFinder.targ_pairs_tuple variants coding_positions coding_exon_starts)
  = false.
Proof.
  intros Hsize. apply not_true_is_false.
  intros (a & b & Hin & Ha & Hb)%has_targ_pair_true.
  apply elem_of_targ_pairs_tuple in Hin as (_ & _ & Hne & _).
  assert (({[a; b]} : gset Z) ⊆ het_positions) as Hsub.
  { intros x [->%elem_of_singleton| ->%elem_of_singleton]%elem_of_union; done. }
  apply subseteq_size in Hsub.
  rewrite size_union, !size_singleton in Hsub; [lia|].
  intros x ->%elem_of_singleton ?%elem_of_singleton. done.
Qed.

Lemma one_het_no_pair_witness :
  ExcisionFinder.has_targ_pair {[120]}
    (ExcisionFinder.targ_pairs_tuple [80; 90; 120] (list_to_set (seqZ 100 51)) [100])
  = false.
Proof.
  apply (one_het_no_pair {[120]} [80; 90; 120] (list_to_set (seqZ 100 51)) [100]).
  rewrite size_singleton. lia.
Defined.

(** * More on the haplotype resolver *)

Section resolver_more.
Import ExcisionFinder.
Implicit Types (chrdf targ_data : DataFrame targ_row) (gens : DataFrame gen_row).

Lemma any_any_cases targ_data cols :
  any_any targ_data cols
  = if present cols (columns targ_data) then Return (any_flag targ_data cols)
    else Raise KeyError.
Proof. reflexivity. Qed.

Lemma targetable_haplotypes_cases targ_data make_cols break_cols near_cols :
  targetable_haplotypes targ_data make_cols break_cols near_cols
  = if present make_cols (columns targ_data)
       && present break_cols (columns targ_data)
       && present near_cols (columns targ_data)
    then Return (any_flag targ_data make_cols || any_flag targ_data near_cols,
                 any_flag targ_data break_cols || any_flag targ_data near_cols)
    else Raise KeyError.
Proof.
  destruct (present make_cols (columns targ_data)) eqn:Hm,
    (present break_cols (columns targ_data)) eqn:Hb,
    (present near_cols (columns targ_data)) eqn:Hn; simpl;
    try (by apply targetable_haplotypes_present);
    unfold targetable_haplotypes, mbind, py_bind;
    rewrite !any_any_cases, ?Hm, ?Hb, ?Hn; done.
Qed.

(** X11: The mapping returns exactly when the labels of the three column sets
    are all columns of the table, and raises [KeyError] otherwise, also
    when the missing label is one of a set read last. *)
Theorem targetable_haplotypes_outcome targ_data (make_cols break_cols near_cols : list string) :
  targetable_haplotypes targ_data make_cols break_cols near_cols
  = if present (make_cols ++ break_cols ++ near_cols) (columns targ_data)
    then Return (any_flag targ_data make_cols || any_flag targ_data near_cols,
                 any_flag targ_data break_cols || any_flag targ_data near_cols)
    else Raise KeyError.
Proof.
  rewrite targetable_haplotypes_cases. unfold present.
  by rewrite !forallb_app, andb_assoc.
Qed.

Lemma targ_haps_both_alt_cases (rel_row_1 rel_row_2 : DataFrame targ_row)
    (make_cols break_cols near_cols : list string) :
  columns rel_row_1 = columns rel_row_2 →
  targ_haps_both_alt rel_row_1 rel_row_2 make_cols break_cols near_cols
  = if present make_cols (columns rel_row_1)
       && present break_cols (columns rel_row_1)
       && present near_cols (columns rel_row_1)
    then Return
           (any_flag rel_row_1 make_cols || any_flag rel_row_1 near_cols
            || (any_flag rel_row_2 make_cols || any_flag rel_row_2 near_cols),
            any_flag rel_row_1 break_cols || any_flag rel_row_1 near_cols
            || (any_flag rel_row_2 break_cols || any_flag rel_row_2 near_cols))
    else Raise KeyError.
Proof.
  intros Hcols. unfold targ_haps_both_alt, mbind, py_bind.
  rewrite !targetable_haplotypes_cases, <- Hcols.
  destruct (_ && _ && _); [|done].
  by destruct (any_flag rel_row_1 make_cols || any_flag rel_row_1 near_cols),
    (any_flag rel_row_1 break_cols || any_flag rel_row_1 near_cols).
Qed.

(** X12: The combination of two selections of one table does not depend on
    their order: the early return on (True, True) of the first selection
    changes nothing. *)
Theorem targ_haps_both_alt_comm (rel_row_1 rel_row_2 : DataFrame targ_row)
    (make_cols break_cols near_cols : list string) :
  columns rel_row_1 = columns rel_row_2 →
  targ_haps_both_alt rel_row_1 rel_row_2 make_cols break_cols near_cols
  = targ_haps_both_alt rel_row_2 rel_row_1 make_cols break_cols near_cols.
Proof.
  intros Hcols.
  rewrite (targ_haps_both_alt_cases rel_row_1 rel_row_2) by done.
  rewrite (targ_haps_both_alt_cases rel_row_2 rel_row_1) by done.
  rewrite Hcols. destruct (_ && _ && _); [|done].
  f_equal. f_equal; apply orb_comm.
Qed.

Lemma targ_haps_both_alt_comm_witness :
  targ_haps_both_alt (query (λ r, alt r = "G") chrdf_two_alts)
                     (query (λ r, alt r = "T") chrdf_two_alts)
                     ["makes_SaCas9_KKH"] ["breaks_SaCas9_KKH"] ["var_near_SaCas9_KKH"]
  = targ_haps_both_alt (query (λ r, alt r = "T") chrdf_two_alts)
                       (query (λ r, alt r = "G") chrdf_two_alts)
                       ["makes_SaCas9_KKH"] ["breaks_SaCas9_KKH"] ["var_near_SaCas9_KKH"].
Proof.
  apply (targ_haps_both_alt_comm (query (λ r, alt r = "G") chrdf_two_alts)
           (query (λ r, alt r = "T") chrdf_two_alts)).
  reflexivity.
Defined.

(** What the resolver does once the genotype is read and split. *)
Lemma haplotype_targetability_split position sample chrdf gens cas genotype hap1 hap2 :
  genotype_at position sample gens = Return genotype →
  split_genotype genotype = Return (hap1, hap2) →
  haplotype_targetability position sample chrdf gens cas
  = match item (ref <$> rows (query (λ r, pos r = position) chrdf)) with
    | Raise ValueError => Return (false, false)
    | Raise e => Raise e
    | Return r =>
        let '(make_cols, break_cols, near_cols) := relevant_columns cas in
        if bool_decide (hap2 = r) then
          targetable_haplotypes (query (λ r, pos r = position ∧ alt r = hap1) chrdf)
                                make_cols break_cols near_cols
        else if bool_decide (hap1 = r) then
          t ← targetable_haplotypes
                 (query (λ r, pos r = position ∧ alt r = hap2) chrdf)
                 make_cols break_cols near_cols;
          Return (t.2, t.1)
        else
          targ_haps_both_alt (query (λ r, pos r = position ∧ alt r = hap1) chrdf)
                             (query (λ r, pos r = position ∧ alt r = hap2) chrdf)
                             make_cols break_cols near_cols
    end.
Proof.
  intros Hg Hs.
  unfold haplotype_targetability, haplotype_targetability_body, mbind, py_bind.
  rewrite Hg, Hs.
  destruct (item_cases (ref <$> rows (query (λ r, pos r = position) chrdf)))
    as [(r & _ & ->)| ->]; [|done].
  destruct (relevant_columns cas) as [[mk bk] nr].
  case_bool_decide as H2.
  { rewrite targetable_haplotypes_cases. destruct (_ && _ && _); done. }
  case_bool_decide as H1.
  { rewrite targetable_haplotypes_cases. destruct (_ && _ && _); done. }
  rewrite !bool_decide_eq_true_2 by done. cbn [andb].
  rewrite targ_haps_both_alt_cases by done. destruct (_ && _ && _); done.
Qed.

(** X13: The resolver returns or raises [KeyError]: it never exits, since an
    allele equals the reference or differs from it, and no [ValueError]
    leaves it. *)
Theorem haplotype_targetability_outcome position sample chrdf gens cas :
  (∃ targ, haplotype_targetability position sample chrdf gens cas = Return targ)
  ∨ haplotype_targetability position sample chrdf gens cas = Raise KeyError.
Proof.
  destruct (decide (sample ∈ columns gens)) as [Hcol|Hcol].
  - destruct (genotype_at_cases position sample gens Hcol) as [[g Hg]|Hg].
    + destruct (split_genotype_cases g) as [(h1 & h2 & Hs)|Hs].
      * rewrite (haplotype_targetability_split _ _ _ _ _ _ _ _ Hg Hs).
        destruct (item_cases (ref <$> rows (query (λ r, pos r = position) chrdf)))
          as [(r & _ & ->)| ->]; [|left; by eexists].
        destruct (relevant_columns cas) as [[mk bk] nr].
        repeat case_bool_decide;
          rewrite ?targetable_haplotypes_cases, ?targ_haps_both_alt_cases by done;
          unfold mbind, py_bind; cbn [columns query];
          destruct (_ && _ && _); (by right) || (left; by eexists).
      * left. exists (false, false).
        unfold haplotype_targetability, haplotype_targetability_body, mbind, py_bind.
        by rewrite Hg, Hs.
    + left. exists (false, false).
      unfold haplotype_targetability, haplotype_targetability_body, mbind, py_bind.
      by rewrite Hg.
  - right.
    unfold haplotype_targetability, haplotype_targetability_body, mbind, py_bind,
      genotype_at.
    cbn [columns query]. by rewrite bool_decide_eq_false_2.
Qed.

(** A sample that is not a column of the genotype table makes the
    resolver raise [KeyError], which its [except] clause does not catch. *)
Theorem haplotype_targetability_unknown_sample position sample chrdf gens cas :
  sample ∉ columns gens →
  haplotype_targetability position sample chrdf gens cas = Raise KeyError.
Proof.
  intros Hcol.
  unfold haplotype_targetability, haplotype_targetability_body, mbind, py_bind,
    genotype_at.
  cbn [columns query]. by rewrite bool_decide_eq_false_2.
Qed.

Lemma haplotype_targetability_unknown_sample_witness :
  haplotype_targetability 10 "s2" chrdf_one_alt gens_example "SaCas9_KKH"
  = Raise KeyError.
Proof.
  apply (haplotype_targetability_unknown_sample 10 "s2" chrdf_one_alt gens_example).
  intros [[=]|[]%elem_of_nil]%elem_of_cons.
Defined.

End resolver_more.

Section resolver_phase.
Import ExcisionFinder.
Implicit Types (chrdf : DataFrame targ_row) (gens : DataFrame gen_row).

Lemma filter_and_then {A} (P Q : A → Prop) `{∀ x, Decision (P x)}
    `{∀ x, Decision (Q x)} (l : list A) :
  filter (λ x, P x ∧ Q x) l = filter Q (filter P l).
Proof.
  induction l as [|x l IH]; [done|].
  rewrite !filter_cons. destruct (decide (P x)) as [HP|HP].
  - rewrite filter_cons. destruct (decide (Q x)) as [HQ|HQ].
    + rewrite decide_True by done. by rewrite IH.
    + rewrite decide_False by (by intros [_ ?]). done.
  - rewrite decide_False by (by intros [? _]). done.
Qed.

(** X14: A single row at the position, carried on one haplotype with the
    reference on the other: the haplotype with the alternate allele is
    targetable by a make or a near column of the row, the haplotype with
    the reference by a break or a near column. *)
Theorem ref_alt_resolution position sample chrdf gens cas genotype hap1 hap2 row
    make_cols break_cols near_cols :
  genotype_at position sample gens = Return genotype →
  split_genotype genotype = Return (hap1, hap2) →
  filter (λ r, pos r = position) (rows chrdf) = [row] →
  relevant_columns cas = (make_cols, break_cols, near_cols) →
  cas_columns_present cas chrdf = true →
  hap1 ≠ hap2 →
  (hap1 = alt row ∧ hap2 = ref row →
   haplotype_targetability position sample chrdf gens cas
   = Return (existsb (flag row) make_cols || existsb (flag row) near_cols,
             existsb (flag row) break_cols || existsb (flag row) near_cols))
  ∧ (hap1 = ref row ∧ hap2 = alt row →
     haplotype_targetability position sample chrdf gens cas
     = Return (existsb (flag row) break_cols || existsb (flag row) near_cols,
               existsb (flag row) make_cols || existsb (flag row) near_cols)).
Proof.
  intros Hg Hs Hrow Hrel Hcas Hne.
  apply cas_columns_present_inv in Hcas as (mk & bk & nr & Hrel' & Hm & Hb & Hn).
  rewrite Hrel in Hrel'. injection Hrel' as <- <- <-.
  rewrite (haplotype_targetability_split _ _ _ _ _ _ _ _ Hg Hs).
  unfold query. cbn [rows columns]. rewrite Hrow. cbn [fmap list_fmap item].
  rewrite Hrel.
  assert (∀ allele, alt row = allele →
    targetable_haplotypes
      (mkDataFrame (columns chrdf)
         (filter (λ r, pos r = position ∧ alt r = allele) (rows chrdf)))
      make_cols break_cols near_cols
    = Return (existsb (flag row) make_cols || existsb (flag row) near_cols,
              existsb (flag row) break_cols || existsb (flag row) near_cols))
    as Hsel.
  { intros allele Ha. rewrite targetable_haplotypes_present by done.
    unfold any_flag. cbn [rows].
    rewrite (filter_and_then (λ r, pos r = position) (λ r, alt r = allele)), Hrow.
    rewrite filter_cons, decide_True by done. simpl. by rewrite !orb_false_r. }
  split.
  - intros [H1 H2]. rewrite bool_decide_eq_true_2 by done. by apply Hsel.
  - intros [H1 H2]. rewrite bool_decide_eq_false_2 by congruence.
    rewrite bool_decide_eq_true_2 by done.
    unfold mbind, py_bind. by rewrite Hsel.
Qed.

Lemma ref_alt_resolution_witness :
  (("A" : string) = "G" ∧ ("G" : string) = "A" →
   haplotype_targetability 10 "s1" chrdf_pairs gens_pairs "SaCas9_KKH"
   = Return (existsb (flags_of ["makes_SaCas9_KKH"]) ["makes_SaCas9_KKH"]
             || existsb (flags_of ["makes_SaCas9_KKH"]) ["var_near_SaCas9_KKH"],
             existsb (flags_of ["makes_SaCas9_KKH"]) ["breaks_SaCas9_KKH"]
             || existsb (flags_of ["makes_SaCas9_KKH"]) ["var_near_SaCas9_KKH"]))
  ∧ (("A" : string) = "A" ∧ ("G" : string) = "G" →
     haplotype_targetability 10 "s1" chrdf_pairs gens_pairs "SaCas9_KKH"
     = Return (existsb (flags_of ["makes_SaCas9_KKH"]) ["breaks_SaCas9_KKH"]
               || existsb (flags_of ["makes_SaCas9_KKH"]) ["var_near_SaCas9_KKH"],
               existsb (flags_of ["makes_SaCas9_KKH"]) ["makes_SaCas9_KKH"]
               || existsb (flags_of ["makes_SaCas9_KKH"]) ["var_near_SaCas9_KKH"])).
Proof.
  apply (ref_alt_resolution 10 "s1" chrdf_pairs gens_pairs "SaCas9_KKH" "A|G" "A" "G"
           (mk_targ_row 10 "A" "G" (flags_of ["makes_SaCas9_KKH"])));
    try reflexivity.
  discriminate.
Defined.

(** X15: Exchanging the two haplotypes of a heterozygous genotype of which one
    allele is the reference exchanges the two answers of the resolver. *)
Theorem phase_swap position chrdf cas sample gens genotype sample' gens' genotype'
    hap1 hap2 :
  genotype_at position sample gens = Return genotype →
  split_genotype genotype = Return (hap1, hap2) →
  genotype_at position sample' gens' = Return genotype' →
  split_genotype genotype' = Return (hap2, hap1) →
  cas_columns_present cas chrdf = true →
  hap1 ≠ hap2 →
  (∀ r, item (ref <$> rows (query (λ r, pos r = position) chrdf)) = Return r →
        hap1 = r ∨ hap2 = r) →
  ∃ targ_hap1 targ_hap2,
    haplotype_targetability position sample chrdf gens cas
    = Return (targ_hap1, targ_hap2)
    ∧ haplotype_targetability position sample' chrdf gens' cas
      = Return (targ_hap2, targ_hap1).
Proof.
  intros Hg Hs Hg' Hs' Hcas Hne Href.
  apply cas_columns_present_inv in Hcas as (mk & bk & nr & Hrel & Hm & Hb & Hn).
  rewrite (haplotype_targetability_split _ _ _ _ _ _ _ _ Hg Hs).
  rewrite (haplotype_targetability_split _ _ _ _ _ _ _ _ Hg' Hs').
  destruct (item_cases (ref <$> rows (query (λ r, pos r = position) chrdf)))
    as [(r & _ & Hr)|Hr]; rewrite Hr; [|by exists false, false].
  rewrite Hrel. unfold mbind, py_bind.
  destruct (Href r Hr) as [H1|H2].
  - rewrite (bool_decide_eq_false_2 (hap2 = r)) by congruence.
    rewrite (bool_decide_eq_true_2 (hap1 = r)) by done.
    rewrite targetable_haplotypes_present by done. by eexists _, _.
  - rewrite (bool_decide_eq_true_2 (hap2 = r)) by done.
    rewrite (bool_decide_eq_false_2 (hap1 = r)) by congruence.
    rewrite targetable_haplotypes_present by done. by eexists _, _.
Qed.

Lemma phase_swap_witness :
  ∃ targ_hap1 targ_hap2,
    haplotype_targetability 10 "s1" chrdf_pairs gens_pairs "SaCas9_KKH"
    = Return (targ_hap1, targ_hap2)
    ∧ haplotype_targetability 10 "s1" chrdf_pairs gens_pairs_swapped "SaCas9_KKH"
      = Return (targ_hap2, targ_hap1).
Proof.
  apply (phase_swap 10 chrdf_pairs "SaCas9_KKH" "s1" gens_pairs "A|G"
           "s1" gens_pairs_swapped "G|A" "A" "G"); try reflexivity.
  - discriminate.
  - intros r [= <-]. by left.
Defined.



(** X17: A position that the genotype table does not hold on exactly one row,
    or whose genotype does not hold exactly one bar, is resolved to
    (False, False) whatever the targetability table holds. *)
Theorem unreadable_genotype_default position sample chrdf gens cas :
  sample ∈ columns gens →
  length (filter (λ r, index r = position) (rows gens)) ≠ 1%nat
  ∨ (∃ genotype, genotype_at position sample gens = Return genotype
                 ∧ count_char "|" genotype ≠ 1%nat) →
  haplotype_targetability position sample chrdf gens cas = Return (false, false).
Proof.
  intros Hcol Hbad.
  unfold haplotype_targetability, haplotype_targetability_body, mbind, py_bind.
  destruct Hbad as [Hlen|(g & Hg & Hbar)].
  - assert (genotype_at position sample gens = Raise ValueError) as ->; [|done].
    unfold genotype_at. cbn [columns query rows].
    rewrite bool_decide_eq_true_2 by done.
    destruct (filter _ (rows gens)) as [|x [|y l]]; simpl in *; done.
  - rewrite Hg.
    assert (split_genotype g = Raise ValueError) as ->; [|done].
    unfold split_genotype. rewrite split_re_split.
    pose proof (re_split_length ["|"%char] g) as Hl.
    rewrite count_chars_singleton in Hl.
    destruct (re_split ["|"%char] g) as [|h1 [|h2 [|h3 l]]]; simpl in Hl; try done.
    lia.
Qed.

Lemma unreadable_genotype_default_witness :
  haplotype_targetability 20 "s1" chrdf_one_alt gens_example "SaCas9_KKH"
  = Return (false, false).
Proof.
  apply (unreadable_genotype_default 20 "s1" chrdf_one_alt gens_example).
  - apply elem_of_cons. by left.
  - left. vm_compute. lia.
Defined.

End resolver_phase.

(** * The annotations of the pair script *)

Section annotations.
Import ExcisionFinder.

(** X18: on annotations sorted by size, largest first, as
    [load_gene_annots] leaves them, [get_canonical] returns the name of a
    transcript of the gene that no other transcript of the gene exceeds in
    size, and exits exactly when the gene has no transcript. *)
Theorem get_canonical_longest (gene : string) (gene_annots : list annot_row) :
  StronglySorted (λ r1 r2, size_of r2 ≤ size_of r1) gene_annots →
  match get_canonical gene gene_annots with
  | Return transcript =>
      ∃ r, r ∈ gene_annots ∧ gene_name_of r = gene ∧ name r = transcript
           ∧ ∀ r', r' ∈ gene_annots → gene_name_of r' = gene →
                   size_of r' ≤ size_of r
  | Raise e => e = SystemExit ∧ ∀ r, r ∈ gene_annots → gene_name_of r ≠ gene
  end.
Proof.
  unfold get_canonical. induction 1 as [|x l Hl IH Hx]; simpl.
  - split; [done|]. by intros r ?%elem_of_nil.
  - rewrite filter_cons. destruct (decide (gene_name_of x = gene)) as [Hg|Hg].
    + exists x. split_and!; [left|done|done|].
      intros r' [->|Hin]%elem_of_cons _; [lia|].
      by apply (proj1 (Forall_forall _ _) Hx).
    + destruct (filter _ l) as [|r rest].
      * destruct IH as [_ IH]. split; [done|].
        intros r [->|Hin]%elem_of_cons; [done|by apply IH].
      * destruct IH as (r0 & Hin & Hg0 & Hn & Hmax).
        exists r0. split_and!; [by right|done|done|].
        intros r' [->|Hin']%elem_of_cons Hg'; [done|by apply Hmax].
Qed.

Lemma get_canonical_longest_witness :
  match get_canonical "HTT"
          [mk_annot_row "NM_2" "HTT" 0 0 [] [] 900;
           mk_annot_row "NM_9" "APP" 0 0 [] [] 500;
           mk_annot_row "NM_1" "HTT" 0 0 [] [] 100] with
  | Return transcript =>
      ∃ r, r ∈ [mk_annot_row "NM_2" "HTT" 0 0 [] [] 900;
                mk_annot_row "NM_9" "APP" 0 0 [] [] 500;
                mk_annot_row "NM_1" "HTT" 0 0 [] [] 100]
           ∧ gene_name_of r = "HTT" ∧ name r = transcript
           ∧ ∀ r', r' ∈ [mk_annot_row "NM_2" "HTT" 0 0 [] [] 900;
                         mk_annot_row "NM_9" "APP" 0 0 [] [] 500;
                         mk_annot_row "NM_1" "HTT" 0 0 [] [] 100] →
                   gene_name_of r' = "HTT" → size_of r' ≤ size_of r
  | Raise e =>
      e = SystemExit
      ∧ ∀ r, r ∈ [mk_annot_row "NM_2" "HTT" 0 0 [] [] 900;
                  mk_annot_row "NM_9" "APP" 0 0 [] [] 500;
                  mk_annot_row "NM_1" "HTT" 0 0 [] [] 100] →
             gene_name_of r ≠ "HTT"
  end.
Proof.
  apply (get_canonical_longest "HTT").
  repeat (constructor; [|repeat constructor; simpl; lia]). constructor.
Defined.


Lemma StronglySorted_lt_le (l : list Z) :
  StronglySorted Z.lt l → StronglySorted Z.le l ∧ NoDup l.
Proof.
  induction 1 as [|x l Hs [IH1 IH2] Hx]; split; constructor; try done.
  - eapply Forall_impl; [done|]. simpl. lia.
  - intros Hin. pose proof (proj1 (Forall_forall _ _) Hx x Hin). lia.
Qed.


Lemma sorted_increasing (l : list Z) :
  StronglySorted Z.lt l → sorted (elements (list_to_set l : gset Z)) = l.
Proof.
  intros Hl. destruct (StronglySorted_lt_le l Hl) as [Hle Hnd].
  apply (Sorted_unique Z.le).
  - apply Sorted_merge_sort. apply _.
  - by apply StronglySorted_Sorted.
  - unfold sorted. rewrite merge_sort_Permutation. by apply elements_list_to_set.
Qed.

Lemma elem_of_ce_starts (exonStarts : list Z) (cds_start cds_end s : Z) :
  s ∈ elements ((list_to_set exonStarts : gset Z)
                ∩ list_to_set (range cds_start (cds_end + 1)))
  ↔ s ∈ exonStarts ∧ cds_start ≤ s ≤ cds_end.
Proof.
  rewrite elem_of_elements, elem_of_intersection, !elem_of_list_to_set, elem_of_range.
  split; intros [? ?]; (split; [done|lia]).
Qed.

(** The rows of [exon_status_df] that are coding. *)
Lemma elem_of_coding_df (ce_starts_list starts stops : list Z) (row : exon_status) :
  row ∈ filter (λ row, codingStatus row = true)
          (imap (λ i se, mk_exon_status se.1 (bool_decide (se.1 ∈ ce_starts_list))
                                        (Z.of_nat i + 1) se.1 se.2)
                (zip starts stops))
  ↔ ∃ i s e, starts !! i = Some s ∧ stops !! i = Some e ∧ s ∈ ce_starts_list
             ∧ row = mk_exon_status s true (Z.of_nat i + 1) s e.
Proof.
  rewrite list_elem_of_filter, elem_of_lookup_imap. split.
  - intros [Hc (i & [s e] & -> & Hi)]. simpl in Hc.
    apply bool_decide_eq_true in Hc.
    apply lookup_zip_with_Some in Hi as (s' & e' & [= -> ->] & Hs & He).
    exists i, s', e'. simpl. by rewrite bool_decide_eq_true_2.
  - intros (i & s & e & Hs & He & Hin & ->). split; [done|].
    exists i, (s, e). simpl. rewrite bool_decide_eq_true_2 by done.
    split; [done|]. apply lookup_zip_with_Some. by exists s, e.
Qed.


(** X20: on a transcript whose exon starts and exon ends are increasing
    and as many, with an exon start inside the coding sequence,
    [get_coding_exons] returns, and the coding positions are the positions
    of the exons that start inside the coding sequence, from start to end. *)
Theorem get_coding_exons_increasing (exonStarts exonEnds : list Z) (cds_start cds_end : Z) :
  StronglySorted Z.lt exonStarts → StronglySorted Z.lt exonEnds →
  length exonStarts = length exonEnds →
  (∃ s, s ∈ exonStarts ∧ cds_start ≤ s ≤ cds_end) →
  ∃ exon_status_df n_coding_exons coding_range ce_starts,
    get_coding_exons exonStarts exonEnds cds_start cds_end
    = Return (exon_status_df, n_coding_exons, coding_range, ce_starts)
    ∧ start_hg19 <$> exon_status_df = exonStarts
    ∧ stop_hg19 <$> exon_status_df = exonEnds
    ∧ ∀ z, z ∈ coding_range
           ↔ ∃ s e, (s, e) ∈ zip exonStarts exonEnds
                    ∧ cds_start ≤ s ≤ cds_end ∧ s ≤ z ≤ e.
Proof.
  intros Hss Hes Hlen (s0 & Hs0 & Hcds0).
  unfold get_coding_exons.
  set (ce := elements (list_to_set exonStarts ∩ list_to_set (range cds_start (cds_end + 1)))).
  assert (∀ s, s ∈ ce ↔ s ∈ exonStarts ∧ cds_start ≤ s ≤ cds_end) as Hce
    by apply elem_of_ce_starts.
  rewrite !sorted_increasing by done.
  rewrite bool_decide_eq_false_2.
  2:{ intros Hn%length_zero_iff_nil. assert (s0 ∈ ce) as Hin by (by apply Hce).
      rewrite Hn in Hin. by apply elem_of_nil in Hin. }
  rewrite bool_decide_eq_false_2 by (by intros []).
  eexists _, _, _, _. split; [reflexivity|]. split_and!.
  - apply list_eq. intros i. rewrite list_lookup_fmap, list_lookup_imap.
    rewrite lookup_zip_with.
    destruct (exonStarts !! i) as [s|] eqn:Hs; [|done].
    destruct (lookup_lt_is_Some_2 exonEnds i) as [e ->]; [|done].
    rewrite <- Hlen. by eapply lookup_lt_Some.
  - apply list_eq. intros i. rewrite list_lookup_fmap, list_lookup_imap.
    rewrite lookup_zip_with.
    destruct (exonEnds !! i) as [e|] eqn:He.
    + destruct (lookup_lt_is_Some_2 exonStarts i) as [s ->]; [|done].
      rewrite Hlen. by eapply lookup_lt_Some.
    + by destruct (exonStarts !! i).
  - intros z. rewrite elem_of_list_to_set, list_elem_of_bind. split.
    + intros (row & Hz & (i & s & e & Hs & He & Hin & ->)%elem_of_coding_df).
      simpl in Hz. apply elem_of_range in Hz. apply Hce in Hin as [_ Hin].
      exists s, e. split_and!; try lia.
      apply list_elem_of_lookup. exists i. apply lookup_zip_with_Some. by exists s, e.
    + intros (s & e & [i Hi]%list_elem_of_lookup & Hcds & Hz).
      apply lookup_zip_with_Some in Hi as (s' & e' & [= <- <-] & Hs & He).
      exists (mk_exon_status s true (Z.of_nat i + 1) s e). split.
      * simpl. apply elem_of_range. lia.
      * apply elem_of_coding_df. exists i, s, e. split_and!; try done.
        apply Hce. split; [|done]. apply list_elem_of_lookup. by exists i.
Qed.

Lemma get_coding_exons_increasing_witness :
  ∃ exon_status_df n_coding_exons coding_range ce_starts,
    get_coding_exons [100; 500; 900] [150; 560; 970] 120 950
    = Return (exon_status_df, n_coding_exons, coding_range, ce_starts)
    ∧ start_hg19 <$> exon_status_df = [100; 500; 900]
    ∧ stop_hg19 <$> exon_status_df = [150; 560; 970]
    ∧ ∀ z, z ∈ coding_range
           ↔ ∃ s e, (s, e) ∈ zip [100; 500; 900] [150; 560; 970]
                    ∧ 120 ≤ s ≤ 950 ∧ s ≤ z ≤ e.
Proof.
  apply (get_coding_exons_increasing [100; 500; 900] [150; 560; 970] 120 950).
  - repeat (constructor; [|repeat constructor; lia]). constructor.
  - repeat (constructor; [|repeat constructor; lia]). constructor.
  - reflexivity.
  - exists 500. split; [|lia]. apply elem_of_cons. right. apply elem_of_cons. by left.
Defined.

End annotations.

(** * [main] of the pair script *)

Lemma py_bind_Return {A B} (a : A) (k : A → py B) : (Return a ≫= k) = k a.
Proof. reflexivity. Qed.

Lemma py_bind_Raise {A B} (e : exn) (k : A → py B) : (Raise e ≫= k) = Raise e.
Proof. reflexivity. Qed.

Section py_lists_more.
Context {A B : Type} (f : A → py B).

Lemma mapM_py_raise (l : list A) (e : exn) :
  (∀ x, x ∈ l → (∃ y, f x = Return y) ∨ f x = Raise e) →
  (∃ x, x ∈ l ∧ f x = Raise e) →
  mapM f l = Raise e.
Proof.
  induction l as [|x l IH]; intros Hall (x0 & Hin & Hx0).
  - by apply elem_of_nil in Hin.
  - rewrite mapM_py_cons.
    destruct (Hall x) as [[y Hy]|Hy]; [left| |by rewrite Hy].
    rewrite Hy, py_bind_Return.
    assert (mapM f l = Raise e) as Hl; [|by rewrite Hl].
    apply IH.
    + intros z Hz. apply Hall. by right.
    + apply elem_of_cons in Hin as [->|Hin]; [congruence|by exists x0].
Qed.

Lemma mapM_py_inv_in (l : list A) (k : list B) :
  mapM f l = Return k → Forall2 (λ x y, x ∈ l ∧ f x = Return y) l k.
Proof.
  revert k. induction l as [|x l IH]; intros k.
  - intros [= <-]. constructor.
  - rewrite mapM_py_cons.
    destruct (f x) as [y|e] eqn:Hx; [|done]. rewrite py_bind_Return.
    destruct (mapM f l) as [k'|e]; [|done]. rewrite py_bind_Return.
    intros [= <-]. constructor; [split; [left|done]|].
    eapply Forall2_impl; [by apply IH|]. intros x' y' [? ?]. split; [by right|done].
Qed.

Lemma Forall2_computed_l (l : list A) (k : list B) (P : A → B → Prop) x :
  Forall2 P l k → x ∈ l → ∃ y, y ∈ k ∧ P x y.
Proof.
  induction 1 as [|x' y' l k Hxy _ IH]; intros Hin; [by apply elem_of_nil in Hin|].
  apply elem_of_cons in Hin as [->|Hin].
  - exists y'. split; [left|done].
  - destruct (IH Hin) as (y & Hy & HP). exists y. split; [by right|done].
Qed.

Lemma Forall2_computed_r (l : list A) (k : list B) (P : A → B → Prop) y :
  Forall2 P l k → y ∈ k → ∃ x, x ∈ l ∧ P x y.
Proof.
  induction 1 as [|x' y' l k Hxy _ IH]; intros Hin; [by apply elem_of_nil in Hin|].
  apply elem_of_cons in Hin as [->|Hin].
  - exists x'. split; [left|done].
  - destruct (IH Hin) as (x & Hx & HP). exists x. split; [by right|done].
Qed.

End py_lists_more.

Lemma two_elements_length {A} (l : list A) (x y : A) :
  x ∈ l → y ∈ l → x ≠ y → (2 ≤ length l)%nat.
Proof.
  destruct l as [|a [|b l]]; simpl; intros Hx Hy Hne; [|exfalso|lia].
  - by apply elem_of_nil in Hx.
  - apply list_elem_of_singleton in Hx, Hy. congruence.
Qed.

Section hetroigens.
Import ExcisionFinder.
Implicit Types (gens : DataFrame gen_row) (hetroigens : DataFrame het_row).

Lemma het_cases genotype :
  (∃ b, het genotype = Return b) ∨ het genotype = Raise ValueError.
Proof.
  unfold het, mbind, py_bind.
  destruct (split_genotype_cases genotype) as [(h1 & h2 & ->)| ->]; eauto.
Qed.

Lemma genotypes_well_formed_true gens :
  genotypes_well_formed gens = true
  ↔ ∀ r ind, r ∈ rows gens → ind ∈ columns gens →
             ∃ b, het (genotype_of r ind) = Return b.
Proof.
  unfold genotypes_well_formed. rewrite forallb_forall. split.
  - intros H r ind Hr Hind. apply list_elem_of_In, H in Hr.
    rewrite forallb_forall in Hr. apply list_elem_of_In, Hr in Hind.
    destruct (het (genotype_of r ind)); [by eexists|done].
  - intros H r Hr%list_elem_of_In. apply forallb_forall.
    intros ind Hind%list_elem_of_In. by destruct (H r ind Hr Hind) as [b ->].
Qed.

Lemma applymap_het_row gens (r : gen_row) :
  NoDup (columns gens) →
  (∀ ind, ind ∈ columns gens → ∃ b, het (genotype_of r ind) = Return b) →
  ∃ hr, (cells ← mapM (λ ind, het (genotype_of r ind)) (columns gens);
         Return (mk_het_row (index r) (list_to_map (zip (columns gens) cells))))
        = Return hr
        ∧ het_row_of gens r hr.
Proof.
  intros Hnd Hall.
  destruct (mapM_py_returns (λ ind, het (genotype_of r ind)) (columns gens) Hall)
    as [cells Hcells].
  rewrite Hcells. eexists. split; [reflexivity|].
  apply mapM_py_inv in Hcells. split; [done|].
  intros ind Hind. destruct (Hall ind Hind) as [b Hb]. rewrite Hb. f_equal.
  unfold is_het. cbn [het_cells].
  assert ((ind, b) ∈ zip (columns gens) cells) as Hin
    by (by apply (elem_of_zip_computed _ _ _ _ _ Hcells)).
  apply (elem_of_list_to_map_1 (M:=gmap string)) in Hin as ->; [done|].
  rewrite fst_zip; [done|]. by rewrite (Forall2_length _ _ _ Hcells).
Qed.

Lemma applymap_het_returns gens :
  NoDup (columns gens) → genotypes_well_formed gens = true →
  ∃ hetroigens, applymap_het gens = Return hetroigens
    ∧ columns hetroigens = columns gens
    ∧ Forall2 (het_row_of gens) (rows gens) (rows hetroigens).
Proof.
  intros Hnd Hwf. unfold applymap_het.
  pose proof (proj1 (genotypes_well_formed_true gens) Hwf) as Hall.
  set (f := λ r : gen_row,
         cells ← mapM (λ ind, het (genotype_of r ind)) (columns gens);
         Return (mk_het_row (index r) (list_to_map (zip (columns gens) cells)))).
  destruct (mapM_py_returns f (rows gens)) as [het_rows Hrows].
  { intros r Hr. destruct (applymap_het_row gens r Hnd) as (hr & Hhr & _);
      [by intros; apply Hall|by exists hr]. }
  rewrite Hrows. eexists. split; [reflexivity|]. split; [done|].
  cbn [rows]. apply mapM_py_inv_in in Hrows.
  eapply Forall2_impl; [done|]. intros r hr [Hr Hf].
  destruct (applymap_het_row gens r Hnd) as (hr' & Hhr' & Hrel);
    [by intros; apply Hall|].
  unfold f in Hf. rewrite Hhr' in Hf. by injection Hf as <-.
Qed.

Lemma forallb_false {A} (p : A → bool) (l : list A) :
  forallb p l = false → ∃ x, x ∈ l ∧ p x = false.
Proof.
  induction l as [|x l IH]; simpl; [done|].
  destruct (p x) eqn:Hx; simpl.
  - intros (y & Hy & Hp)%IH. exists y. split; [by right|done].
  - intros _. exists x. split; [left|done].
Qed.

(** A genotype that does not split in two makes [applymap] raise. *)
Lemma applymap_het_raises gens :
  genotypes_well_formed gens = false → applymap_het gens = Raise ValueError.
Proof.
  intros Hwf. unfold applymap_het.
  set (good := λ (r : gen_row) (ind : string),
         match het (genotype_of r ind) with Return _ => true | Raise _ => false end).
  set (f := λ r : gen_row,
         cells ← mapM (λ ind, het (genotype_of r ind)) (columns gens);
         Return (mk_het_row (index r) (list_to_map (zip (columns gens) cells)))).
  assert (∀ r, if forallb (good r) (columns gens)
               then ∃ hr, f r = Return hr else f r = Raise ValueError) as Hrow.
  { intros r. destruct (forallb (good r) (columns gens)) eqn:Hg.
    - rewrite forallb_forall in Hg.
      destruct (mapM_py_returns (λ ind, het (genotype_of r ind)) (columns gens))
        as [cells Hcells].
      { intros ind Hind%list_elem_of_In%Hg. unfold good in Hind.
        destruct (het (genotype_of r ind)); [by eexists|done]. }
      unfold f. rewrite Hcells. by eexists.
    - apply forallb_false in Hg as (ind & Hind & Hbad). unfold good in Hbad.
      unfold f. rewrite (mapM_py_raise _ _ ValueError); [done| |].
      + intros ind' _. apply het_cases.
      + exists ind. split; [done|].
        destruct (het_cases (genotype_of r ind)) as [[b Hb]|]; [|done].
        by rewrite Hb in Hbad. }
  change (mapM _ (rows gens)) with (mapM f (rows gens)).
  rewrite (mapM_py_raise _ _ ValueError); [done| |].
  - intros r _. specialize (Hrow r). destruct (forallb _ _); [by left|by right].
  - apply forallb_false in Hwf as (r & Hr & Hbad). exists r. split; [done|].
    specialize (Hrow r). fold (good r) in Hbad. by rewrite Hbad in Hrow.
Qed.

End hetroigens.

Section main_tables.
Import ExcisionFinder.
Implicit Types (gens : DataFrame gen_row) (hetroigens : DataFrame het_row).

(** The report of one pass of the loop, read on the genotype table. *)
Lemma pair_mode_reported (cas : string) (variants : list Z)
    (coding_positions : gset Z) (coding_exon_starts : list Z)
    (het_vars_per_ind : list (string * list Z))
    (chrdf : DataFrame targ_row) (gens : DataFrame gen_row) (sample : string) :
  present het_vars_per_ind.*1 (columns gens) = true →
  cas_columns_present cas chrdf = true →
  (∃ final_targ,
     pair_mode cas variants coding_positions coding_exon_starts het_vars_per_ind
               chrdf gens = Return final_targ
     ∧ (sample, true) ∈ final_targ)
  ↔ ∃ a b,
      (a, b) ∈ targ_pairs_tuple variants coding_positions coding_exon_starts
      ∧ het_in het_vars_per_ind sample a ∧ het_in het_vars_per_ind sample b
      ∧ ∃ ta tb,
          haplotype_targetability a sample chrdf gens cas = Return ta
          ∧ haplotype_targetability b sample chrdf gens cas = Return tb
          ∧ (ta.1 = true ∧ tb.1 = true ∨ ta.2 = true ∧ tb.2 = true).
Proof.
  intros Hsamples Hcas. unfold pair_mode.
  set (pairs := targ_pairs_tuple variants coding_positions coding_exon_starts).
  set (eligible := eligible_variants variants coding_positions coding_exon_starts).
  set (targ_haps := query (λ r, pos_of r ∈ eligible) (long_form het_vars_per_ind)).
  assert (∀ r, r ∈ rows targ_haps → sample_of r ∈ columns gens) as Hcols.
  { intros r (_ & (hets & Hin & _) & _)%elem_of_eligible_rows.
    apply (proj1 (present_true _ _) Hsamples).
    apply list_elem_of_fmap. by exists (sample_of r, hets). }
  assert (∀ s p q, het_in het_vars_per_ind s p → ((p, q) ∈ pairs ∨ (q, p) ∈ pairs) →
            mk_haps_row s p (λ _, false) ∈ rows targ_haps) as Hrow.
  { intros s p q Hhet Hpq. apply elem_of_eligible_rows. simpl.
    split; [|done]. apply elem_of_eligible_variants. by exists q. }
  split.
  - intros (final_targ & Hrun & Hin).
    destruct (is_empty targ_haps) eqn:Hemp; [done|].
    destruct (evaluate_cas_returns cas chrdf gens pairs het_vars_per_ind.*1 targ_haps)
      as (values & targ & Hvalues & Htarg & Heval); [done| |done|].
    { intros Hnil%is_empty_rows. congruence. }
    rewrite Heval in Hrun. injection Hrun as <-. simpl in Hin.
    apply (elem_of_zip_computed _ _ _ _ _ Htarg) in Hin as [_ Hsample].
    destruct (has_targ_pos_pair_same_hap_spec cas pairs sample
                (assign_haps cas targ_haps values)) as (b' & Hb' & Hiff).
    { apply elem_of_add_label_mono, elem_of_add_label. }
    { apply elem_of_add_label. }
    rewrite Hb' in Hsample. injection Hsample as ->.
    destruct (proj1 Hiff eq_refl) as (a & b & Hab & Hsame).
    pose proof (on_hap_assigned cas chrdf gens targ_haps values sample a Hvalues)
      as [Ha1 Ha2].
    pose proof (on_hap_assigned cas chrdf gens targ_haps values sample b Hvalues)
      as [Hb1 Hb2].
    exists a, b. split; [done|].
    destruct Hsame as [[Ha Hb]|[Ha Hb]].
    + apply Ha1 in Ha as (ra & ta & Hra & Hta & <- & <- & Hta1).
      apply Hb1 in Hb as (rb & tb & Hrb & Htb & Hsb & <- & Htb1).
      apply elem_of_eligible_rows in Hra as (_ & Hhet_a & _).
      apply elem_of_eligible_rows in Hrb as (_ & Hhet_b & _).
      rewrite Hsb in Hhet_b. unfold resolve in Hta, Htb. rewrite Hsb in Htb.
      split_and!; [done..|]. exists ta, tb. auto.
    + apply Ha2 in Ha as (ra & ta & Hra & Hta & <- & <- & Hta1).
      apply Hb2 in Hb as (rb & tb & Hrb & Htb & Hsb & <- & Htb1).
      apply elem_of_eligible_rows in Hra as (_ & Hhet_a & _).
      apply elem_of_eligible_rows in Hrb as (_ & Hhet_b & _).
      rewrite Hsb in Hhet_b. unfold resolve in Hta, Htb. rewrite Hsb in Htb.
      split_and!; [done..|]. exists ta, tb. auto.
  - intros (a & b & Hab & Hhet_a & Hhet_b & ta & tb & Hta & Htb & Hsame).
    pose proof (Hrow sample a b Hhet_a (or_introl Hab)) as Hra.
    pose proof (Hrow sample b a Hhet_b (or_intror Hab)) as Hrb.
    destruct (is_empty targ_haps) eqn:Hemp.
    { apply is_empty_rows in Hemp. rewrite Hemp in Hra. by apply elem_of_nil in Hra. }
    destruct (evaluate_cas_returns cas chrdf gens pairs het_vars_per_ind.*1 targ_haps)
      as (values & targ & Hvalues & Htarg & Heval); [done| |done|].
    { intros Hnil%is_empty_rows. congruence. }
    rewrite Heval. eexists. split; [reflexivity|]. simpl.
    apply (elem_of_zip_computed _ _ _ _ _ Htarg). split.
    { destruct Hhet_a as (hets & Hin & _).
      apply list_elem_of_fmap. by exists (sample, hets). }
    destruct (has_targ_pos_pair_same_hap_spec cas pairs sample
                (assign_haps cas targ_haps values)) as (b' & Hb' & Hiff).
    { apply elem_of_add_label_mono, elem_of_add_label. }
    { apply elem_of_add_label. }
    rewrite Hb'. f_equal. apply Hiff. exists a, b. split; [done|].
    pose proof (on_hap_assigned cas chrdf gens targ_haps values sample a Hvalues)
      as [Ha1 Ha2].
    pose proof (on_hap_assigned cas chrdf gens targ_haps values sample b Hvalues)
      as [Hb1 Hb2].
    destruct Hsame as [[Hta1 Htb1]|[Hta2 Htb2]]; [left|right]; split.
    + apply Ha1. by exists (mk_haps_row sample a (λ _, false)), ta.
    + apply Hb1. by exists (mk_haps_row sample b (λ _, false)), tb.
    + apply Ha2. by exists (mk_haps_row sample a (λ _, false)), ta.
    + apply Hb2. by exists (mk_haps_row sample b (λ _, false)), tb.
Qed.

Lemma filter_ext_in {A} (P Q : A → Prop) `{∀ x, Decision (P x)}
    `{∀ x, Decision (Q x)} (l : list A) :
  (∀ x, x ∈ l → P x ↔ Q x) → filter P l = filter Q l.
Proof.
  induction l as [|x l IH]; intros Hext; [done|].
  rewrite !filter_cons.
  assert (filter P l = filter Q l) as -> by (apply IH; intros; apply Hext; by right).
  destruct (decide (P x)) as [HP|HP].
  - rewrite decide_True; [done|]. apply Hext; [left|done].
  - rewrite decide_False; [done|]. intros HQ. apply HP, Hext; [left|done].
Qed.

Lemma het_genotype_true genotype : het_genotype genotype = true ↔ het genotype = Return true.
Proof.
  unfold het_genotype. destruct (het genotype) as [[]|]; split; congruence.
Qed.

(** [hetroigens] read on the genotype table. *)
Lemma hetroigens_filter_rows gens (l : list gen_row) (het_rows : list het_row) ind :
  ind ∈ columns gens →
  Forall2 (het_row_of gens) l het_rows →
  het_index <$> filter (λ r, is_het r ind = true) het_rows
  = index <$> filter (λ r, het_genotype (genotype_of r ind) = true) l.
Proof.
  intros Hind. induction 1 as [|r hr l k [Hidx Hcell] _ IH]; [done|].
  rewrite !filter_cons.
  specialize (Hcell ind Hind).
  destruct (is_het hr ind) eqn:Hh.
  - rewrite decide_True by done.
    rewrite decide_True by (by apply het_genotype_true).
    by rewrite !fmap_cons, Hidx, IH.
  - rewrite decide_False by done.
    rewrite decide_False; [done|]. rewrite het_genotype_true, Hcell. congruence.
Qed.

Lemma hetroigens_filter gens (het_rows : list het_row) ind :
  ind ∈ columns gens →
  Forall2 (het_row_of gens) (rows gens) het_rows →
  het_index <$> filter (λ r, is_het r ind = true) het_rows = het_positions gens ind.
Proof. intros Hind Hrows. by apply (hetroigens_filter_rows gens). Qed.

Lemma hetroigens_index gens (l : list gen_row) (het_rows : list het_row) :
  Forall2 (het_row_of gens) l het_rows → het_index <$> het_rows = index <$> l.
Proof.
  induction 1 as [|r hr l k [Hidx _] _ IH]; [done|].
  by rewrite !fmap_cons, Hidx, IH.
Qed.

Lemma hetroigens_read gens hetroigens :
  columns hetroigens = columns gens →
  Forall2 (het_row_of gens) (rows gens) (rows hetroigens) →
  enough_hets_of hetroigens = enough_samples gens
  ∧ het_index <$> rows hetroigens = index <$> rows gens
  ∧ het_vars_per_ind_of hetroigens (enough_samples gens)
    = (λ ind, (ind, het_positions gens ind)) <$> enough_samples gens.
Proof.
  intros Hcols Hrows. split_and!.
  - unfold enough_hets_of, enough_samples. rewrite Hcols.
    apply filter_ext_in. intros ind Hind.
    unfold column_sum, het_count.
    rewrite <- (length_fmap het_index), (hetroigens_filter gens _ ind Hind Hrows).
    unfold het_positions. by rewrite length_fmap.
  - by apply (hetroigens_index gens).
  - unfold het_vars_per_ind_of. apply list_eq. intros i.
    rewrite !list_lookup_fmap.
    destruct (enough_samples gens !! i) as [ind|] eqn:Hi; [|done].
    simpl. do 2 f_equal. apply hetroigens_filter; [|done].
    apply list_elem_of_lookup_2 in Hi.
    by apply list_elem_of_filter in Hi as [_ ?].
Qed.

(** [main] on a genotype table whose genotypes all split in two, with
    what it computes from [hetroigens] read on the genotype table. *)
Lemma main_well_formed (coding_positions : gset Z) (coding_exon_starts : list Z)
    (chrdf : DataFrame targ_row) gens :
  NoDup (columns gens) → genotypes_well_formed gens = true →
  main coding_positions coding_exon_starts chrdf gens
  = if is_empty chrdf then Raise SystemExit
    else if bool_decide (length (enough_samples gens) < 1)%nat then Raise SystemExit
    else
      let pairs := targ_pairs_tuple (table_variants gens) coding_positions
                                    coding_exon_starts in
      let eligible := eligible_variants (table_variants gens) coding_positions
                                        coding_exon_starts in
      let targ_haps :=
        query (λ r, pos_of r ∈ eligible)
              (long_form ((λ ind, (ind, het_positions gens ind))
                            <$> enough_samples gens)) in
      if is_empty targ_haps then Raise SystemExit
      else
        r ← evaluate_cas "SaCas9_KKH" chrdf gens pairs (enough_samples gens) targ_haps;
        Return (mk_final_targ (enough_samples gens) [("targ_SaCas9_KKH", r.2)]
                  (any_axis1 (length (enough_samples gens))
                             [("targ_SaCas9_KKH", r.2)]),
                r.1).
Proof.
  intros Hnd Hwf. unfold main.
  destruct (is_empty chrdf); [done|].
  destruct (applymap_het_returns gens Hnd Hwf) as (hg & -> & Hcols & Hrows).
  rewrite py_bind_Return. cbv zeta.
  destruct (hetroigens_read gens hg Hcols Hrows) as (-> & Hidx & ->).
  unfold table_variants. rewrite Hidx.
  case_bool_decide; [done|].
  destruct (is_empty _); [done|].
  cbn [tail CAS_LIST cas_loop].
  destruct (evaluate_cas _ _ _ _ _ _) as [[th targ]|e]; done.
Qed.

End main_tables.

Section main_properties.
Import ExcisionFinder.
Implicit Types (gens : DataFrame gen_row) (chrdf : DataFrame targ_row).

Lemma elem_of_het_positions gens ind p : p ∈ het_positions gens ind ↔ het_at gens ind p.
Proof.
  unfold het_positions, het_at. rewrite list_elem_of_fmap. split.
  - intros (r & -> & [Hh Hr]%list_elem_of_filter). exists r.
    by apply het_genotype_true in Hh.
  - intros (r & Hr & <- & Hh). exists r. split; [done|].
    apply list_elem_of_filter. split; [by apply het_genotype_true|done].
Qed.

Lemma elem_of_enough_samples gens ind :
  ind ∈ enough_samples gens ↔ (2 ≤ het_count gens ind)%nat ∧ ind ∈ columns gens.
Proof. unfold enough_samples. by rewrite list_elem_of_filter. Qed.

Lemma two_het_positions gens ind a b :
  het_at gens ind a → het_at gens ind b → a ≠ b → (2 ≤ het_count gens ind)%nat.
Proof.
  intros (ra & Hra & <- & Ha) (rb & Hrb & <- & Hb) Hne. unfold het_count.
  apply (two_elements_length _ ra rb).
  - apply list_elem_of_filter. split; [by apply het_genotype_true|done].
  - apply list_elem_of_filter. split; [by apply het_genotype_true|done].
  - by intros ->.
Qed.

Lemma het_in_read gens ind p :
  het_in ((λ ind, (ind, het_positions gens ind)) <$> enough_samples gens) ind p
  ↔ ind ∈ enough_samples gens ∧ het_at gens ind p.
Proof.
  unfold het_in. split.
  - intros (hets & (ind' & [= <- ->] & Hin)%list_elem_of_fmap & Hp).
    by apply elem_of_het_positions in Hp.
  - intros [Hin Hp]. exists (het_positions gens ind). split.
    + apply list_elem_of_fmap. by exists ind.
    + by apply elem_of_het_positions.
Qed.

Lemma enough_samples_keys gens :
  ((λ ind, (ind, het_positions gens ind)) <$> enough_samples gens).*1
  = enough_samples gens.
Proof. rewrite <- list_fmap_compose. apply list_fmap_id. Qed.

Lemma elem_of_table_variants gens a :
  a ∈ table_variants gens ↔ ∃ r, r ∈ rows gens ∧ index r = a.
Proof.
  unfold table_variants, sorted. rewrite merge_sort_Permutation, list_elem_of_fmap.
  split; intros (r & ? & ?); by exists r.
Qed.

Lemma any_axis1_single (name : string) (col : list bool) :
  any_axis1 (length col) [(name, col)] = col.
Proof.
  unfold any_axis1. apply list_eq. intros i. rewrite list_lookup_fmap.
  destruct (col !! i) as [b|] eqn:Hi.
  - rewrite lookup_seq_lt by (by eapply lookup_lt_Some).
    simpl. by rewrite Hi, orb_false_r.
  - rewrite lookup_seq_ge; [done|]. by apply lookup_ge_None.
Qed.

(** X21: [main] stops on a genotype that does not split in two at a bar,
    anywhere in the table: with a targetability table that is not empty,
    it raises [ValueError], whatever else the tables hold. *)
Theorem main_malformed_genotype (coding_positions : gset Z)
    (coding_exon_starts : list Z) chrdf gens :
  rows chrdf ≠ [] → genotypes_well_formed gens = false →
  main coding_positions coding_exon_starts chrdf gens = Raise ValueError.
Proof.
  intros Hrows Hwf. unfold main.
  destruct (is_empty chrdf) eqn:Hemp.
  { by apply is_empty_rows in Hemp. }
  by rewrite applymap_het_raises.
Qed.

Lemma main_malformed_genotype_witness :
  main (list_to_set (range 15 25)) [15] chrdf_pairs gens_unphased = Raise ValueError.
Proof.
  apply (main_malformed_genotype (list_to_set (range 15 25)) [15] chrdf_pairs gens_unphased).
  - discriminate.
  - reflexivity.
Defined.

End main_properties.

Section main_report.
Import ExcisionFinder.
Implicit Types (gens : DataFrame gen_row) (chrdf : DataFrame targ_row).

(** X22: [main], from the loaded tables to [final_targ].  On a genotype
    table with distinct sample labels whose genotypes all split in two,
    and a targetability table that has the columns of SaCas9_KKH, a
    sample gets True in the column [targ_SaCas9_KKH] exactly when the
    targetability table is not empty and the sample is heterozygous at two
    different positions of the genotype table, at most 10,000 bp apart,
    that the classifier accepts and that the resolver finds targetable on
    the same haplotype. *)
Theorem main_reports (coding_positions : gset Z) (coding_exon_starts : list Z)
    chrdf gens (sample : string) :
  NoDup (columns gens) → genotypes_well_formed gens = true →
  cas_columns_present "SaCas9_KKH" chrdf = true →
  (∃ out targ_haps col,
     main coding_positions coding_exon_starts chrdf gens = Return (out, targ_haps)
     ∧ ft_targ out = [("targ_SaCas9_KKH", col)]
     ∧ (sample, true) ∈ zip (ft_sample out) col)
  ↔ rows chrdf ≠ [] ∧ sample ∈ columns gens
    ∧ ∃ a b,
        a ≠ b ∧ Z.abs (a - b) ≤ 10000
        ∧ targ_pair a b coding_positions coding_exon_starts = true
        ∧ het_at gens sample a ∧ het_at gens sample b
        ∧ ∃ ta tb,
            haplotype_targetability a sample chrdf gens "SaCas9_KKH" = Return ta
            ∧ haplotype_targetability b sample chrdf gens "SaCas9_KKH" = Return tb
            ∧ (ta.1 = true ∧ tb.1 = true ∨ ta.2 = true ∧ tb.2 = true).
Proof.
  intros Hnd Hwf Hcas. rewrite main_well_formed by done.
  set (hv := (λ ind, (ind, het_positions gens ind)) <$> enough_samples gens).
  pose proof (pair_mode_reported "SaCas9_KKH" (table_variants gens) coding_positions
                coding_exon_starts hv chrdf gens sample) as Hpm.
  pose proof (enough_samples_keys gens) as Hkeys. fold hv in Hkeys.
  unfold pair_mode in Hpm. cbv zeta in Hpm |- *. rewrite !Hkeys in Hpm.
  assert (present (enough_samples gens) (columns gens) = true) as Hpres.
  { apply present_true. by intros c [_ ?]%elem_of_enough_samples. }
  specialize (Hpm Hpres Hcas).
  set (tail := if is_empty _ then _ else _) in Hpm.
  assert (is_empty chrdf = false ∧ (1 ≤ length (enough_samples gens))%nat
          ∧ (∃ report, tail = Return report ∧ (sample, true) ∈ report)
          ↔ rows chrdf ≠ [] ∧ sample ∈ columns gens
            ∧ ∃ a b,
                a ≠ b ∧ Z.abs (a - b) ≤ 10000
                ∧ targ_pair a b coding_positions coding_exon_starts = true
                ∧ het_at gens sample a ∧ het_at gens sample b
                ∧ ∃ ta tb,
                    haplotype_targetability a sample chrdf gens "SaCas9_KKH" = Return ta
                    ∧ haplotype_targetability b sample chrdf gens "SaCas9_KKH" = Return tb
                    ∧ (ta.1 = true ∧ tb.1 = true ∨ ta.2 = true ∧ tb.2 = true))
    as Hspec.
  { rewrite Hpm. split.
    - intros (Hemp & Hlen & a & b & Hab & Ha & Hb & Hres).
      apply het_in_read in Ha as [Hin Ha]. apply het_in_read in Hb as [_ Hb].
      apply elem_of_targ_pairs_tuple in Hab as (_ & _ & Hne & Hwin & Ht).
      split; [intros Hnil%is_empty_rows; congruence|].
      split; [by apply elem_of_enough_samples in Hin as [_ ?]|].
      exists a, b. by split_and!.
    - intros (Hrows & Hcol & a & b & Hne & Hwin & Ht & Ha & Hb & Hres).
      assert (sample ∈ enough_samples gens) as Hin.
      { apply elem_of_enough_samples. split; [|done].
        by apply (two_het_positions gens sample a b). }
      split_and!.
      + destruct (is_empty chrdf) eqn:Hemp; [|done].
        by apply is_empty_rows in Hemp.
      + destruct (enough_samples gens); [by apply elem_of_nil in Hin|simpl; lia].
      + exists a, b. split_and!; try (by apply het_in_read); [|done].
        apply elem_of_targ_pairs_tuple. split_and!; try done.
        * destruct Ha as (r & Hr & Hi & _). apply elem_of_table_variants. by exists r.
        * destruct Hb as (r & Hr & Hi & _). apply elem_of_table_variants. by exists r. }
  rewrite <- Hspec. clear Hspec Hpm. subst tail.
  destruct (is_empty chrdf).
  { split; [by intros (? & ? & ? & ? & _)|by intros [? _]]. }
  case_bool_decide as Hlen.
  { split; [by intros (? & ? & ? & ? & _)|intros (_ & ? & _); lia]. }
  destruct (is_empty (query _ _)).
  { split; [by intros (? & ? & ? & ? & _)|by intros (_ & _ & ? & ? & _)]. }
  destruct (evaluate_cas _ _ _ _ _ _) as [[th targ]|e].
  - rewrite !py_bind_Return. cbn [fst snd]. split.
    + intros (out & th' & col & [= <- <-] & [= <-] & Hin). cbn [ft_sample] in Hin.
      split_and!; [done|lia|]. by eexists.
    + intros (_ & _ & report & [= <-] & Hin). by eexists _, _, _.
  - rewrite !py_bind_Raise. split; [by intros (? & ? & ? & ? & _)|].
    by intros (_ & _ & ? & ? & _).
Qed.

Lemma main_reports_witness :
  (∃ out targ_haps col,
     main (list_to_set (range 15 25)) [15] chrdf_pairs gens_pairs = Return (out, targ_haps)
     ∧ ft_targ out = [("targ_SaCas9_KKH", col)]
     ∧ ("s1", true) ∈ zip (ft_sample out) col)
  ↔ rows chrdf_pairs ≠ [] ∧ "s1" ∈ columns gens_pairs
    ∧ ∃ a b,
        a ≠ b ∧ Z.abs (a - b) ≤ 10000
        ∧ targ_pair a b (list_to_set (range 15 25)) [15] = true
        ∧ het_at gens_pairs "s1" a ∧ het_at gens_pairs "s1" b
        ∧ ∃ ta tb,
            haplotype_targetability a "s1" chrdf_pairs gens_pairs "SaCas9_KKH" = Return ta
            ∧ haplotype_targetability b "s1" chrdf_pairs gens_pairs "SaCas9_KKH" = Return tb
            ∧ (ta.1 = true ∧ tb.1 = true ∨ ta.2 = true ∧ tb.2 = true).
Proof.
  apply (main_reports (list_to_set (range 15 25)) [15] chrdf_pairs gens_pairs "s1").
  - apply NoDup_singleton.
  - reflexivity.
  - reflexivity.
Defined.

End main_report.

Section main_outcomes.
Import ExcisionFinder.
Implicit Types (gens : DataFrame gen_row) (chrdf : DataFrame targ_row).

(** X23: how [main] ends on a genotype table with a row at least and distinct
    sample labels, whose genotypes all split in two, and a targetability table
    that has the columns of SaCas9_KKH.  It exits when the targetability table
    is empty, when no sample is heterozygous on two rows, or when no
    heterozygous position of such a sample is in a generated pair, and it
    raises nothing else.  Otherwise [final_targ] lists the samples that are
    heterozygous on two rows at least, in the order of the columns, with one
    value each in [targ_SaCas9_KKH], and [targ_all] is that column;
    [targ_haps] has a row for each such sample and heterozygous position of
    the sample that is in a generated pair, and no other. *)
Theorem main_outcome (coding_positions : gset Z) (coding_exon_starts : list Z)
    chrdf gens :
  NoDup (columns gens) → rows gens ≠ [] → genotypes_well_formed gens = true →
  cas_columns_present "SaCas9_KKH" chrdf = true →
  match main coding_positions coding_exon_starts chrdf gens with
  | Return (out, targ_haps) =>
      rows chrdf ≠ []
      ∧ ft_sample out = enough_samples gens
      ∧ (∃ col, ft_targ out = [("targ_SaCas9_KKH", col)]
                ∧ length col = length (ft_sample out)
                ∧ ft_targ_all out = col)
      ∧ rows targ_haps ≠ []
      ∧ ∀ s p, (∃ r, r ∈ rows targ_haps ∧ sample_of r = s ∧ pos_of r = p)
               ↔ s ∈ enough_samples gens ∧ het_at gens s p
                 ∧ p ∈ eligible_variants (table_variants gens) coding_positions
                                         coding_exon_starts
  | Raise e =>
      e = SystemExit
      ∧ (rows chrdf = [] ∨ enough_samples gens = []
         ∨ ∀ s p, s ∈ enough_samples gens → het_at gens s p →
                  p ∉ eligible_variants (table_variants gens) coding_positions
                                        coding_exon_starts)
  end.
Proof.
  intros Hnd _ Hwf Hcas. rewrite main_well_formed by done. cbv zeta.
  destruct (is_empty chrdf) eqn:Hchr.
  { split; [done|]. left. by apply is_empty_rows. }
  case_bool_decide as Hlen.
  { split; [done|]. right; left. destruct (enough_samples gens); [done|simpl in Hlen; lia]. }
  set (eligible := eligible_variants (table_variants gens) coding_positions
                                     coding_exon_starts).
  set (hv := (λ ind, (ind, het_positions gens ind)) <$> enough_samples gens).
  set (th := query (λ r, pos_of r ∈ eligible) (long_form hv)).
  assert (∀ s p, (∃ r, r ∈ rows th ∧ sample_of r = s ∧ pos_of r = p)
                 ↔ s ∈ enough_samples gens ∧ het_at gens s p ∧ p ∈ eligible) as Hth.
  { intros s p. split.
    - intros (r & (He & [Hin Hhet]%het_in_read & _)%elem_of_eligible_rows & <- & <-).
      done.
    - intros (Hin & Hhet & He). exists (mk_haps_row s p (λ _, false)).
      split; [|done]. apply elem_of_eligible_rows. simpl.
      split; [done|]. split; [|done]. by apply het_in_read. }
  destruct (is_empty th) eqn:Hemp.
  { split; [done|]. right; right. intros s p Hin Hhet He.
    apply is_empty_rows in Hemp.
    destruct (proj2 (Hth s p)) as (r & Hr & _); [done|].
    rewrite Hemp in Hr. by apply elem_of_nil in Hr. }
  assert (rows th ≠ []) as Hne by (intros ?%is_empty_rows; congruence).
  destruct (evaluate_cas_returns "SaCas9_KKH" chrdf gens
              (targ_pairs_tuple (table_variants gens) coding_positions coding_exon_starts)
              (enough_samples gens) th Hcas Hne)
    as (values & targ & Hvalues & Htarg & ->).
  { intros r (s & Hs)%(λ H, proj1 (Hth (sample_of r) (pos_of r))
                               (ex_intro _ r (conj H (conj eq_refl eq_refl)))).
    by apply elem_of_enough_samples in s as [_ ?]. }
  rewrite py_bind_Return. cbn [fst snd ft_sample ft_targ ft_targ_all].
  assert (length targ = length (enough_samples gens)) as Hlt
    by (symmetry; by eapply Forall2_length).
  assert (∀ s p, (∃ r, r ∈ rows (assign_haps "SaCas9_KKH" th values)
                       ∧ sample_of r = s ∧ pos_of r = p)
                 ↔ ∃ r, r ∈ rows th ∧ sample_of r = s ∧ pos_of r = p) as Hassign.
  { intros s p. unfold assign_haps. cbn [rows]. split.
    - intros (r' & (r & v & Hr & _ & ->)%(elem_of_zip_with_computed
                                            (resolve "SaCas9_KKH" chrdf gens))
                 & Hs & Hp); [|done].
      by exists r.
    - intros (r & Hr & Hs & Hp).
      destruct (Forall2_computed_l _ _ _ r Hvalues Hr) as (v & _ & Hv).
      eexists. split.
      { apply (elem_of_zip_with_computed (resolve "SaCas9_KKH" chrdf gens)); [done|].
        by exists r, v. }
      done. }
  split_and!; [intros ?%is_empty_rows; congruence|done| | |].
  - exists targ. split_and!; [done|done|].
    rewrite <- Hlt. apply any_axis1_single.
  - assert (∃ r, r ∈ rows th) as [r Hr].
    { revert Hne. destruct (rows th) as [|r l]; [done|]. intros _. exists r. left. }
    destruct (proj2 (Hassign (sample_of r) (pos_of r))) as (r' & Hr' & _).
    { by exists r. }
    intros Hnil. rewrite Hnil in Hr'. by apply elem_of_nil in Hr'.
  - intros s p. by rewrite Hassign, Hth.
Qed.

Lemma main_outcome_witness :
  match main (list_to_set (range 15 25)) [15] chrdf_pairs gens_pairs with
  | Return (out, targ_haps) =>
      rows chrdf_pairs ≠ []
      ∧ ft_sample out = enough_samples gens_pairs
      ∧ (∃ col, ft_targ out = [("targ_SaCas9_KKH", col)]
                ∧ length col = length (ft_sample out)
                ∧ ft_targ_all out = col)
      ∧ rows targ_haps ≠ []
      ∧ ∀ s p, (∃ r, r ∈ rows targ_haps ∧ sample_of r = s ∧ pos_of r = p)
               ↔ s ∈ enough_samples gens_pairs ∧ het_at gens_pairs s p
                 ∧ p ∈ eligible_variants (table_variants gens_pairs)
                                         (list_to_set (range 15 25)) [15]
  | Raise e =>
      e = SystemExit
      ∧ (rows chrdf_pairs = [] ∨ enough_samples gens_pairs = []
         ∨ ∀ s p, s ∈ enough_samples gens_pairs → het_at gens_pairs s p →
                  p ∉ eligible_variants (table_variants gens_pairs)
                                        (list_to_set (range 15 25)) [15])
  end.
Proof.
  apply (main_outcome (list_to_set (range 15 25)) [15] chrdf_pairs gens_pairs).
  - apply NoDup_singleton.
  - discriminate.
  - reflexivity.
  - reflexivity.
Defined.

End main_outcomes.

(** * More on the gene model *)

Section gene_exons.
Import SingleCut.
Implicit Types (exons middle : list (Z * Z)) (first last : Z * Z).

Lemma length_clip_exons coding_start coding_end counterweight counter exons :
  length (clip_exons coding_start coding_end counterweight counter exons)
  = length exons.
Proof.
  revert counter. induction exons as [|x exons IH]; intros counter; [done|].
  simpl. by rewrite IH.
Qed.

(** Each exon of the loop's result lies within the exon it is made of. *)
Lemma clip_exons_within coding_start coding_end counterweight counter exons :
  Forall2 (λ x y, x.1 ≤ y.1 ∧ y.2 ≤ x.2) exons
          (clip_exons coding_start coding_end counterweight counter exons).
Proof.
  revert counter. induction exons as [|x exons IH]; intros counter; [constructor|].
  simpl. constructor; [|apply IH].
  repeat case_bool_decide; simpl; lia.
Qed.

(** X24: [Gene.__init__] keeps every annotated exon: [n_coding_exons] is
    the number of pairs of a start and an end, whatever the coding
    region, so that the test [n_coding_exons < 1] of [main] holds for a
    transcript without an exon only. *)
Theorem n_coding_exons_counts_exons (coding_start coding_end : Z)
    (exonStarts exonEnds : list Z) :
  length (coding_exons coding_start coding_end exonStarts exonEnds)
  = (length exonStarts `min` length exonEnds)%nat.
Proof. unfold coding_exons. by rewrite length_clip_exons, length_zip_with. Qed.

(** X25: the coding exons on every transcript with an exon.  With one
    exon, its start is raised to [cdsStart] and its end is kept; with two
    or more, the start of the first is raised to [cdsStart], the end of
    the last is lowered to [cdsEnd], and the exons in between are kept. *)
Theorem coding_exons_clipped (coding_start coding_end : Z)
    (exonStarts exonEnds : list Z) first (rest : list (Z * Z)) :
  zip exonStarts exonEnds = first :: rest →
  coding_exons coding_start coding_end exonStarts exonEnds
  = match rest with
    | [] => [(Z.max coding_start first.1, first.2)]
    | _ :: _ =>
        (Z.max coding_start first.1, first.2)
        :: removelast rest
        ++ [((List.last rest first).1, Z.min coding_end (List.last rest first).2)]
    end.
Proof.
  unfold coding_exons. intros ->.
  destruct (decide (rest = [])) as [->|Hne]; [done|].
  pose proof (app_removelast_last first Hne) as Heq.
  set (middle := removelast rest) in *. set (last := List.last rest first) in *.
  clearbody middle last. subst rest.
  rewrite clip_exons_two_or_more. by destruct middle.
Qed.

Lemma coding_exons_clipped_witness :
  coding_exons 120 480 [100; 300; 450] [200; 400; 500]
  = match [(300, 400); (450, 500)] with
    | [] => [(Z.max 120 (100, 200).1, (100, 200).2)]
    | _ :: _ =>
        (Z.max 120 (100, 200).1, (100, 200).2)
        :: removelast [(300, 400); (450, 500)]
        ++ [((List.last [(300, 400); (450, 500)] (100, 200)).1,
             Z.min 480 (List.last [(300, 400); (450, 500)] (100, 200)).2)]
    end.
Proof.
  apply (coding_exons_clipped 120 480 [100; 300; 450] [200; 400; 500] (100, 200)
           [(300, 400); (450, 500)]).
  reflexivity.
Defined.

(** X26: every coding position that the gene hands to [main] lies in an
    annotated exon of the transcript, ends included: the clipping only
    shortens exons. *)
Theorem coding_positions_in_exons (coding_start coding_end : Z)
    (exonStarts exonEnds : list Z) (p : Z) :
  p ∈ (get_coding_positions_and_starts
         (coding_exons coding_start coding_end exonStarts exonEnds)).1 →
  ∃ exon, exon ∈ zip exonStarts exonEnds ∧ exon.1 ≤ p ≤ exon.2.
Proof.
  rewrite get_coding_positions_and_starts_eq. cbn [fst].
  intros (y & Hp%elem_of_range & Hy)%list_elem_of_bind.
  unfold coding_exons in Hy.
  destruct (Forall2_computed_r _ _ _ y
              (clip_exons_within coding_start coding_end
                 (length (zip exonStarts exonEnds)) 0 (zip exonStarts exonEnds)) Hy)
    as (x & Hx & Hlo & Hhi).
  exists x. split; [done|]. lia.
Qed.

Lemma coding_positions_in_exons_witness :
  ∃ exon, exon ∈ zip [100; 300] [200; 400] ∧ exon.1 ≤ 150 ≤ exon.2.
Proof.
  apply (coding_positions_in_exons 120 380 [100; 300] [200; 400] 150).
  apply (bool_decide_unpack _). vm_compute. exact I.
Defined.

End gene_exons.

(** * [main] of the single-cut script *)

Lemma mapM_py_fmap {A B} (f : A → py B) (g : A → B) (l : list A) :
  (∀ x, x ∈ l → f x = Return (g x)) → mapM f l = Return (g <$> l).
Proof.
  induction l as [|x l IH]; intros Hall; [done|].
  rewrite mapM_py_cons, (Hall x) by left. rewrite py_bind_Return.
  rewrite IH by (intros; apply Hall; by right). done.
Qed.

Section single_cut_tables.
Import SingleCut.
Implicit Types (gens : list gens_row) (samples : list string)
  (targ_df : DataFrame ExcisionFinder.targ_row) (df : list (string * list bool)).

Lemma single_cut_het_cases genotype :
  (∃ b, het genotype = Return b) ∨ het genotype = Raise ValueError.
Proof.
  unfold het. destruct (re_split _ genotype) as [|h1 [|h2 [|h3 l]]]; eauto.
Qed.

Lemma het_cell_returned genotype b : het genotype = Return b → het_cell genotype = b.
Proof. unfold het_cell. intros ->. by destruct b. Qed.

Lemma het_cell_true genotype : het_cell genotype = true ↔ het genotype = Return true.
Proof. unfold het_cell. destruct (het genotype) as [[]|]; split; congruence. Qed.

Lemma cells_well_formed_true samples gens :
  cells_well_formed samples gens = true
  ↔ ∀ ind r, ind ∈ samples → r ∈ gens → ∃ b, het (gens_genotype r ind) = Return b.
Proof.
  unfold cells_well_formed. rewrite forallb_forall. split.
  - intros H ind r Hind Hr. apply list_elem_of_In, H in Hind.
    rewrite forallb_forall in Hind. apply list_elem_of_In, Hind in Hr.
    destruct (het (gens_genotype r ind)); [by eexists|done].
  - intros H ind Hind%list_elem_of_In. apply forallb_forall.
    intros r Hr%list_elem_of_In. by destruct (H ind r Hind Hr) as [b ->].
Qed.

(** [het_gens] on genotypes that all split in two. *)
Lemma single_cut_applymap_returns samples gens :
  cells_well_formed samples gens = true →
  applymap_het samples gens
  = Return ((λ ind, (ind, (λ r, het_cell (gens_genotype r ind)) <$> gens)) <$> samples).
Proof.
  intros Hwf. pose proof (proj1 (cells_well_formed_true _ _) Hwf) as Hall.
  clear Hwf. rename Hall into Hwf. unfold applymap_het.
  apply mapM_py_fmap. intros ind Hind.
  rewrite (mapM_py_fmap _ (λ r, het_cell (gens_genotype r ind))); [done|].
  intros r Hr. destruct (Hwf ind r Hind Hr) as [b Hb].
  by rewrite Hb, (het_cell_returned _ _ Hb).
Qed.

Lemma single_cut_applymap_raises samples gens :
  cells_well_formed samples gens = false → applymap_het samples gens = Raise ValueError.
Proof.
  intros Hwf. unfold applymap_het.
  set (good := λ (ind : string) (r : gens_row),
         match het (gens_genotype r ind) with Return _ => true | Raise _ => false end).
  set (f := λ ind : string,
         col ← mapM (λ r, het (gens_genotype r ind)) gens; Return (ind, col)).
  assert (∀ ind, if forallb (good ind) gens
                 then ∃ c, f ind = Return c else f ind = Raise ValueError) as Hcol.
  { intros ind. destruct (forallb (good ind) gens) eqn:Hg.
    - rewrite forallb_forall in Hg.
      destruct (mapM_py_returns (λ r, het (gens_genotype r ind)) gens) as [col Hc].
      { intros r Hr%list_elem_of_In%Hg. unfold good in Hr.
        destruct (het (gens_genotype r ind)); [by eexists|done]. }
      unfold f. rewrite Hc. by eexists.
    - apply forallb_false in Hg as (r & Hr & Hbad). unfold good in Hbad.
      unfold f. rewrite (mapM_py_raise _ _ ValueError); [done| |].
      + intros r' _. apply single_cut_het_cases.
      + exists r. split; [done|].
        destruct (single_cut_het_cases (gens_genotype r ind)) as [[b Hb]|]; [|done].
        by rewrite Hb in Hbad. }
  change (mapM _ samples) with (mapM f samples).
  rewrite (mapM_py_raise _ _ ValueError); [done| |].
  - intros ind _. specialize (Hcol ind). destruct (forallb _ _); [by left|by right].
  - apply forallb_false in Hwf as (ind & Hind & Hbad). exists ind. split; [done|].
    specialize (Hcol ind). fold (good ind) in Hbad. by rewrite Hbad in Hcol.
Qed.

(** Reading and setting a column. *)
Lemma get_column_computed (f : string → list bool) samples ind :
  ind ∈ samples → get_column ind ((λ i, (i, f i)) <$> samples) = f ind.
Proof.
  intros Hind. unfold get_column.
  destruct (list_to_map _ !! ind) as [col|] eqn:Hl.
  - apply elem_of_list_to_map_2 in Hl.
    by apply list_elem_of_fmap in Hl as (i & [= -> ->] & _).
  - apply not_elem_of_list_to_map_2 in Hl. exfalso. apply Hl.
    rewrite <- list_fmap_compose. apply list_elem_of_fmap. by exists ind.
Qed.

Lemma get_column_cons name name' col df :
  get_column name ((name', col) :: df)
  = if bool_decide (name = name') then col else get_column name df.
Proof.
  unfold get_column. cbn [list_to_map foldr]. simpl.
  case_bool_decide as Hn.
  - subst. by rewrite lookup_insert_eq.
  - by rewrite lookup_insert_ne.
Qed.

Lemma get_column_set_column name name' col df :
  get_column name (set_column name' col df)
  = if bool_decide (name = name') then col else get_column name df.
Proof.
  unfold set_column. case_bool_decide as Hin.
  - case_bool_decide as Hn.
    + subst name. induction df as [|[n c] df IH]; [by apply elem_of_nil in Hin|].
      rewrite fmap_cons. cbn [fst]. case_bool_decide as Hn.
      * rewrite get_column_cons. by rewrite bool_decide_eq_true_2.
      * rewrite get_column_cons. rewrite bool_decide_eq_false_2 by done.
        rewrite fmap_cons in Hin. apply elem_of_cons in Hin as [Hin|Hin]; [done|].
        by apply IH.
    + clear Hin. induction df as [|[n c] df IH]; [done|].
      rewrite fmap_cons. cbn [fst]. case_bool_decide as Hn'.
      * subst n. rewrite !get_column_cons. by rewrite !bool_decide_eq_false_2.
      * rewrite !get_column_cons. by rewrite IH.
  - induction df as [|[n c] df IH].
    + simpl. rewrite get_column_cons. by case_bool_decide.
    + rewrite fmap_cons in Hin. apply not_elem_of_cons in Hin as [Hn Hin].
      cbn [fst] in Hn. simpl. rewrite !get_column_cons, (IH Hin).
      repeat case_bool_decide; congruence.
Qed.

Lemma elem_of_set_column name name' col df :
  name ∈ (set_column name' col df).*1 ↔ name = name' ∨ name ∈ df.*1.
Proof.
  unfold set_column. case_bool_decide as Hin.
  - assert (((λ c : string * list bool,
                if bool_decide (c.1 = name') then (name', col) else c) <$> df).*1
            = df.*1) as ->.
    { clear Hin. induction df as [|[n c] df IH]; [done|].
      rewrite !fmap_cons, IH. cbn [fst]. by case_bool_decide; subst. }
    split; [by right|]. by intros [->|?].
  - rewrite fmap_app, elem_of_app. simpl. rewrite list_elem_of_singleton. tauto.
Qed.

(** [enough_hets] and [het_vars_per_ind] read on the genotype table. *)
Lemma column_sum_positive {A} (g : A → bool) (l : list A) :
  (1 ≤ column_sum (g <$> l))%nat ↔ existsb g l = true.
Proof.
  unfold column_sum. induction l as [|x l IH].
  - simpl. split; [lia|done].
  - rewrite fmap_cons, filter_cons.
    destruct (decide (g x = true)) as [Hx|Hx]; simpl.
    + rewrite Hx. simpl. split; [done|lia].
    + apply not_true_is_false in Hx. by rewrite Hx.
Qed.

Lemma enough_hets_read samples gens :
  (filter (λ c : string * list bool, (1 ≤ column_sum c.2)%nat)
          ((λ ind, (ind, (λ r, het_cell (gens_genotype r ind)) <$> gens)) <$> samples)).*1
  = filter (λ ind, has_het gens ind = true) samples.
Proof.
  induction samples as [|ind samples IH]; [done|].
  rewrite fmap_cons, !filter_cons. cbn [snd].
  destruct (decide (has_het gens ind = true)) as [Hh|Hh].
  - rewrite decide_True by (by apply column_sum_positive).
    by rewrite fmap_cons, IH.
  - rewrite decide_False; [done|]. by rewrite column_sum_positive.
Qed.

Lemma elem_of_boolean_index {A B} (f : A → B) (g : A → bool) (l : list A) (x : B) :
  x ∈ boolean_index (f <$> l) (g <$> l) ↔ ∃ r, r ∈ l ∧ f r = x ∧ g r = true.
Proof.
  unfold boolean_index. induction l as [|a l IH]; simpl.
  - split; [by intros ?%elem_of_nil|]. by intros (r & ?%elem_of_nil & _).
  - rewrite filter_cons. cbn [snd]. destruct (decide (g a = true)) as [Hg|Hg].
    + rewrite fmap_cons, elem_of_cons, IH. cbn [fst]. split.
      * intros [->|(r & Hr & Hf & Hgr)]; [exists a; split; [left|done]|].
        exists r. split; [by right|done].
      * intros (r & [->|Hr]%elem_of_cons & Hf & Hgr); [by left|].
        right. by exists r.
    + rewrite IH. split.
      * intros (r & Hr & Hf & Hgr). exists r. split; [by right|done].
      * intros (r & [->|Hr]%elem_of_cons & Hf & Hgr); [done|]. by exists r.
Qed.

Lemma elem_of_coding_positions (coding_exons : list (Z * Z)) p :
  p ∈ (get_coding_positions_and_starts coding_exons).1 ↔ in_coding_exon coding_exons p.
Proof.
  rewrite get_coding_positions_and_starts_eq. simpl. rewrite list_elem_of_bind.
  unfold in_coding_exon. split.
  - intros (x & Hz%elem_of_range & Hx). exists x. split; [done|lia].
  - intros (x & Hx & Hz). exists x. split; [|done]. apply elem_of_range. lia.
Qed.

(** The positions [query] keeps for a Cas variety. *)
Lemma query_columns_flag strict cas (t : ExcisionFinder.targ_row) :
  existsb (ExcisionFinder.flag t) (query_columns strict cas) = true
  ↔ targetable_row strict cas t.
Proof.
  unfold query_columns, targetable_row. destruct strict; cbn [existsb];
    rewrite !orb_true_iff; intuition congruence.
Qed.

Lemma targ_vars_cases strict cas targ_df :
  if present (query_columns strict cas) (columns targ_df)
  then ∃ tv, targ_vars strict cas targ_df = Some tv
             ∧ ∀ p, p ∈ tv ↔ ∃ t, t ∈ rows targ_df ∧ ExcisionFinder.pos t = p
                                  ∧ targetable_row strict cas t
  else targ_vars strict cas targ_df = None.
Proof.
  unfold targ_vars. destruct (present _ _); [|done].
  eexists. split; [done|]. intros p. unfold query. cbn [rows].
  rewrite list_elem_of_fmap. split.
  - intros (t & -> & [Hf Ht]%list_elem_of_filter). exists t.
    by rewrite <- query_columns_flag.
  - intros (t & Ht & <- & Hf). exists t. split; [done|].
    apply list_elem_of_filter. by rewrite query_columns_flag.
Qed.

Lemma intersection_not_empty (a b : list Z) :
  bool_decide ((list_to_set a : gset Z) ∩ list_to_set b ≠ ∅) = true
  ↔ ∃ p, p ∈ a ∧ p ∈ b.
Proof.
  rewrite bool_decide_eq_true. split.
  - intros (p & Hp)%set_choose_L. exists p.
    by rewrite elem_of_intersection, !elem_of_list_to_set in Hp.
  - intros (p & Ha & Hb) Hemp.
    assert (p ∈ (list_to_set a : gset Z) ∩ list_to_set b) as Hp
      by (by rewrite elem_of_intersection, !elem_of_list_to_set).
    rewrite Hemp in Hp. by apply elem_of_empty in Hp.
Qed.

Lemma queryable_true strict cas_list targ_df :
  queryable strict cas_list targ_df = true
  ↔ ∀ cas, cas ∈ cas_list → present (query_columns strict cas) (columns targ_df) = true.
Proof.
  unfold queryable. rewrite forallb_forall. split.
  - intros H cas Hc. by apply H, list_elem_of_In.
  - intros H cas Hc. by apply H, list_elem_of_In.
Qed.

(** The loop over the Cas varieties. *)
Lemma cas_loop_raises strict cas_list targ_df enough_hets het_vars_per_ind df cols :
  queryable strict cas_list targ_df = false →
  cas_loop strict cas_list targ_df enough_hets het_vars_per_ind df cols
  = RaisesUndefinedVariableError.
Proof.
  revert df cols. induction cas_list as [|cas rest IH]; intros df cols; [done|].
  simpl. intros Hq.
  pose proof (targ_vars_cases strict cas targ_df) as Hc.
  destruct (present _ _); [|by rewrite Hc].
  destruct Hc as (tv & -> & _). by apply IH.
Qed.

Lemma cas_loop_returns strict cas_list targ_df enough_hets het_vars_per_ind df cols :
  queryable strict cas_list targ_df = true →
  ∃ df', cas_loop strict cas_list targ_df enough_hets het_vars_per_ind df cols
         = Returns (df', cols ++ ((λ cas, "targ_" +:+ cas) <$> cas_list))
    ∧ (∀ cas tv, cas ∈ cas_list → targ_vars strict cas targ_df = Some tv →
         get_column ("targ_" +:+ cas) df'
         = (λ ind, bool_decide ((list_to_set tv : gset Z)
                                  ∩ list_to_set (het_vars_per_ind ind) ≠ ∅))
             <$> enough_hets)
    ∧ (∀ name, name ∉ (λ cas, "targ_" +:+ cas) <$> cas_list →
         get_column name df' = get_column name df)
    ∧ (∀ name, name ∈ df'.*1
               ↔ name ∈ df.*1 ∨ name ∈ (λ cas, "targ_" +:+ cas) <$> cas_list).
Proof.
  revert df cols. induction cas_list as [|cas rest IH]; intros df cols Hq.
  { exists df. simpl. rewrite app_nil_r. split_and!; try done.
    - by intros cas tv ?%elem_of_nil.
    - intros name. split; [by left|]. by intros [?|?%elem_of_nil]. }
  simpl in Hq. apply andb_true_iff in Hq as [Hcas Hq].
  pose proof (targ_vars_cases strict cas targ_df) as Hc. rewrite Hcas in Hc.
  destruct Hc as (tv & Htv & _). cbn [cas_loop]. rewrite Htv.
  set (col := (λ ind, bool_decide ((list_to_set tv : gset Z)
                                     ∩ list_to_set (het_vars_per_ind ind) ≠ ∅))
                <$> enough_hets).
  destruct (IH (set_column ("targ_" +:+ cas) col df) (cols ++ ["targ_" +:+ cas]) Hq)
    as (df' & Hrun & Hcols & Hother & Hnames).
  exists df'. split_and!.
  - rewrite Hrun, fmap_cons. by rewrite <- app_assoc.
  - intros cas' tv' [->|Hin]%elem_of_cons Htv'.
    + rewrite Htv in Htv'. injection Htv' as <-.
      destruct (decide (cas ∈ rest)) as [Hin|Hnin]; [by apply Hcols|].
      rewrite Hother.
      * rewrite get_column_set_column. by rewrite bool_decide_eq_true_2.
      * intros (c & Hc%(inj (String.append "targ_")) & Hin)%list_elem_of_fmap.
        by subst.
    + by apply Hcols.
  - intros name Hname. rewrite fmap_cons in Hname.
    apply not_elem_of_cons in Hname as [Hne Hname].
    rewrite (Hother name Hname), get_column_set_column.
    by rewrite bool_decide_eq_false_2.
  - intros name. rewrite Hnames, elem_of_set_column, fmap_cons, elem_of_cons. tauto.
Qed.

(** The column [targ_all]: on each row, whether one of the selected
    columns is true. *)
Lemma any_axis1_selected (f : string → string → bool) (enough_hets cas_list : list string)
    (df : list (string * list bool)) :
  (∀ cas, cas ∈ cas_list → get_column ("targ_" +:+ cas) df = f cas <$> enough_hets) →
  ExcisionFinder.any_axis1 (length enough_hets)
    ((λ c, (c, get_column c df)) <$> ((λ cas, "targ_" +:+ cas) <$> cas_list))
  = (λ ind, existsb (λ cas, f cas ind) cas_list) <$> enough_hets.
Proof.
  intros Hcols. unfold ExcisionFinder.any_axis1. apply list_eq. intros i.
  rewrite !list_lookup_fmap.
  destruct (enough_hets !! i) as [ind|] eqn:Hi.
  - rewrite lookup_seq_lt by (by eapply lookup_lt_Some). simpl. f_equal.
    clear -Hcols Hi. induction cas_list as [|cas rest IH]; [done|].
    rewrite !fmap_cons. simpl. rewrite IH by (intros; apply Hcols; by right).
    rewrite (Hcols cas) by left. by rewrite list_lookup_fmap, Hi.
  - rewrite lookup_seq_ge; [done|]. by apply lookup_ge_None.
Qed.

Lemma elem_of_zip_fmap {A B} (g : A → B) (l : list A) (x : A) (y : B) :
  (x, y) ∈ zip l (g <$> l) ↔ x ∈ l ∧ g x = y.
Proof.
  induction l as [|a l IH]; simpl.
  - split; [by intros ?%elem_of_nil|]. by intros [?%elem_of_nil _].
  - rewrite !elem_of_cons, IH. split.
    + intros [[= -> <-]|[? ?]]; [by split; [left|]|by split; [right|]].
    + intros [[->|?] <-]; [by left|by right].
Qed.

End single_cut_tables.

Section single_cut_main.
Import SingleCut.
Implicit Types (gens : list gens_row) (samples cas_list : list string)
  (targ_df : DataFrame ExcisionFinder.targ_row).

(** [het_vars_per_ind] of a sample. *)
Lemma elem_of_het_vars (coding_exons : list (Z * Z)) samples gens ind p :
  ind ∈ samples →
  p ∈ filter (λ p, p ∈ (get_coding_positions_and_starts coding_exons).1)
        (boolean_index (gens_pos <$> gens)
           (get_column ind ((λ ind, (ind, (λ r, het_cell (gens_genotype r ind)) <$> gens))
                              <$> samples)))
  ↔ in_coding_exon coding_exons p
    ∧ ∃ r, r ∈ gens ∧ gens_pos r = p ∧ het (gens_genotype r ind) = Return true.
Proof.
  intros Hind.
  rewrite (get_column_computed (λ ind, (λ r, het_cell (gens_genotype r ind)) <$> gens))
    by done.
  rewrite list_elem_of_filter, elem_of_coding_positions, elem_of_boolean_index.
  split; intros [He (r & Hr & Hp & Hh)]; (split; [done|]); exists r;
    by rewrite het_cell_true in *.
Qed.

Lemma has_het_true gens ind :
  has_het gens ind = true ↔ ∃ r, r ∈ gens ∧ het (gens_genotype r ind) = Return true.
Proof.
  unfold has_het. rewrite existsb_exists. split.
  - intros (r & Hr%list_elem_of_In & Hh%het_cell_true). by exists r.
  - intros (r & Hr & Hh). exists r. split; [by apply list_elem_of_In|].
    by apply het_cell_true.
Qed.

(** A run on tables that pass the tests of [main]. *)
Lemma single_cut_main_returns cas_list strict (coding_exons : list (Z * Z))
    samples targ_df gens :
  coding_exons ≠ [] → rows targ_df ≠ [] →
  cells_well_formed samples gens = true →
  filter (λ ind, has_het gens ind = true) samples ≠ [] →
  queryable strict cas_list targ_df = true →
  ∃ out, main cas_list strict coding_exons samples targ_df gens = Returns out
    ∧ ft_sample out = filter (λ ind, has_het gens ind = true) samples
    ∧ (∀ name, name ∈ (ft_columns out).*1
               ↔ name = "targ_all" ∨ ∃ cas, cas ∈ cas_list ∧ name = "targ_" +:+ cas)
    ∧ (∀ name, name ∈ (ft_columns out).*1 →
               length (get_column name (ft_columns out)) = length (ft_sample out))
    ∧ (∀ cas sample, cas ∈ cas_list → cas ≠ "all" →
         reported out ("targ_" +:+ cas) sample
         ↔ sample ∈ samples
           ∧ single_cut_site strict cas coding_exons targ_df gens sample)
    ∧ (∀ sample,
         reported out "targ_all" sample
         ↔ sample ∈ samples
           ∧ ∃ cas, cas ∈ cas_list
                    ∧ single_cut_site strict cas coding_exons targ_df gens sample).
Proof.
  intros Hexons Hrows Hwf Henough Hq. unfold main.
  destruct (get_coding_positions_and_starts coding_exons)
    as [coding_positions coding_starts] eqn:Hcp.
  assert (coding_positions = (get_coding_positions_and_starts coding_exons).1) as ->
    by (by rewrite Hcp).
  rewrite bool_decide_eq_false_2 by (destruct coding_exons; [done|simpl; lia]).
  destruct (is_empty targ_df) eqn:Hemp; [by apply is_empty_rows in Hemp|].
  rewrite single_cut_applymap_returns by done.
  rewrite enough_hets_read.
  set (enough_hets := filter (λ ind, has_het gens ind = true) samples) in *.
  rewrite bool_decide_eq_false_2 by (destruct enough_hets; [done|simpl; lia]).
  set (het_gens := (λ ind, (ind, (λ r, het_cell (gens_genotype r ind)) <$> gens))
                     <$> samples).
  set (hv := λ ind, filter _ (boolean_index _ (get_column ind het_gens))).
  cbn [tail].
  destruct (cas_loop_returns strict cas_list targ_df enough_hets hv [] [] Hq)
    as (df & -> & Hcols & Hother & Hnames).
  cbn [app].
  set (f := λ cas ind,
         bool_decide ((list_to_set (default [] (targ_vars strict cas targ_df)) : gset Z)
                        ∩ list_to_set (hv ind) ≠ ∅)).
  assert (∀ cas, cas ∈ cas_list → get_column ("targ_" +:+ cas) df = f cas <$> enough_hets)
    as Hf.
  { intros cas Hcas.
    pose proof (targ_vars_cases strict cas targ_df) as Hc.
    rewrite (proj1 (queryable_true _ _ _) Hq cas Hcas) in Hc.
    destruct Hc as (tv & Htv & _). rewrite (Hcols cas tv Hcas Htv).
    unfold f. by rewrite Htv. }
  assert (∀ cas ind, cas ∈ cas_list → ind ∈ samples →
            f cas ind = true ↔ single_cut_site strict cas coding_exons targ_df gens ind)
    as Hsite.
  { intros cas ind Hcas Hind. unfold f.
    pose proof (targ_vars_cases strict cas targ_df) as Hc.
    rewrite (proj1 (queryable_true _ _ _) Hq cas Hcas) in Hc.
    destruct Hc as (tv & -> & Htv). cbn [default].
    rewrite intersection_not_empty. unfold single_cut_site. split.
    - intros (p & (t & Ht & Hp & Hflag)%Htv & Hhv).
      apply (elem_of_het_vars coding_exons samples gens ind p Hind) in Hhv
        as (He & r & Hr & Hpr & Hh).
      exists r, t. rewrite Hpr. by split_and!.
    - intros (r & t & Hr & Hh & He & Ht & Hp & Hflag).
      exists (gens_pos r). split.
      + apply Htv. by exists t.
      + apply (elem_of_het_vars coding_exons samples gens ind _ Hind).
        split; [done|]. by exists r. }
  rewrite (any_axis1_selected f enough_hets cas_list df Hf).
  eexists. split; [reflexivity|]. cbn [ft_sample ft_columns].
  assert (∀ ind, ind ∈ enough_hets ↔ ind ∈ samples ∧ has_het gens ind = true) as Hen.
  { intros ind. unfold enough_hets. rewrite list_elem_of_filter. tauto. }
  assert (∀ name, name ∈ df.*1 ↔ ∃ cas, cas ∈ cas_list ∧ name = "targ_" +:+ cas)
    as Hdf.
  { intros name. rewrite Hnames. split.
    - intros [?%elem_of_nil|(cas & -> & Hcas)%list_elem_of_fmap]; [done|].
      by exists cas.
    - intros (cas & Hcas & ->). right. apply list_elem_of_fmap. by exists cas. }
  split_and!.
  - done.
  - intros name. by rewrite elem_of_set_column, Hdf.
  - intros name. rewrite elem_of_set_column, Hdf.
    rewrite get_column_set_column. case_bool_decide as Hn.
    { intros _. by rewrite length_fmap. }
    intros [?|(cas & Hcas & ->)]; [done|].
    by rewrite (Hf cas Hcas), length_fmap.
  - intros cas sample Hcas Hall. unfold reported. cbn [ft_sample ft_columns].
    rewrite get_column_set_column, bool_decide_eq_false_2.
    2:{ intros Heq. apply Hall. by apply (inj (String.append "targ_")). }
    rewrite (Hf cas Hcas), elem_of_zip_fmap, Hen. split.
    + intros [[Hin _] Hfc]. split; [done|]. by apply Hsite.
    + intros [Hin Hs]. split; [|by apply Hsite]. split; [done|].
      apply has_het_true. destruct Hs as (r & t & Hr & Hh & _). by exists r.
  - intros sample. unfold reported. cbn [ft_sample ft_columns].
    rewrite get_column_set_column, bool_decide_eq_true_2 by done.
    rewrite elem_of_zip_fmap, Hen, existsb_exists. split.
    + intros [[Hin _] (cas & Hcas%list_elem_of_In & Hfc)]. split; [done|].
      exists cas. split; [done|]. by apply Hsite.
    + intros [Hin (cas & Hcas & Hs)]. split.
      * split; [done|]. apply has_het_true.
        destruct Hs as (r & t & Hr & Hh & _). by exists r.
      * exists cas. split; [by apply list_elem_of_In|]. by apply Hsite.
Qed.

(** How a run ends, test after test. *)
Lemma single_cut_main_ends cas_list strict (coding_exons : list (Z * Z))
    samples targ_df gens :
  match main cas_list strict coding_exons samples targ_df gens with
  | Returns out =>
      coding_exons ≠ [] ∧ rows targ_df ≠ []
      ∧ cells_well_formed samples gens = true
      ∧ filter (λ ind, has_het gens ind = true) samples ≠ []
      ∧ queryable strict cas_list targ_df = true
  | Raises e =>
      (e = SystemExit
       ∧ (coding_exons = [] ∨ rows targ_df = []
          ∨ cells_well_formed samples gens = true
            ∧ filter (λ ind, has_het gens ind = true) samples = []))
      ∨ (e = ValueError ∧ coding_exons ≠ [] ∧ rows targ_df ≠ []
         ∧ cells_well_formed samples gens = false)
  | RaisesUndefinedVariableError =>
      coding_exons ≠ [] ∧ rows targ_df ≠ []
      ∧ cells_well_formed samples gens = true
      ∧ filter (λ ind, has_het gens ind = true) samples ≠ []
      ∧ queryable strict cas_list targ_df = false
  end.
Proof.
  destruct coding_exons as [|exon exons] eqn:Hexons.
  { unfold main. simpl. left. split; [done|]. by left. }
  rewrite <- Hexons. assert (coding_exons ≠ []) as Hne by (by rewrite Hexons).
  clear Hexons.
  destruct (rows targ_df) as [|t ts] eqn:Hrows.
  { unfold main.
    destruct (get_coding_positions_and_starts coding_exons).
    rewrite bool_decide_eq_false_2 by (destruct coding_exons; [done|simpl; lia]).
    rewrite (proj2 (is_empty_rows targ_df) Hrows). left. split; [done|]. right. by left. }
  assert (rows targ_df ≠ []) as Hrne by (by rewrite Hrows).
  rewrite <- Hrows. clear Hrows.
  destruct (cells_well_formed samples gens) eqn:Hwf.
  2:{ unfold main.
      destruct (get_coding_positions_and_starts coding_exons).
      rewrite bool_decide_eq_false_2 by (destruct coding_exons; [done|simpl; lia]).
      destruct (is_empty targ_df) eqn:Hemp; [by apply is_empty_rows in Hemp|].
      rewrite single_cut_applymap_raises by done. right. done. }
  destruct (filter (λ ind, has_het gens ind = true) samples) as [|ind inds] eqn:Hen.
  { unfold main.
    destruct (get_coding_positions_and_starts coding_exons).
    rewrite bool_decide_eq_false_2 by (destruct coding_exons; [done|simpl; lia]).
    destruct (is_empty targ_df) eqn:Hemp; [by apply is_empty_rows in Hemp|].
    rewrite single_cut_applymap_returns by done.
    rewrite enough_hets_read, Hen. simpl. left. split; [done|]. right; right. done. }
  assert (filter (λ ind, has_het gens ind = true) samples ≠ []) as Henne
    by (by rewrite Hen).
  destruct (queryable strict cas_list targ_df) eqn:Hq.
  - destruct (single_cut_main_returns cas_list strict coding_exons samples targ_df gens
                Hne Hrne Hwf Henne Hq) as (out & -> & _).
    by rewrite <- Hen.
  - unfold main.
    destruct (get_coding_positions_and_starts coding_exons).
    rewrite bool_decide_eq_false_2 by (destruct coding_exons; [done|simpl; lia]).
    destruct (is_empty targ_df) eqn:Hemp; [by apply is_empty_rows in Hemp|].
    rewrite single_cut_applymap_returns by done.
    rewrite enough_hets_read, Hen.
    rewrite bool_decide_eq_false_2 by (simpl; lia).
    cbn [tail]. rewrite cas_loop_raises by done. by rewrite <- Hen.
Qed.

Lemma get_column_absent name (df : list (string * list bool)) :
  name ∉ df.*1 → get_column name df = [].
Proof.
  intros Hn. unfold get_column.
  by rewrite (not_elem_of_list_to_map_1 (M:=gmap string) df name Hn).
Qed.

Lemma targetable_row_relaxed cas (t : ExcisionFinder.targ_row) :
  targetable_row true cas t → targetable_row false cas t.
Proof. unfold targetable_row. intros [?|[?|[? _]]]; [by left|by right; left|done]. Qed.

Lemma single_cut_site_relaxed cas (coding_exons : list (Z * Z)) targ_df gens sample :
  single_cut_site true cas coding_exons targ_df gens sample →
  single_cut_site false cas coding_exons targ_df gens sample.
Proof.
  intros (r & t & Hr & Hh & He & Ht & Hp & Hf). exists r, t.
  split_and!; try done. by apply targetable_row_relaxed.
Qed.

Lemma queryable_relaxed cas_list targ_df :
  queryable false cas_list targ_df = true → queryable true cas_list targ_df = true.
Proof.
  rewrite !queryable_true. intros H cas Hcas. specialize (H cas Hcas).
  rewrite present_true in *. intros c Hc. apply H. unfold query_columns in *.
  by right.
Qed.

End single_cut_main.

Section single_cut_run.
Import SingleCut.
Implicit Types (gens : list gens_row) (samples cas_list : list string)
  (targ_df : DataFrame ExcisionFinder.targ_row).

(** X27: the column [targ_<cas>] that [main] of the single-cut script
    writes.  On distinct sample names, genotypes that all split in two and
    a targetability table that has the columns [query] names, the run
    returns a table in which the column of a Cas variety of the list is
    true for a sample exactly when the sample is heterozygous on a row of
    the genotype table whose position lies in a coding exon, ends
    included, and the targetability table has a row at that position on
    which the variant makes or breaks a site of that Cas or, without
    [-s], is near one.  The phase and the alleles play no part. *)
Theorem single_cut_reports cas_list strict (coding_exons : list (Z * Z))
    samples targ_df gens (cas sample : string) :
  NoDup samples → cells_well_formed samples gens = true →
  queryable strict cas_list targ_df = true →
  cas ∈ cas_list → cas ≠ "all" →
  (∃ out, main cas_list strict coding_exons samples targ_df gens = Returns out
          ∧ reported out ("targ_" +:+ cas) sample)
  ↔ sample ∈ samples
    ∧ single_cut_site strict cas coding_exons targ_df gens sample.
Proof.
  intros _ Hwf Hq Hcas Hall. split.
  - intros (out & Hrun & Hrep).
    pose proof (single_cut_main_ends cas_list strict coding_exons samples targ_df gens)
      as Hends.
    rewrite Hrun in Hends. destruct Hends as (Hne & Hrne & _ & Hen & _).
    destruct (single_cut_main_returns cas_list strict coding_exons samples targ_df gens
                Hne Hrne Hwf Hen Hq) as (out' & Hrun' & _ & _ & _ & Hcol & _).
    rewrite Hrun in Hrun'. injection Hrun' as <-. by apply Hcol.
  - intros [Hin Hsite].
    assert (coding_exons ≠ []) as Hne.
    { destruct Hsite as (r & t & _ & _ & (exon & Hexon & _) & _).
      intros ->. by apply elem_of_nil in Hexon. }
    assert (rows targ_df ≠ []) as Hrne.
    { destruct Hsite as (r & t & _ & _ & _ & Ht & _).
      intros Hnil. rewrite Hnil in Ht. by apply elem_of_nil in Ht. }
    assert (filter (λ ind, has_het gens ind = true) samples ≠ []) as Hen.
    { destruct Hsite as (r & t & Hr & Hh & _).
      assert (sample ∈ filter (λ ind, has_het gens ind = true) samples) as Hs.
      { apply list_elem_of_filter. split; [|done]. apply has_het_true. by exists r. }
      intros Hnil. rewrite Hnil in Hs. by apply elem_of_nil in Hs. }
    destruct (single_cut_main_returns cas_list strict coding_exons samples targ_df gens
                Hne Hrne Hwf Hen Hq) as (out & Hrun & _ & _ & _ & Hcol & _).
    exists out. split; [done|]. by apply Hcol.
Qed.

Lemma single_cut_reports_witness :
  (∃ out, main ["SaCas9_KKH"] false [(15, 25)] ["s1"] targ_df_single gens_single
          = Returns out
          ∧ reported out ("targ_" +:+ "SaCas9_KKH") "s1")
  ↔ "s1" ∈ ["s1"]
    ∧ single_cut_site false "SaCas9_KKH" [(15, 25)] targ_df_single gens_single "s1".
Proof.
  apply (single_cut_reports ["SaCas9_KKH"] false [(15, 25)] ["s1"] targ_df_single
           gens_single "SaCas9_KKH" "s1").
  - apply NoDup_singleton.
  - reflexivity.
  - reflexivity.
  - apply list_elem_of_singleton. reflexivity.
  - discriminate.
Defined.

(** X28: the column [targ_all] of the single-cut script: it is true for a
    sample exactly when the sample has a site for a single cut for one of
    the Cas varieties of the list, also when the list names a variety
    twice or names the variety [all], whose column the column [targ_all]
    then replaces. *)
Theorem single_cut_targ_all cas_list strict (coding_exons : list (Z * Z))
    samples targ_df gens (sample : string) :
  NoDup samples → cells_well_formed samples gens = true →
  queryable strict cas_list targ_df = true →
  (∃ out, main cas_list strict coding_exons samples targ_df gens = Returns out
          ∧ reported out "targ_all" sample)
  ↔ sample ∈ samples
    ∧ ∃ cas, cas ∈ cas_list
             ∧ single_cut_site strict cas coding_exons targ_df gens sample.
Proof.
  intros _ Hwf Hq. split.
  - intros (out & Hrun & Hrep).
    pose proof (single_cut_main_ends cas_list strict coding_exons samples targ_df gens)
      as Hends.
    rewrite Hrun in Hends. destruct Hends as (Hne & Hrne & _ & Hen & _).
    destruct (single_cut_main_returns cas_list strict coding_exons samples targ_df gens
                Hne Hrne Hwf Hen Hq) as (out' & Hrun' & _ & _ & _ & _ & Hcol).
    rewrite Hrun in Hrun'. injection Hrun' as <-. by apply Hcol.
  - intros [Hin (cas & Hcas & Hsite)].
    assert (coding_exons ≠ []) as Hne.
    { destruct Hsite as (r & t & _ & _ & (exon & Hexon & _) & _).
      intros ->. by apply elem_of_nil in Hexon. }
    assert (rows targ_df ≠ []) as Hrne.
    { destruct Hsite as (r & t & _ & _ & _ & Ht & _).
      intros Hnil. rewrite Hnil in Ht. by apply elem_of_nil in Ht. }
    assert (filter (λ ind, has_het gens ind = true) samples ≠ []) as Hen.
    { destruct Hsite as (r & t & Hr & Hh & _).
      assert (sample ∈ filter (λ ind, has_het gens ind = true) samples) as Hs.
      { apply list_elem_of_filter. split; [|done]. apply has_het_true. by exists r. }
      intros Hnil. rewrite Hnil in Hs. by apply elem_of_nil in Hs. }
    destruct (single_cut_main_returns cas_list strict coding_exons samples targ_df gens
                Hne Hrne Hwf Hen Hq) as (out & Hrun & _ & _ & _ & _ & Hcol).
    exists out. split; [done|]. apply Hcol. split; [done|]. by exists cas.
Qed.

Lemma single_cut_targ_all_witness :
  (∃ out, main ["SaCas9_KKH"; "SaCas9_KKH"] true [(15, 25)] ["s1"] chrdf_pairs gens_single
          = Returns out
          ∧ reported out "targ_all" "s1")
  ↔ "s1" ∈ ["s1"]
    ∧ ∃ cas, cas ∈ ["SaCas9_KKH"; "SaCas9_KKH"]
             ∧ single_cut_site true cas [(15, 25)] chrdf_pairs gens_single "s1".
Proof.
  apply (single_cut_targ_all ["SaCas9_KKH"; "SaCas9_KKH"] true [(15, 25)] ["s1"] chrdf_pairs
           gens_single "s1").
  - apply NoDup_singleton.
  - reflexivity.
  - reflexivity.
Defined.



(** X30: the option [-s] only takes samples away.  When the targetability
    table has the three columns of every Cas variety of the list and the
    run with [-s] returns, the run without [-s] returns too, for the same
    samples, and every sample that a column of the strict run reports is
    reported by the same column of the relaxed run. *)
Theorem single_cut_strict_relaxed cas_list (coding_exons : list (Z * Z))
    samples targ_df gens (out : final_targ) :
  NoDup samples → queryable false cas_list targ_df = true →
  main cas_list true coding_exons samples targ_df gens = Returns out →
  ∃ out', main cas_list false coding_exons samples targ_df gens = Returns out'
    ∧ ft_sample out' = ft_sample out
    ∧ ∀ column sample, reported out column sample → reported out' column sample.
Proof.
  intros _ Hq Hrun.
  pose proof (single_cut_main_ends cas_list true coding_exons samples targ_df gens)
    as Hends.
  rewrite Hrun in Hends. destruct Hends as (Hne & Hrne & Hwf & Hen & Hqs).
  destruct (single_cut_main_returns cas_list true coding_exons samples targ_df gens
              Hne Hrne Hwf Hen Hqs) as (out0 & Hrun0 & Hs & Hnames & _ & Hcol & Hall).
  rewrite Hrun in Hrun0. injection Hrun0 as <-.
  destruct (single_cut_main_returns cas_list false coding_exons samples targ_df gens
              Hne Hrne Hwf Hen Hq) as (out' & Hrun' & Hs' & _ & _ & Hcol' & Hall').
  exists out'. split; [done|]. split; [by rewrite Hs, Hs'|].
  intros column sample Hrep.
  assert (reported out "targ_all" sample → reported out' "targ_all" sample) as Hta.
  { rewrite Hall, Hall'. intros [Hin (cas & Hcas & Hsite)]. split; [done|].
    exists cas. split; [done|]. by apply single_cut_site_relaxed. }
  destruct (decide (column ∈ (ft_columns out).*1)) as [Hin|Hnin].
  - apply Hnames in Hin as [->|(cas & Hcas & ->)]; [by apply Hta|].
    destruct (decide (cas = "all")) as [->|Hne_all]; [by apply Hta|].
    apply (Hcol cas sample Hcas Hne_all) in Hrep as [Hin Hsite].
    apply (Hcol' cas sample Hcas Hne_all). split; [done|].
    by apply single_cut_site_relaxed.
  - unfold reported in Hrep. rewrite (get_column_absent _ _ Hnin) in Hrep.
    rewrite zip_with_nil_r in Hrep. by apply elem_of_nil in Hrep.
Qed.

Lemma single_cut_strict_relaxed_witness :
  ∃ out', main ["SaCas9_KKH"] false [(15, 25)] ["s1"] chrdf_pairs gens_single
          = Returns out'
    ∧ ft_sample out'
      = ft_sample (mk_final_targ ["s1"] [("targ_SaCas9_KKH", [true]); ("targ_all", [true])])
    ∧ ∀ column sample,
        reported (mk_final_targ ["s1"] [("targ_SaCas9_KKH", [true]); ("targ_all", [true])])
                 column sample
        → reported out' column sample.
Proof.
  apply (single_cut_strict_relaxed ["SaCas9_KKH"] [(15, 25)] ["s1"] chrdf_pairs
           gens_single).
  - apply NoDup_singleton.
  - reflexivity.
  - vm_compute. reflexivity.
Defined.

End single_cut_run.
